(** * boot-crawler: a shallow embedding of [src/crawl.js] and [src/report.js]

    The development follows the two source files.

    - [Str] holds the JavaScript string methods the code calls
      ([startsWith], [endsWith], [slice], [toLowerCase], [includes]).
    - [Url] is a model of the platform's [URL] class (the WHATWG URL parser)
      on the part of its input language described there.
    - [normalizeURL], [getURLsFromHTML], [fetchHTML] and [crawlPage] are
      translated from [src/crawl.js]; [printReport] and [sortPages] from
      [src/report.js].

    The visit table [pages] is a plain JavaScript object used as a map from
    strings to numbers.  Its own properties are modelled as a
    [gmap string nat].  The test [pages[k] > 0] is modelled through the total
    lookup [!!!], which answers [0] on a key the object does not own: there
    JavaScript reads [undefined], or a value inherited from
    [Object.prototype], and none of these is greater than zero.  The
    assignment [pages[k] = n] is modelled by [assign]: it creates or updates
    an own property, except for the key [__proto__], which a plain object
    inherits as an accessor whose setter ignores a number.  The table is
    mutated in place and returned; since every call returns the very object it
    was given, passing the map in and out is the same as sharing it. *)

From Stdlib Require Import Ascii NArith ZArith Lia Bool DecimalString DecimalNat.
From Stdlib Require Import Sorting.Sorted Sorting.Permutation.
From stdpp Require Import base option list gmap strings.

Local Open Scope N_scope.

(** ** Characters *)

Module Chr.

Definition code (c : ascii) : N := N_of_ascii c.

Definition in_range (lo hi : N) (c : ascii) : bool :=
  (lo <=? code c) && (code c <=? hi).

Definition is_upper : ascii -> bool := in_range 65 90.
Definition is_lower : ascii -> bool := in_range 97 122.
Definition is_digit : ascii -> bool := in_range 48 57.
Definition is_alpha (c : ascii) : bool := is_upper c || is_lower c.
Definition is_alnum (c : ascii) : bool := is_alpha c || is_digit c.

(** ASCII lower-casing, as [String.prototype.toLowerCase] acts on the
    characters below 128. *)
Definition lower (c : ascii) : ascii :=
  if is_upper c then ascii_of_N (code c + 32) else c.

Definition hex_digit (n : N) : ascii :=
  if n <? 10 then ascii_of_N (48 + n) else ascii_of_N (55 + n).

End Chr.

(** ** Strings *)

Module Str.

Fixpoint map (f : ascii -> ascii) (s : string) : string :=
  match s with
  | EmptyString => EmptyString
  | String c s' => String (f c) (map f s')
  end.

Fixpoint filter (p : ascii -> bool) (s : string) : string :=
  match s with
  | EmptyString => EmptyString
  | String c s' => if p c then String c (filter p s') else filter p s'
  end.

Fixpoint forallb (p : ascii -> bool) (s : string) : bool :=
  match s with
  | EmptyString => true
  | String c s' => p c && forallb p s'
  end.

Fixpoint existsb (p : ascii -> bool) (s : string) : bool :=
  match s with
  | EmptyString => false
  | String c s' => p c || existsb p s'
  end.

(** [s.toLowerCase()] *)
Definition toLowerCase (s : string) : string := map Chr.lower s.

(** [s.startsWith(p)] *)
Fixpoint startsWith (p s : string) : bool :=
  match p, s with
  | EmptyString, _ => true
  | String a p', String b s' => Ascii.eqb a b && startsWith p' s'
  | String _ _, EmptyString => false
  end.

(** [s.endsWith(p)] *)
Fixpoint endsWith (p s : string) : bool :=
  String.eqb s p ||
  match s with
  | EmptyString => false
  | String _ s' => endsWith p s'
  end.

(** [s.includes(p)] *)
Fixpoint includes (p s : string) : bool :=
  startsWith p s ||
  match s with
  | EmptyString => false
  | String _ s' => includes p s'
  end.

Fixpoint drop (n : nat) (s : string) : string :=
  match n, s with
  | O, _ => s
  | S n', String _ s' => drop n' s'
  | S _, EmptyString => EmptyString
  end.

Fixpoint take (n : nat) (s : string) : string :=
  match n, s with
  | S n', String c s' => String c (take n' s')
  | _, _ => EmptyString
  end.

(** An index argument of [slice]: negative indices count from the end, and
    the result is clamped to the string. *)
Definition slice_index (len : nat) (i : Z) : nat :=
  if (i <? 0)%Z then Z.to_nat (Z.max (Z.of_nat len + i) 0)
  else Nat.min (Z.to_nat i) len.

(** [s.slice(from, to)] *)
Definition slice (from to : Z) (s : string) : string :=
  let len := String.length s in
  let a := slice_index len from in
  let b := slice_index len to in
  take (b - a)%nat (drop a s).

(** [s.slice(from)] *)
Definition slice_from (from : Z) (s : string) : string :=
  drop (slice_index (String.length s) from) s.

(** The longest prefix of [s] none of whose characters satisfies [p], and
    what follows it (which starts with a character satisfying [p], or is
    empty). *)
Fixpoint break (p : ascii -> bool) (s : string) : string * string :=
  match s with
  | EmptyString => (EmptyString, EmptyString)
  | String c s' =>
      if p c then (EmptyString, s)
      else let '(a, b) := break p s' in (String c a, b)
  end.

Fixpoint dropWhile (p : ascii -> bool) (s : string) : string :=
  match s with
  | EmptyString => EmptyString
  | String c s' => if p c then dropWhile p s' else s
  end.

(** Removes the characters satisfying [p] at the end of [s]. *)
Fixpoint dropWhileEnd (p : ascii -> bool) (s : string) : string :=
  match s with
  | EmptyString => EmptyString
  | String c s' =>
      match dropWhileEnd p s' with
      | EmptyString => if p c then EmptyString else String c EmptyString
      | r => String c r
      end
  end.

(** [s.split(sep)] for a one-character separator given by [p]: the pieces
    between the characters satisfying [p]; never the empty list. *)
Fixpoint split (p : ascii -> bool) (s : string) : list string :=
  match s with
  | EmptyString => [EmptyString]
  | String c s' =>
      if p c then EmptyString :: split p s'
      else match split p s' with
           | seg :: segs => String c seg :: segs
           | [] => [String c EmptyString]
           end
  end.

Fixpoint concat (l : list string) : string :=
  match l with
  | [] => EmptyString
  | s :: l' => s +:+ concat l'
  end.

End Str.

(** ** The platform's [URL] class

    [new URL(input)] and [new URL(input, base)] are not code of the
    repository: they are the WHATWG URL parser of the JavaScript platform.
    [Url] models that parser, following the states of the standard's basic
    URL parser, on this part of its input language:

    - strings of bytes (a character above 127 stands for a byte of UTF-8);
    - the special schemes [http], [https], [ws], [wss] and [ftp];
    - hosts that are plain ASCII domains.

    [URL_new] answers [Some] on the inputs of that part which the platform
    parses, with the URL record it builds.  It answers [None] on every other
    input: on those the platform rejects, and also on those the model does
    not cover, which the platform may well parse: other schemes, credentials
    ([user@host]), hosts written with percent-escapes or non-ASCII
    characters, IPv6 literals, hosts that end in a number (IPv4) and hosts
    with a Punycode label ([xn--]).  So [None] alone says nothing of the
    platform.  [rejects] holds of inputs on which the constructor is sure to
    throw its [TypeError]: those without a scheme, and those with one of the
    five schemes and no host.

    The path percent-encode set is the one of Node.js 22, which keeps [^]
    in a path; the standard has since added [^] to the set. *)

Module Url.

Record t := mk {
  scheme : string;
  host : string;
  port : option N;
  path : list string;
  query : option string;
  fragment : option string
}.

Definition code_in (l : list N) (c : ascii) : bool :=
  List.existsb (N.eqb (Chr.code c)) l.

Definition is_c0_or_space (c : ascii) : bool := Chr.code c <=? 32.
Definition is_tab_or_newline : ascii -> bool := code_in [9; 10; 13].
Definition is_scheme_char (c : ascii) : bool :=
  Chr.is_alnum c || code_in [43; 45; 46] c.
Definition is_slash (c : ascii) : bool := Ascii.eqb c "/".
Definition is_colon (c : ascii) : bool := Ascii.eqb c ":".
Definition is_dot (c : ascii) : bool := Ascii.eqb c ".".
Definition is_hash (c : ascii) : bool := Ascii.eqb c "#".
Definition is_question (c : ascii) : bool := Ascii.eqb c "?".
Definition is_at (c : ascii) : bool := Ascii.eqb c "@".
Definition backslash_to_slash (c : ascii) : ascii :=
  if Chr.code c =? 92 then "/"%char else c.

(** The percent-encode sets. *)
Definition c0_control_set (c : ascii) : bool :=
  (Chr.code c <=? 31) || (126 <? Chr.code c).
Definition fragment_set (c : ascii) : bool :=
  c0_control_set c || code_in [32; 34; 60; 62; 96] c.
Definition query_set (c : ascii) : bool :=
  c0_control_set c || code_in [32; 34; 35; 60; 62] c.
Definition special_query_set (c : ascii) : bool :=
  query_set c || code_in [39] c.
Definition path_set (c : ascii) : bool :=
  query_set c || code_in [63; 96; 123; 125] c.

Fixpoint percent_encode (set : ascii -> bool) (s : string) : string :=
  match s with
  | EmptyString => EmptyString
  | String c s' =>
      if set c
      then String "%" (String (Chr.hex_digit (Chr.code c / 16))
             (String (Chr.hex_digit (Chr.code c mod 16))
                (percent_encode set s')))
      else String c (percent_encode set s')
  end.

(** The forbidden domain code points, and the bytes above 127. *)
Definition host_char_ok (c : ascii) : bool :=
  (33 <=? Chr.code c) && (Chr.code c <=? 126) &&
  negb (code_in [35; 37; 47; 58; 60; 62; 63; 64; 91; 92; 93; 94; 124] c).

Definition is_hex_digit (c : ascii) : bool :=
  Chr.is_digit c || Chr.in_range 97 102 c || Chr.in_range 65 70 c.

(** Whether a label would be read as an IPv4 number. *)
Definition is_number (label : string) : bool :=
  (negb (String.eqb label "") && Str.forallb Chr.is_digit label) ||
  ((Str.startsWith "0x" label || Str.startsWith "0X" label) &&
   Str.forallb is_hex_digit (Str.drop 2 label)).

(** The standard's ends-in-a-number checker. *)
Definition ends_in_number (h : string) : bool :=
  match rev (Str.split is_dot h) with
  | [] => false
  | [last] => is_number last
  | last :: (prev :: _) =>
      if String.eqb last "" then is_number prev else is_number last
  end.

Definition default_port (sch : string) : option N :=
  if String.eqb sch "http" then Some 80
  else if String.eqb sch "https" then Some 443
  else if String.eqb sch "ws" then Some 80
  else if String.eqb sch "wss" then Some 443
  else if String.eqb sch "ftp" then Some 21
  else None.

(** Leading and trailing C0 controls and spaces are removed, then every tab
    and newline. *)
Definition preprocess (input : string) : string :=
  Str.filter (fun c => negb (is_tab_or_newline c))
    (Str.dropWhileEnd is_c0_or_space (Str.dropWhile is_c0_or_space input)).

(** Scheme start state and scheme state: the lower-cased scheme and what
    follows its colon. *)
Definition parse_scheme (s : string) : option (string * string) :=
  match s with
  | String c _ =>
      if Chr.is_alpha c then
        let '(sch, rest) := Str.break (fun c => negb (is_scheme_char c)) s in
        match rest with
        | String c' rest' =>
            if is_colon c' then Some (Str.toLowerCase sch, rest') else None
        | EmptyString => None
        end
      else None
  | EmptyString => None
  end.

Definition after_delimiter (s : string) : option string :=
  match s with
  | String _ s' => Some s'
  | EmptyString => None
  end.

(** The part before the first [?] or [#], the query and the fragment. *)
Definition split_query_fragment (s : string)
  : string * option string * option string :=
  let '(before_hash, h) := Str.break is_hash s in
  let '(front, q) := Str.break is_question before_hash in
  (front, after_delimiter q, after_delimiter h).

(** Whether a label of the host is in Punycode form. *)
Definition has_punycode_label (h : string) : bool :=
  List.existsb (Str.startsWith "xn--") (Str.split is_dot h).

(** Host parsing for a special scheme, on the modelled hosts. *)
Definition parse_host (h : string) : option string :=
  let h := Str.toLowerCase h in
  if String.eqb h "" then None
  else if negb (Str.forallb host_char_ok h) then None
  else if ends_in_number h then None
  else if has_punycode_label h then None
  else Some h.

Definition digit_value (c : ascii) : N := Chr.code c - 48.

Fixpoint decimal_value (acc : N) (s : string) : N :=
  match s with
  | EmptyString => acc
  | String c s' => decimal_value (10 * acc + digit_value c) s'
  end.

(** Port state: [None] is failure, [Some None] the null port. *)
Definition parse_port (dflt : N) (p : string) : option (option N) :=
  if negb (Str.forallb Chr.is_digit p) then None
  else if String.eqb p "" then Some None
  else
    let n := decimal_value 0 p in
    if 65535 <? n then None
    else Some (if n =? dflt then None else Some n).

(** Authority state, host state and port state. *)
Definition parse_authority (dflt : N) (a : string)
  : option (string * option N) :=
  if Str.existsb is_at a then None
  else
    let '(h, rest) := Str.break is_colon a in
    match parse_host h with
    | None => None
    | Some h' =>
        match after_delimiter rest with
        | None => Some (h', None)
        | Some p =>
            match parse_port dflt p with
            | None => None
            | Some po => Some (h', po)
            end
        end
    end.

Definition is_single_dot (seg : string) : bool :=
  let s := Str.toLowerCase seg in
  String.eqb s "." || String.eqb s "%2e".

Definition is_double_dot (seg : string) : bool :=
  let s := Str.toLowerCase seg in
  String.eqb s ".." || String.eqb s ".%2e" ||
  String.eqb s "%2e." || String.eqb s "%2e%2e".

Definition is_nil {A} (l : list A) : bool :=
  match l with [] => true | _ => false end.

(** Path state: [acc] is the path so far, [segs] the segments still to be
    read.  A dot segment that ends the input leaves an empty segment. *)
Fixpoint path_segments (acc : list string) (segs : list string) : list string :=
  match segs with
  | [] => acc
  | seg :: more =>
      let seg' := percent_encode path_set seg in
      let close := if is_nil more then [EmptyString] else [] in
      if is_double_dot seg' then path_segments (removelast acc ++ close) more
      else if is_single_dot seg' then path_segments (acc ++ close) more
      else path_segments (acc ++ [seg']) more
  end.

Definition parse_path (acc : list string) (s : string) : list string :=
  path_segments acc (Str.split is_slash s).

Definition encode_query (q : option string) : option string :=
  option_map (percent_encode special_query_set) q.
Definition encode_fragment (f : option string) : option string :=
  option_map (percent_encode fragment_set) f.

(** Special authority ignore slashes state and what follows; [front] is what
    comes after the scheme's colon (or a scheme-relative reference), with
    its backslashes turned into slashes. *)
Definition with_authority (sch : string) (dflt : N) (front : string)
    (q f : option string) : option t :=
  let '(auth, pathpart) := Str.break is_slash (Str.dropWhile is_slash front) in
  match parse_authority dflt auth with
  | None => None
  | Some (h, po) =>
      Some (mk sch h po (parse_path [] (Str.drop 1 pathpart))
              (encode_query q) (encode_fragment f))
  end.

(** [new URL(input)] *)
Definition URL_new (input : string) : option t :=
  match parse_scheme (preprocess input) with
  | None => None
  | Some (sch, rest) =>
      match default_port sch with
      | None => None
      | Some dflt =>
          let '(front, q, f) := split_query_fragment rest in
          with_authority sch dflt (Str.map backslash_to_slash front) q f
      end
  end.

(** Relative state and relative slash state, against the parsed base [b]. *)
Definition resolve (b : t) (s : string) : option t :=
  let '(front, q, f) := split_query_fragment s in
  let front := Str.map backslash_to_slash front in
  if Str.startsWith "//" front then
    match default_port (scheme b) with
    | None => None
    | Some dflt => with_authority (scheme b) dflt front q f
    end
  else if Str.startsWith "/" front then
    Some (mk (scheme b) (host b) (port b) (parse_path [] (Str.drop 1 front))
            (encode_query q) (encode_fragment f))
  else if String.eqb front "" then
    Some (mk (scheme b) (host b) (port b) (path b)
            (match q with Some _ => encode_query q | None => query b end)
            (encode_fragment f))
  else
    Some (mk (scheme b) (host b) (port b)
            (parse_path (removelast (path b)) front)
            (encode_query q) (encode_fragment f)).

(** [new URL(input, base)] *)
Definition URL_new_base (input base : string) : option t :=
  match URL_new base with
  | None => None
  | Some b =>
      let s := preprocess input in
      match parse_scheme s with
      | None => resolve b s
      | Some (sch, rest) =>
          if String.eqb sch (scheme b) then resolve b rest
          else
            match default_port sch with
            | None => None
            | Some dflt =>
                let '(front, q, f) := split_query_fragment rest in
                with_authority sch dflt (Str.map backslash_to_slash front) q f
            end
      end
  end.

(** The authority that [front] starts with has no credentials and an empty
    host: the host state fails on it. *)
Definition host_missing (front : string) : bool :=
  let '(auth, _) := Str.break is_slash (Str.dropWhile is_slash front) in
  negb (Str.existsb is_at auth) &&
  String.eqb (fst (Str.break is_colon auth)) "".

(** Inputs on which [new URL(input)] throws for sure: there is no scheme,
    or the scheme is one of the five and the host is missing. *)
Definition rejects (input : string) : bool :=
  match parse_scheme (preprocess input) with
  | None => true
  | Some (sch, rest) =>
      match default_port sch with
      | None => false
      | Some _ =>
          let '(front, _, _) := split_query_fragment rest in
          host_missing (Str.map backslash_to_slash front)
      end
  end.

(** The same for a reference [s] read against a parsed base: it goes to the
    authority states, and finds no host there. *)
Definition rejects_reference (s : string) : bool :=
  let '(front, _, _) := split_query_fragment s in
  let front := Str.map backslash_to_slash front in
  Str.startsWith "//" front && host_missing front.

(** Inputs on which [new URL(input, base)] throws for sure. *)
Definition rejects_base (input base : string) : bool :=
  match URL_new base with
  | None => rejects base
  | Some b =>
      let s := preprocess input in
      match parse_scheme s with
      | None => rejects_reference s
      | Some (sch, rest) =>
          if String.eqb sch (scheme b) then rejects_reference rest
          else
            match default_port sch with
            | None => false
            | Some _ =>
                let '(front, _, _) := split_query_fragment rest in
                host_missing (Str.map backslash_to_slash front)
            end
      end
  end.

(** The getters the code reads. *)
Definition hostname (u : t) : string := host u.

Definition pathname (u : t) : string :=
  Str.concat (List.map (fun seg => String "/" seg) (path u)).

Fixpoint decimal_digits (fuel : nat) (n : N) (acc : string) : string :=
  match fuel with
  | O => acc
  | S fuel' =>
      let acc' := String (ascii_of_N (48 + n mod 10)) acc in
      if n <? 10 then acc' else decimal_digits fuel' (n / 10) acc'
  end.

(** The decimal writing of a port (below 65536: at most five digits). *)
Definition decimal (n : N) : string := decimal_digits 5 n EmptyString.

Definition href (u : t) : string :=
  scheme u +:+ "://" +:+ host u +:+
  match port u with Some p => String ":" (decimal p) | None => "" end +:+
  pathname u +:+
  match query u with Some q => String "?" q | None => "" end +:+
  match fragment u with Some f => String "#" f | None => "" end.

End Url.

(** ** [src/crawl.js] *)

Local Open Scope nat_scope.

(** What a call can end in: a value, the [TypeError] of the [URL]
    constructor, a recursion deeper than the fuel given, or a call of the
    [URL] constructor on an input the model of the platform does not
    cover, of which nothing is said. *)
Inductive error := InvalidURL.

Inductive result (A : Type) :=
  | Ok (a : A)
  | Throw (e : error)
  | OutOfFuel
  | Unmodelled.
Arguments Ok {A} a.
Arguments Throw {A} e.
Arguments OutOfFuel {A}.
Arguments Unmodelled {A}.

#[global] Instance error_eq_dec : EqDecision error.
Proof. solve_decision. Defined.

#[global] Instance result_eq_dec {A} `{EqDecision A} : EqDecision (result A).
Proof. solve_decision. Defined.

(** Sequencing: the first call that does not return ends the whole. *)
Definition bind {A B : Type} (r : result A) (k : A -> result B) : result B :=
  match r with
  | Ok a => k a
  | Throw e => Throw e
  | OutOfFuel => OutOfFuel
  | Unmodelled => Unmodelled
  end.

Notation "'let*' x := r 'in' k" := (bind r (fun x => k))
  (at level 10, x pattern, r at level 100, k at level 200).

(** [new URL(input)], as a call that returns or throws. *)
Definition newURL (input : string) : result Url.t :=
  match Url.URL_new input with
  | Some u => Ok u
  | None => if Url.rejects input then Throw InvalidURL else Unmodelled
  end.

(** [new URL(input, base)] *)
Definition newURL_base (input base : string) : result Url.t :=
  match Url.URL_new_base input base with
  | Some u => Ok u
  | None => if Url.rejects_base input base then Throw InvalidURL else Unmodelled
  end.

(** What a crawl does besides changing the table: the lines it prints with
    [console.log] and the calls it makes to [fetchHTML]. *)
Inductive event :=
  | Log (line : string)
  | Fetch (url : string).

(** [normalizeURL(url)] *)
Definition normalizeURL (url : string) : result string :=
  let* parsedURL := newURL url in
  let hostname := Url.hostname parsedURL in
  let pathname := Url.pathname parsedURL in
  let hostname :=
    if Str.startsWith "www." hostname then Str.slice_from 4 hostname
    else hostname in
  let pathname :=
    if Str.endsWith "/" pathname then Str.slice 0 (-1) pathname
    else pathname in
  Ok (Str.toLowerCase (hostname +:+ pathname)).

(** What [await fetch(url)] gives: a rejection, or a response of which the
    code reads the status, the [content-type] header and the body. *)
Inductive fetched :=
  | NetworkFailure (message : string)
  | Response (status : nat) (statusText : string)
             (contentType : option string) (body : string).

Definition show_nat (n : nat) : string :=
  DecimalString.NilEmpty.string_of_uint (Nat.to_uint n).

Definition show_header (h : option string) : string :=
  match h with Some v => v | None => "null" end.

(** [!contentType]: the header is absent or empty. *)
Definition falsy (h : option string) : bool :=
  match h with Some v => String.eqb v "" | None => true end.

(** [forEach body urls s] runs [body] on the URLs in order, handing each
    call the state the previous one returned; the first call that does not
    return ends the loop. *)
Fixpoint forEach {S : Type} (body : string -> S -> result S)
    (urls : list string) (s : S) : result S :=
  match urls with
  | [] => Ok s
  | u :: rest =>
      let* s' := body u s in forEach body rest s'
  end.

(** [arr.map(callback)] for a callback that may not return. *)
Fixpoint Array_map {A B : Type} (callback : A -> result B) (arr : list A)
  : result (list B) :=
  match arr with
  | [] => Ok []
  | x :: rest =>
      let* y := callback x in
      let* ys := Array_map callback rest in
      Ok (y :: ys)
  end.

(** [pages[key] = count] on the table.  A plain object has no own property
    [__proto__] unless one was defined on it; it inherits an accessor, whose
    setter does nothing when given a number. *)
Definition assign (key : string) (count : nat) (pages : gmap string nat)
  : gmap string nat :=
  match pages !! key with
  | Some _ => <[key := count]> pages
  | None =>
      if String.eqb key "__proto__" then pages else <[key := count]> pages
  end.

Section Crawl.

(** The web the crawl runs against: what [fetch] answers for a URL, and the
    values of the [href] attributes of the anchors that
    [querySelectorAll("a[href]")] finds in a document, in document order. *)
Variable fetch : string -> fetched.
Variable anchorHrefs : string -> list string.

(** [fetchHTML(url)]: the message of the error thrown, or the body. *)
Definition fetchHTML (url : string) : string + string :=
  match fetch url with
  | NetworkFailure message => inl ("Got Network error: " +:+ message)
  | Response status statusText contentType body =>
      if 399 <? status then
        inl ("Got HTTP error: " +:+ show_nat status +:+ " " +:+ statusText)
      else if falsy contentType
              || negb (Str.includes "text/html" (show_header contentType)) then
        inl ("Got non-HTML response: " +:+ show_header contentType)
      else inr body
  end.

(** The callback of [anchors.map]: the absolute URL, or [null] and a line
    on the console when the constructor throws. *)
Definition resolveAnchor (baseURL href : string)
  : result (option string * list event) :=
  match newURL_base href baseURL with
  | Ok u => Ok (Some (Url.href u), [])
  | Throw InvalidURL => Ok (None, [Log ("Invalid URL: " +:+ href)])
  | OutOfFuel => OutOfFuel
  | Unmodelled => Unmodelled
  end.

(** [getURLsFromHTML(html, baseURL)], with what it prints. *)
Definition getURLsFromHTML (html baseURL : string)
  : result (list string * list event) :=
  let* mapped := Array_map (resolveAnchor baseURL) (anchorHrefs html) in
  Ok (omap fst mapped, List.concat (List.map snd mapped)).

(** [crawlPage(baseURL, currentURL, pages)]; [out] is what has been printed
    and fetched so far, [fuel] bounds the depth of the recursion. *)
Fixpoint crawlPage (fuel : nat) (baseURL currentURL : string)
    (pages : gmap string nat) (out : list event)
  : result (gmap string nat * list event) :=
  match fuel with
  | O => OutOfFuel
  | S fuel' =>
      let* currentURLObj := newURL currentURL in
      let* baseURLObj := newURL baseURL in
      if negb (String.eqb (Url.hostname currentURLObj)
                          (Url.hostname baseURLObj))
      then Ok (pages, out)
      else
        let* normalizedURL := normalizeURL currentURL in
        if 0 <? pages !!! normalizedURL then
          Ok (assign normalizedURL (S (pages !!! normalizedURL)) pages, out)
        else
          let pages := assign normalizedURL 1 pages in
          let out :=
            out ++ [Log ("crawling " +:+ currentURL); Fetch currentURL] in
          match fetchHTML currentURL with
          | inl message => Ok (pages, out ++ [Log message])
          | inr html =>
              let* found := getURLsFromHTML html baseURL in
              forEach
                (fun nextURL st =>
                   crawlPage fuel' baseURL nextURL (fst st) (snd st))
                (fst found) (pages, out ++ snd found)
          end
  end.

(** The entry point: [crawlPage(baseURL)] with its default arguments. *)
Definition crawl (fuel : nat) (baseURL : string)
  : result (gmap string nat * list event) :=
  crawlPage fuel baseURL baseURL ∅ [].

End Crawl.

(** ** [src/report.js] *)

Local Open Scope Z_scope.

(** [arr.sort(compareFn)]: the platform's sort is stable; it is modelled as
    a stable insertion sort.  [x] goes before the first element it does not
    compare greater than. *)
Fixpoint sort_insert {A : Type} (compareFn : A -> A -> Z) (x : A) (l : list A)
  : list A :=
  match l with
  | [] => [x]
  | y :: l' =>
      if compareFn x y <=? 0 then x :: y :: l'
      else y :: sort_insert compareFn x l'
  end.

Definition Array_sort {A : Type} (compareFn : A -> A -> Z) (l : list A)
  : list A :=
  foldr (sort_insert compareFn) [] l.

Section Report.

(** [a.localeCompare(b)] is the platform's collation of strings: negative
    when [a] sorts before [b], zero when they sort alike. *)
Variable localeCompare : string -> string -> Z.

(** The comparison function given to [sort]. *)
Definition comparePages (pageA pageB : string * nat) : Z :=
  if (snd pageB =? snd pageA)%nat then localeCompare (fst pageA) (fst pageB)
  else Z.of_nat (snd pageB) - Z.of_nat (snd pageA).

(** The body of [sortPages], on the array that [Object.entries(pages)]
    gives. *)
Definition sortEntries (pagesArr : list (string * nat)) : list (string * nat) :=
  Array_sort comparePages pagesArr.

(** [sortPages(pages)]; the entries are taken in the order [map_to_list]
    lists them. *)
Definition sortPages (pages : gmap string nat) : list (string * nat) :=
  sortEntries (map_to_list pages).

End Report.

(** The line [printReport] prints for an entry of the sorted array. *)
Definition reportLine (sortedPage : string * nat) : string :=
  let url := fst sortedPage in
  let count := snd sortedPage in
  "Found " +:+ show_nat count +:+ " internal links to " +:+ url.

(** [printReport(pages)]: what it prints. *)
Definition printReport (localeCompare : string -> string -> Z)
    (pages : gmap string nat) : list event :=
  [Log "=========="; Log "REPORT"; Log "=========="]
  ++ List.map (fun sortedPage => Log (reportLine sortedPage))
       (sortPages localeCompare pages).

(** The lexicographic order of strings by their code units; it is not the
    order [localeCompare] follows. *)
Definition codeUnitCompare (a b : string) : Z :=
  match String.compare a b with
  | Lt => -1
  | Eq => 0
  | Gt => 1
  end.

(** The platform's collation.  [a.localeCompare(b)] with no locale given
    compares in the default locale of the process; for the locales that do
    not tailor these characters, English among them, the order is that of
    the root collation of the Unicode CLDR.  [rootCompare] models it on the
    strings of ASCII characters from the tab to [~].  [rootOrder] lists the
    codes of those characters as the first level of the collation orders
    them: blanks, punctuation, symbols, the dollar, digits, letters; an
    upper-case letter has the place of its lower-case one.  Strings alike
    at the first level are told apart by case, lower case first. *)
Definition rootOrder : list N :=
  [9; 10; 11; 12; 13; 32;
   95; 45; 44; 59; 58; 33; 63; 46; 39; 34; 40; 41; 91; 93; 123; 125;
   64; 42; 47; 92; 38; 35; 37;
   96; 94; 43; 60; 61; 62; 124; 126;
   36;
   48; 49; 50; 51; 52; 53; 54; 55; 56; 57;
   97; 98; 99; 100; 101; 102; 103; 104; 105; 106; 107; 108; 109; 110; 111;
   112; 113; 114; 115; 116; 117; 118; 119; 120; 121; 122]%N.

Fixpoint index_of (n : N) (l : list N) : option N :=
  match l with
  | [] => None
  | m :: l' => if (n =? m)%N then Some 0%N else option_map N.succ (index_of n l')
  end.

(** The first-level weight of a character; a character outside the model
    is given a weight after the others. *)
Definition rootWeight (c : ascii) : N :=
  match index_of (Chr.code (Chr.lower c)) rootOrder with
  | Some i => i
  | None => (256 + Chr.code c)%N
  end.

Definition caseWeight (c : ascii) : N := if Chr.is_upper c then 1%N else 0%N.

(** Comparison of two strings by the weights of their characters. *)
Fixpoint compareBy (weight : ascii -> N) (a b : string) : comparison :=
  match a, b with
  | EmptyString, EmptyString => Eq
  | EmptyString, String _ _ => Lt
  | String _ _, EmptyString => Gt
  | String x a', String y b' =>
      match (weight x ?= weight y)%N with
      | Eq => compareBy weight a' b'
      | Lt => Lt
      | Gt => Gt
      end
  end.

Definition rootCompare (a b : string) : Z :=
  match compareBy rootWeight a b with
  | Lt => -1
  | Gt => 1
  | Eq =>
      match compareBy caseWeight a b with
      | Lt => -1
      | Eq => 0
      | Gt => 1
      end
  end.

(** ** Runs of the crawler

    The notions the statements about whole runs are written with. *)

Local Open Scope nat_scope.

Fixpoint count {A : Type} (p : A -> bool) (l : list A) : nat :=
  match l with
  | [] => 0
  | x :: l' => (if p x then 1 else 0) + count p l'
  end.

(** [url] and [baseURL] are parsed by the model, and [url] has the very
    hostname of [baseURL]: the test [crawlPage] starts with. *)
Definition onsite (baseURL url : string) : bool :=
  match Url.URL_new url, Url.URL_new baseURL with
  | Some c, Some b => String.eqb (Url.hostname c) (Url.hostname b)
  | _, _ => false
  end.

(** [url] is on the seed's host and normalizes to [key]. *)
Definition visits (baseURL key url : string) : bool :=
  onsite baseURL url && bool_decide (normalizeURL url = Ok key).

(** How many of [urls] are visits of [key]. *)
Definition hits (baseURL key : string) (urls : list string) : nat :=
  count (visits baseURL key) urls.

Definition fetchesKey (key : string) (e : event) : bool :=
  match e with
  | Fetch url => bool_decide (normalizeURL url = Ok key)
  | Log _ => false
  end.

(** How many times [fetchHTML] was called on a URL of key [key]. *)
Definition fetches (key : string) (out : list event) : nat :=
  count (fetchesKey key) out.

(** The keys an assignment to the table writes: all but [__proto__],
    unless the table owns it. *)
Definition writable (pages : gmap string nat) (key : string) : Prop :=
  key <> "__proto__" \/ is_Some (pages !! key).

(** The tables of the visit-table data model: every count is positive. *)
Definition positiveCounts (pages : gmap string nat) : Prop :=
  forall k n, pages !! k = Some n -> 0 < n.

(** The keys of [keys] that [pages] has not counted yet. *)
Definition unvisited (keys : gset string) (pages : gmap string nat)
  : gset string :=
  filter (fun k => pages !!! k = 0) keys.

(** The calls of [fetchHTML] among the events. *)
Definition isFetch (e : event) : bool :=
  match e with Fetch _ => true | Log _ => false end.

(** How many times [fetchHTML] was called. *)
Definition requests (out : list event) : nat := count isFetch out.

(** Every call of [fetchHTML] comes right after the line that announces
    it. *)
Fixpoint announced (out : list event) : bool :=
  match out with
  | [] => true
  | Fetch _ :: _ => false
  | Log line :: rest =>
      match rest with
      | Fetch url :: rest' =>
          String.eqb line ("crawling " +:+ url) && announced rest'
      | _ => announced rest
      end
  end.

(** The sum of the counts of a table. *)
Definition totalCount (pages : gmap string nat) : nat :=
  sum_list_with snd (map_to_list pages).

Section Runs.

Variable fetch : string -> fetched.
Variable anchorHrefs : string -> list string.

(** The links of the page a [Fetch] event brought, as [crawlPage] goes
    through them. *)
Definition linksOf (baseURL : string) (e : event) : list string :=
  match e with
  | Fetch url =>
      match fetchHTML fetch url with
      | inr html =>
          match getURLsFromHTML anchorHrefs html baseURL with
          | Ok found => fst found
          | _ => []
          end
      | inl _ => []
      end
  | Log _ => []
  end.

(** Every link occurrence discovered during the events [out]. *)
Definition discovered (baseURL : string) (out : list event) : list string :=
  flat_map (linksOf baseURL) out.

(** The link graph is finite: on any page that can be fetched, the model
    covers every anchor, and the links to the seed's host all normalize into
    the finite set [keys]. *)
Definition siteWithin (baseURL : string) (keys : gset string) : Prop :=
  forall url html,
    fetchHTML fetch url = inr html ->
    exists links lines,
      getURLsFromHTML anchorHrefs html baseURL = Ok (links, lines) /\
      forall link key,
        In link links ->
        onsite baseURL link = true ->
        normalizeURL link = Ok key ->
        key ∈ keys.

(** The four ways a call of [crawlPage] returns, when the model covers the
    anchors of the pages it fetches, as a relation between the table and
    events before and after it; [crawlsEach] is the loop over the links of
    a page. *)
Inductive crawls (baseURL : string)
  : string -> gmap string nat * list event ->
    gmap string nat * list event -> Prop :=
  | crawls_offsite currentURL pages out :
      Url.URL_new baseURL <> None ->
      Url.URL_new currentURL <> None ->
      onsite baseURL currentURL = false ->
      crawls baseURL currentURL (pages, out) (pages, out)
  | crawls_revisit currentURL key pages out :
      onsite baseURL currentURL = true ->
      normalizeURL currentURL = Ok key ->
      0 < pages !!! key ->
      crawls baseURL currentURL (pages, out)
        (assign key (S (pages !!! key)) pages, out)
  | crawls_failed currentURL key message pages out :
      onsite baseURL currentURL = true ->
      normalizeURL currentURL = Ok key ->
      pages !!! key = 0 ->
      fetchHTML fetch currentURL = inl message ->
      crawls baseURL currentURL (pages, out)
        (assign key 1 pages,
         (out ++ [Log ("crawling " +:+ currentURL); Fetch currentURL])
           ++ [Log message])
  | crawls_fetched currentURL key html links lines pages out st :
      onsite baseURL currentURL = true ->
      normalizeURL currentURL = Ok key ->
      pages !!! key = 0 ->
      fetchHTML fetch currentURL = inr html ->
      getURLsFromHTML anchorHrefs html baseURL = Ok (links, lines) ->
      crawlsEach baseURL links
        (assign key 1 pages,
         (out ++ [Log ("crawling " +:+ currentURL); Fetch currentURL])
           ++ lines)
        st ->
      crawls baseURL currentURL (pages, out) st
with crawlsEach (baseURL : string)
  : list string -> gmap string nat * list event ->
    gmap string nat * list event -> Prop :=
  | crawlsEach_nil st : crawlsEach baseURL [] st st
  | crawlsEach_cons nextURL rest st st' st'' :
      crawls baseURL nextURL st st' ->
      crawlsEach baseURL rest st' st'' ->
      crawlsEach baseURL (nextURL :: rest) st st''.

End Runs.

Scheme crawls_min := Minimality for crawls Sort Prop
  with crawlsEach_min := Minimality for crawlsEach Sort Prop.
Combined Scheme crawls_mutual from crawls_min, crawlsEach_min.

(** ** Fixtures

    Small webs to run the crawler on.  A document is written as the list of
    its [href] values separated by spaces, and [wordsOf] reads it back. *)

Definition wordsOf (html : string) : list string := String.words html.

Definition htmlPage (hrefs : string) : fetched :=
  Response 200 "OK" (Some "text/html; charset=utf-8") hrefs.

(** Page [a] links to [b], and [b] back to [a]. *)
Definition cycleWeb (url : string) : fetched :=
  if String.eqb url "http://site.test/a" then htmlPage "/b"
  else if String.eqb url "http://site.test/b" then htmlPage "/a"
  else NetworkFailure "getaddrinfo ENOTFOUND".

(** The front page links to [a] and [b], which both link to [c]. *)
Definition diamondWeb (url : string) : fetched :=
  if String.eqb url "http://site.test/" then htmlPage "/a /b"
  else if String.eqb url "http://site.test/a" then htmlPage "/c"
  else if String.eqb url "http://site.test/b" then htmlPage "/c"
  else if String.eqb url "http://site.test/c" then htmlPage ""
  else NetworkFailure "getaddrinfo ENOTFOUND".

(** The front page links to a page that answers 404 and to one that is
    fine; the second links back to the first. *)
Definition brokenWeb (url : string) : fetched :=
  if String.eqb url "http://site.test/" then htmlPage "/gone /fine"
  else if String.eqb url "http://site.test/gone" then
    Response 404 "Not Found" (Some "text/html") "/hidden"
  else if String.eqb url "http://site.test/fine" then htmlPage "/gone"
  else NetworkFailure "getaddrinfo ENOTFOUND".

(** Pages [a] and [b] of the host [__proto__] both link to its front page,
    whose key is [__proto__]; [a] links to [b] as well. *)
Definition protoWeb (url : string) : fetched :=
  if String.eqb url "http://__proto__/a" then htmlPage "/b /"
  else if String.eqb url "http://__proto__/b" then htmlPage "/"
  else if String.eqb url "http://__proto__/" then htmlPage ""
  else NetworkFailure "getaddrinfo ENOTFOUND".

(** The front page of the host [__proto__] links to itself. *)
Definition protoLoopWeb (url : string) : fetched :=
  if String.eqb url "http://__proto__/" then htmlPage "/"
  else NetworkFailure "getaddrinfo ENOTFOUND".

(** The front page of the host [__proto__] answers 404. *)
Definition protoGoneWeb (url : string) : fetched :=
  if String.eqb url "http://__proto__/" then
    Response 404 "Not Found" (Some "text/html") "/hidden"
  else NetworkFailure "getaddrinfo ENOTFOUND".

(** ** Notions the proofs are written with *)

(** A character that is neither a C0 control nor a space. *)
Definition visibleChar (c : ascii) : bool := (32 <? Chr.code c)%N.
Definition visible (s : string) : bool := Str.forallb visibleChar s.

(** [s] is empty or starts with a character satisfying [p]. *)
Definition startsWithChar (p : ascii -> bool) (s : string) : bool :=
  match s with
  | String c _ => p c
  | EmptyString => true
  end.

(** A character other than [?] and [#]. *)
Definition plain (c : ascii) : bool :=
  negb (Url.is_hash c) && negb (Url.is_question c).

(** The characters of a host and of a port are none of the separators. *)
Definition authorityChar (c : ascii) : bool :=
  Url.host_char_ok c || Chr.is_digit c || Url.is_colon c.

(** The invariant of the URLs the parser returns. *)
Definition wellFormed (u : Url.t) : Prop :=
  is_Some (Url.default_port (Url.scheme u)) /\
  Url.parse_host (Url.host u) = Some (Url.host u) /\
  (forall p, Url.port u = Some p -> (p <= 65535)%N) /\
  Forall (fun seg => visible seg = true) (Url.path u) /\
  (forall q, Url.query u = Some q -> visible q = true) /\
  (forall f, Url.fragment u = Some f -> visible f = true).

(** The port as [href] writes it. *)
Definition portText (u : Url.t) : string :=
  match Url.port u with Some p => String ":" (Url.decimal p) | None => "" end.

(** What [normalizeURL] reads of a parsed URL. *)
Definition keyParts (url : string) : option (string * list string) :=
  option_map (fun u => (Url.host u, Url.path u)) (Url.URL_new url).

(** The key made of a host and a path, as [normalizeURL] makes it. *)
Definition keyOf (hostname pathname : string) : string :=
  Str.toLowerCase
    ((if Str.startsWith "www." hostname then Str.slice_from 4 hostname else hostname)
     +:+ (if Str.endsWith "/" pathname then Str.slice 0 (-1) pathname else pathname)).

Definition isQueryOrHash (c : ascii) : bool := Url.is_question c || Url.is_hash c.

(** What [normalizeURL] reads of a parsed URL, up to the case of its path. *)
Definition loweredOf (u : Url.t) : string * list string :=
  (Url.host u, List.map Str.toLowerCase (Url.path u)).

Local Open Scope Z_scope.

(** A comparison function that is consistent, as [sort] expects it, but may
    find two different values alike. *)
Record consistentCompare {A : Type} (compareFn : A -> A -> Z) : Prop := {
  consistent_antisym : forall x y, compareFn x y < 0 <-> 0 < compareFn y x;
  consistent_trans : forall x y z,
    compareFn x y <= 0 -> compareFn y z <= 0 -> compareFn x z <= 0
}.

(** The collation finds no two different keys of the table alike. *)
Definition tellsApart (localeCompare : string -> string -> Z)
    (pages : gmap string nat) : Prop :=
  forall a b,
    is_Some (pages !! a) -> is_Some (pages !! b) ->
    localeCompare a b = 0 -> a = b.

(** The order of the report: more links first, and among pages with as many
    links the key that collates first. *)
Definition reportOrder (localeCompare : string -> string -> Z)
    (x y : string * nat) : Prop :=
  (snd y < snd x)%nat \/
  (snd x = snd y /\ localeCompare (fst x) (fst y) < 0).

Local Open Scope nat_scope.

Section RunNotions.

Variable fetch : string -> fetched.
Variable anchorHrefs : string -> list string.

(** What a run from [st] to [st'] over the URLs [urls] does: it adds
    events; for a key the table writes, it counts each visit once and
    fetches when it first counts; the key [__proto__], when the table does
    not own it, stays out of the table and is fetched at each visit; the
    run keeps the keys, writes positive counts only, and every key comes
    from a visit. *)
Definition summary (baseURL : string) (urls : list string)
    (st st' : gmap string nat * list event) : Prop :=
  exists new,
    snd st' = snd st ++ new /\
    (forall k, writable (fst st) k ->
               fst st' !!! k =
               fst st !!! k
               + hits baseURL k (urls ++ discovered fetch anchorHrefs baseURL new)) /\
    (forall k, writable (fst st) k ->
               fetches k new =
               if (fst st !!! k =? 0) && (0 <? fst st' !!! k) then 1 else 0) /\
    (fst st !! "__proto__" = None ->
     fst st' !! "__proto__" = None /\
     fetches "__proto__" new =
     hits baseURL "__proto__"
       (urls ++ discovered fetch anchorHrefs baseURL new)) /\
    (forall k, is_Some (fst st !! k) -> is_Some (fst st' !! k)) /\
    (forall k n, fst st' !! k = Some n -> 0 < n \/ fst st !! k = Some n) /\
    (forall k, is_Some (fst st' !! k) ->
               is_Some (fst st !! k) \/
               0 < hits baseURL k (urls ++ discovered fetch anchorHrefs baseURL new)).

(** A link of the site is one that parses and, when it is on the seed's
    host, has its key among [keys]. *)
Definition known (baseURL : string) (keys : gset string) (url : string) : Prop :=
  is_Some (Url.URL_new url) /\
  (onsite baseURL url = true -> forall k, normalizeURL url = Ok k -> k ∈ keys).

End RunNotions.

(** ** Notions of the further properties *)

(** A character other than the backslash. *)
Definition noBackslash (c : ascii) : bool := negb (Chr.code c =? 92)%N.

(** A character a path segment keeps as it is. *)
Definition segmentChar (c : ascii) : bool :=
  negb (Url.path_set c) && negb (Url.is_slash c) && noBackslash c.

(** A segment the path state leaves as it is. *)
Definition canonicalSegment (seg : string) : bool :=
  Str.forallb segmentChar seg
  && negb (Url.is_single_dot seg) && negb (Url.is_double_dot seg).

(** The URLs the parser returns are in the form [href] writes: parsing the
    [href] of one gives it back. *)
Definition canonical (u : Url.t) : Prop :=
  is_Some (Url.default_port (Url.scheme u)) /\
  Url.parse_host (Url.host u) = Some (Url.host u) /\
  (forall p, Url.port u = Some p ->
             (p <= 65535)%N /\ Url.default_port (Url.scheme u) <> Some p) /\
  Url.path u <> [] /\
  Forall (fun seg => canonicalSegment seg = true) (Url.path u) /\
  (forall q, Url.query u = Some q ->
             Str.forallb (fun c => negb (Url.special_query_set c)) q = true) /\
  (forall f, Url.fragment u = Some f ->
             Str.forallb (fun c => negb (Url.fragment_set c)) f = true).

(** A character that a key can hold: no upper-case letter, no blank or
    control character, none of [?], [#] and the backslash. *)
Definition keyChar (c : ascii) : bool :=
  visibleChar c && negb (Chr.is_upper c)
  && negb (Url.is_question c) && negb (Url.is_hash c) && noBackslash c.

(** The requests that add no key to the table: those for the key
    [__proto__], when the table does not own it. *)
Definition unrecorded (pages : gmap string nat) (new : list event) : nat :=
  match pages !! "__proto__" with
  | Some _ => 0
  | None => fetches "__proto__" new
  end.

(** A call that returns makes as many requests as it adds keys to a table
    of positive counts, the requests for [__proto__] apart, and leaves the
    counts positive. *)
Definition oneEach (st st' : gmap string nat * list event) : Prop :=
  positiveCounts (fst st) ->
  positiveCounts (fst st') /\
  exists new,
    snd st' = snd st ++ new /\
    size (fst st') + unrecorded (fst st) new = size (fst st) + requests new.

Section RequestNotions.

Variable fetch : string -> fetched.
Variable anchorHrefs : string -> list string.

(** What the requests of a run over [urls] are: each is announced, goes to
    the seed's host, and is for one of [urls] or for a link discovered in
    the run. *)
Definition inScope (baseURL : string) (urls : list string)
    (st st' : gmap string nat * list event) : Prop :=
  exists new,
    snd st' = snd st ++ new /\
    announced new = true /\
    forall url, In (Fetch url) new ->
      onsite baseURL url = true /\
      In url (urls ++ discovered fetch anchorHrefs baseURL new).

(** The visits that are not counted: those of the key [__proto__], when
    the table does not own it. *)
Definition uncounted (baseURL : string) (pages : gmap string nat)
    (urls : list string) : nat :=
  match pages !! "__proto__" with
  | Some _ => 0
  | None => hits baseURL "__proto__" urls
  end.

(** The sum of the counts grows by the number of URLs on the seed's host
    that the run went through, the visits of [__proto__] apart. *)
Definition allCounted (baseURL : string) (urls : list string)
    (st st' : gmap string nat * list event) : Prop :=
  exists new,
    snd st' = snd st ++ new /\
    totalCount (fst st')
    + uncounted baseURL (fst st)
        (urls ++ discovered fetch anchorHrefs baseURL new) =
    totalCount (fst st)
    + count (onsite baseURL) (urls ++ discovered fetch anchorHrefs baseURL new).

End RequestNotions.

Local Open Scope Z_scope.

(** The order of the report under a collation that may find two different
    keys alike: more links first, and
    among pages with as many links no key after one that collates before
    it. *)
Definition reportOrderUpTo (localeCompare : string -> string -> Z)
    (x y : string * nat) : Prop :=
  (snd y < snd x)%nat \/
  (snd x = snd y /\ localeCompare (fst x) (fst y) <= 0).

Local Open Scope nat_scope.

(** * Proofs *)

(** Facts on characters are settled by going through the 256 of them. *)
Ltac each_char c :=
  destruct c as [[] [] [] [] [] [] [] []]; vm_compute; intros;
  solve [reflexivity | discriminate | congruence | auto].

(** ** Strings *)

Module StrFacts.

Lemma append_cons c s t : String c s +:+ t = String c (s +:+ t).
Proof. reflexivity. Qed.

Lemma append_nil_l s : "" +:+ s = s.
Proof. reflexivity. Qed.

Lemma append_nil_r s : s +:+ "" = s.
Proof. induction s as [|c s IH]; [reflexivity | rewrite append_cons, IH; reflexivity]. Qed.

Lemma append_assoc s t u : (s +:+ t) +:+ u = s +:+ (t +:+ u).
Proof. induction s as [|c s IH]; [reflexivity | rewrite !append_cons, IH; reflexivity]. Qed.

Lemma forallb_append p s t :
  Str.forallb p (s +:+ t) = Str.forallb p s && Str.forallb p t.
Proof.
  induction s as [|c s IH]; [reflexivity|].
  rewrite append_cons. cbn. rewrite IH, andb_assoc. reflexivity.
Qed.

Lemma forallb_impl (p q : ascii -> bool) s :
  (forall c, p c = true -> q c = true) ->
  Str.forallb p s = true -> Str.forallb q s = true.
Proof.
  intros Hpq. induction s as [|c s IH]; cbn; [reflexivity|].
  rewrite !andb_true_iff. intros [? ?]. auto.
Qed.

Lemma map_append f s t : Str.map f (s +:+ t) = Str.map f s +:+ Str.map f t.
Proof.
  induction s as [|c s IH]; [reflexivity|].
  rewrite append_cons. cbn. rewrite IH. reflexivity.
Qed.

Lemma map_id_on (p : ascii -> bool) f s :
  (forall c, p c = true -> f c = c) ->
  Str.forallb p s = true -> Str.map f s = s.
Proof.
  intros Hf. induction s as [|c s IH]; cbn; [reflexivity|].
  rewrite andb_true_iff. intros [Hc Hs]. rewrite Hf, IH by assumption. reflexivity.
Qed.

Lemma existsb_false_on (p q : ascii -> bool) s :
  (forall c, p c = true -> q c = false) ->
  Str.forallb p s = true -> Str.existsb q s = false.
Proof.
  intros Hpq. induction s as [|c s IH]; cbn; [reflexivity|].
  rewrite andb_true_iff. intros [Hc Hs]. rewrite Hpq, IH by assumption. reflexivity.
Qed.

(** [break] on a string whose first part has no separator and whose second
    part starts with one, or is empty. *)
Lemma break_app (p q : ascii -> bool) a b :
  (forall c, p c = true -> q c = false) ->
  Str.forallb p a = true -> startsWithChar q b = true ->
  Str.break q (a +:+ b) = (a, b).
Proof.
  intros Hpq. induction a as [|c a IH]; intros Ha Hb.
  - rewrite append_nil_l. destruct b as [|c b]; [reflexivity|]. cbn in *. rewrite Hb. reflexivity.
  - cbn in Ha. apply andb_true_iff in Ha as [Hc Ha].
    rewrite append_cons. cbn. rewrite (Hpq c Hc), IH by assumption. reflexivity.
Qed.

Lemma dropWhile_keep p s : startsWithChar (fun c => negb (p c)) s = true ->
  Str.dropWhile p s = s.
Proof.
  destruct s as [|c s]; cbn; [reflexivity|]. intros H.
  apply negb_true_iff in H. rewrite H. reflexivity.
Qed.

Lemma dropWhileEnd_keep (p q : ascii -> bool) s :
  (forall c, p c = true -> q c = false) ->
  Str.forallb p s = true -> Str.dropWhileEnd q s = s.
Proof.
  intros Hpq. induction s as [|c s IH]; cbn; [reflexivity|].
  rewrite andb_true_iff. intros [Hc Hs].
  rewrite IH, (Hpq c Hc) by assumption. destruct s; reflexivity.
Qed.

Lemma filter_keep (p q : ascii -> bool) s :
  (forall c, p c = true -> q c = true) ->
  Str.forallb p s = true -> Str.filter q s = s.
Proof.
  intros Hpq. induction s as [|c s IH]; cbn; [reflexivity|].
  rewrite andb_true_iff. intros [Hc Hs].
  rewrite IH, (Hpq c Hc) by assumption. reflexivity.
Qed.

End StrFacts.

Module UrlFacts.
Import StrFacts.

Lemma visible_append s t : visible (s +:+ t) = visible s && visible t.
Proof. apply forallb_append. Qed.

Lemma preprocess_visible s : visible s = true -> Url.preprocess s = s.
Proof.
  intros H. unfold Url.preprocess.
  rewrite dropWhile_keep.
  - rewrite (dropWhileEnd_keep visibleChar) by (auto; intros c; each_char c).
    apply (filter_keep visibleChar); [|exact H]. intros c; each_char c.
  - destruct s as [|c s]; [reflexivity|]. cbn in *.
    apply andb_true_iff in H as [H _]. revert H. each_char c.
Qed.

Lemma percent_encode_visible set s :
  (forall c, set c = false -> visibleChar c = true) ->
  visible (Url.percent_encode set s) = true.
Proof.
  intros Hset. unfold visible. induction s as [|c s IH]; [reflexivity|].
  cbn. destruct (set c) eqn:E.
  - cbn. rewrite IH.
    assert (visibleChar (Chr.hex_digit (Chr.code c / 16)) = true) as -> by each_char c.
    assert (visibleChar (Chr.hex_digit (Chr.code c mod 16)) = true) as -> by each_char c.
    reflexivity.
  - cbn. rewrite IH, Hset by assumption. reflexivity.
Qed.

Lemma toLowerCase_idem s : Str.toLowerCase (Str.toLowerCase s) = Str.toLowerCase s.
Proof.
  unfold Str.toLowerCase. induction s as [|c s IH]; cbn; [reflexivity|].
  rewrite IH. f_equal. each_char c.
Qed.

Lemma parse_host_idem h h' : Url.parse_host h = Some h' -> Url.parse_host h' = Some h'.
Proof.
  unfold Url.parse_host. intros H.
  destruct (String.eqb (Str.toLowerCase h) "") eqn:E1; [discriminate|].
  destruct (negb (Str.forallb Url.host_char_ok (Str.toLowerCase h))) eqn:E2; [discriminate|].
  destruct (Url.ends_in_number (Str.toLowerCase h)) eqn:E3; [discriminate|].
  destruct (Url.has_punycode_label (Str.toLowerCase h)) eqn:E4; [discriminate|].
  injection H as <-. rewrite toLowerCase_idem, E1, E2, E3, E4. reflexivity.
Qed.

Lemma parse_port_bound dflt p n :
  Url.parse_port dflt p = Some (Some n) -> (n <= 65535)%N.
Proof.
  unfold Url.parse_port.
  destruct (negb _); [discriminate|]. destruct (String.eqb p ""); [discriminate|].
  destruct (65535 <? Url.decimal_value 0 p)%N eqn:E; [discriminate|].
  apply N.ltb_ge in E. destruct (_ =? dflt)%N; [discriminate|].
  intros [= <-]. exact E.
Qed.

Lemma parse_authority_ok dflt a h po :
  Url.parse_authority dflt a = Some (h, po) ->
  Url.parse_host h = Some h /\ (forall n, po = Some n -> (n <= 65535)%N).
Proof.
  unfold Url.parse_authority. destruct (Str.existsb Url.is_at a); [discriminate|].
  destruct (Str.break Url.is_colon a) as [h0 rest].
  destruct (Url.parse_host h0) as [h1|] eqn:Eh; [|discriminate].
  destruct (Url.after_delimiter rest) as [p|].
  - destruct (Url.parse_port dflt p) as [po'|] eqn:Ep; [|discriminate].
    intros [= <- <-]. split; [eapply parse_host_idem; eauto|].
    intros n ->. eapply parse_port_bound; eauto.
  - intros [= <- <-]. split; [eapply parse_host_idem; eauto | discriminate].
Qed.

Lemma Forall_removelast {A} (P : A -> Prop) l : Forall P l -> Forall P (removelast l).
Proof.
  induction 1 as [|x l Hx Hl IH]; cbn; [constructor|].
  destruct l; [constructor | constructor; assumption].
Qed.

Lemma path_segments_visible segs : forall acc,
  Forall (fun seg => visible seg = true) acc ->
  Forall (fun seg => visible seg = true) (Url.path_segments acc segs).
Proof.
  induction segs as [|seg more IH]; intros acc Hacc; cbn; [exact Hacc|].
  assert (Hclose : Forall (fun seg => visible seg = true)
                     (if Url.is_nil more then [EmptyString] else [])).
  { destruct (Url.is_nil more); repeat constructor. }
  destruct (Url.is_double_dot _).
  { apply IH, Forall_app. split; [apply Forall_removelast; assumption | assumption]. }
  destruct (Url.is_single_dot _).
  { apply IH, Forall_app. split; assumption. }
  apply IH, Forall_app. split; [assumption|]. repeat constructor.
  apply percent_encode_visible. intros c; each_char c.
Qed.

Lemma encode_query_visible q s : Url.encode_query q = Some s -> visible s = true.
Proof.
  destruct q; [|discriminate]. intros [= <-].
  apply percent_encode_visible. intros c; each_char c.
Qed.

Lemma encode_fragment_visible f s : Url.encode_fragment f = Some s -> visible s = true.
Proof.
  destruct f; [|discriminate]. intros [= <-].
  apply percent_encode_visible. intros c; each_char c.
Qed.

Lemma with_authority_wf sch dflt front q f u :
  is_Some (Url.default_port sch) ->
  Url.with_authority sch dflt front q f = Some u -> wellFormed u.
Proof.
  intros Hs. unfold Url.with_authority.
  destruct (Str.break Url.is_slash _) as [auth pathpart].
  destruct (Url.parse_authority dflt auth) as [[h po]|] eqn:Ea; [|discriminate].
  intros [= <-]. apply parse_authority_ok in Ea as [Hh Hp].
  repeat split; cbn; auto.
  - apply path_segments_visible. constructor.
  - apply encode_query_visible.
  - apply encode_fragment_visible.
Qed.

Lemma URL_new_wf s u : Url.URL_new s = Some u -> wellFormed u.
Proof.
  unfold Url.URL_new.
  destruct (Url.parse_scheme _) as [[sch rest]|]; [|discriminate].
  destruct (Url.default_port sch) as [dflt|] eqn:Ed; [|discriminate].
  destruct (Url.split_query_fragment rest) as [[front q] f].
  apply with_authority_wf. rewrite Ed. eauto.
Qed.

Lemma resolve_wf b s u : wellFormed b -> Url.resolve b s = Some u -> wellFormed u.
Proof.
  intros (Hs & Hh & Hp & Hpath & Hq & Hf). unfold Url.resolve.
  destruct (Url.split_query_fragment s) as [[front q] f].
  destruct (Str.startsWith "//" _).
  { destruct (Url.default_port (Url.scheme b)) eqn:Ed; [|discriminate].
    apply with_authority_wf. rewrite Ed. eauto. }
  destruct (Str.startsWith "/" _).
  { intros [= <-]. repeat split; cbn; auto.
    - apply path_segments_visible. constructor.
    - apply encode_query_visible.
    - apply encode_fragment_visible. }
  destruct (String.eqb _ "").
  { intros [= <-]. repeat split; cbn; auto.
    - destruct q; [apply encode_query_visible | assumption].
    - apply encode_fragment_visible. }
  intros [= <-]. repeat split; cbn; auto.
  - apply path_segments_visible, Forall_removelast. assumption.
  - apply encode_query_visible.
  - apply encode_fragment_visible.
Qed.

Lemma URL_new_base_wf s base u : Url.URL_new_base s base = Some u -> wellFormed u.
Proof.
  unfold Url.URL_new_base.
  destruct (Url.URL_new base) as [b|] eqn:Eb; [|discriminate].
  apply URL_new_wf in Eb.
  destruct (Url.parse_scheme _) as [[sch rest]|]; [|apply resolve_wf; assumption].
  destruct (String.eqb sch (Url.scheme b)); [apply resolve_wf; assumption|].
  destruct (Url.default_port sch) as [dflt|] eqn:Ed; [|discriminate].
  destruct (Url.split_query_fragment rest) as [[front q] f].
  apply with_authority_wf. rewrite Ed. eauto.
Qed.

Lemma break_prefix (p q : ascii -> bool) a t :
  (forall c, p c = true -> q c = false) ->
  Str.forallb p a = true ->
  Str.break q (a +:+ t) = (a +:+ fst (Str.break q t), snd (Str.break q t)).
Proof.
  intros Hpq. induction a as [|c a IH]; intros Ha.
  - rewrite !append_nil_l. destruct (Str.break q t); reflexivity.
  - cbn in Ha. apply andb_true_iff in Ha as [Hc Ha].
    rewrite !append_cons. cbn. rewrite (Hpq c Hc), IH by assumption. reflexivity.
Qed.

(** The part before the query and fragment, behind a prefix without [?]
    and [#]. *)
Lemma split_front_prefix a t :
  Str.forallb plain a = true ->
  fst (fst (Url.split_query_fragment (a +:+ t))) =
  a +:+ fst (fst (Url.split_query_fragment t)).
Proof.
  intros Ha. unfold Url.split_query_fragment.
  rewrite (break_prefix plain Url.is_hash) by (auto; intros c; each_char c).
  destruct (Str.break Url.is_hash t) as [bh h]. cbn [fst snd].
  rewrite (break_prefix plain Url.is_question) by (auto; intros c; each_char c).
  destruct (Str.break Url.is_question bh) as [fr q]. reflexivity.
Qed.

Lemma split_front_tail u :
  startsWithChar Url.is_slash
    (fst (fst (Url.split_query_fragment
       (Url.pathname u
        +:+ match Url.query u with Some q => String "?" q | None => "" end
        +:+ match Url.fragment u with Some f => String "#" f | None => "" end))))
  = true.
Proof.
  unfold Url.pathname. destruct (Url.path u) as [|seg segs]; cbn [List.map Str.concat].
  - rewrite append_nil_l. destruct (Url.query u) as [q|].
    + rewrite append_cons. unfold Url.split_query_fragment. cbn.
      destruct (Str.break Url.is_hash _) as [bh h]. reflexivity.
    + rewrite append_nil_l. destruct (Url.fragment u); reflexivity.
  - rewrite !append_cons. unfold Url.split_query_fragment. cbn.
    destruct (Str.break Url.is_hash _) as [bh h]. cbn.
    destruct (Str.break Url.is_question bh) as [fr q]. reflexivity.
Qed.

Lemma default_port_cases sch :
  is_Some (Url.default_port sch) ->
  sch = "http" \/ sch = "https" \/ sch = "ws" \/ sch = "wss" \/ sch = "ftp".
Proof.
  unfold Url.default_port. intros [d H].
  repeat match type of H with
  | (if String.eqb ?a ?b then _ else _) = _ =>
      destruct (String.eqb_spec a b); [subst; tauto|]
  end. discriminate.
Qed.

Lemma parse_scheme_known sch rest :
  is_Some (Url.default_port sch) ->
  Url.parse_scheme (sch +:+ String ":" rest) = Some (sch, rest).
Proof.
  intros H. destruct (default_port_cases sch H) as [->|[->|[->|[->| ->]]]];
    reflexivity.
Qed.

Lemma digit_char d :
  (d < 10)%N ->
  Chr.is_digit (ascii_of_N (48 + d)) = true /\
  Url.digit_value (ascii_of_N (48 + d)) = d.
Proof.
  intros Hd. unfold Chr.is_digit, Chr.in_range, Url.digit_value, Chr.code.
  rewrite N_ascii_embedding by lia. split; [|lia].
  apply andb_true_iff. split; apply N.leb_le; lia.
Qed.

Lemma decimal_digits_value fuel : forall n acc,
  (n < 10 ^ N.of_nat fuel)%N ->
  Url.decimal_value 0 (Url.decimal_digits fuel n acc) = Url.decimal_value n acc.
Proof.
  induction fuel as [|fuel IH]; intros n acc Hn.
  - cbn in *. assert (n = 0%N) as -> by lia. reflexivity.
  - rewrite Nat2N.inj_succ, N.pow_succ_r' in Hn.
    assert (Hd : (n mod 10 < 10)%N) by (apply N.mod_lt; lia).
    destruct (digit_char _ Hd) as [_ Hv].
    cbn [Url.decimal_digits]. destruct (n <? 10)%N eqn:E.
    + apply N.ltb_lt in E. cbn [Url.decimal_value]. rewrite Hv.
      rewrite N.mod_small by lia. f_equal.
    + rewrite IH by (apply N.Div0.div_lt_upper_bound; lia).
      cbn [Url.decimal_value]. rewrite Hv. f_equal.
      rewrite (N.div_mod n 10) at 3 by lia. reflexivity.
Qed.

Lemma decimal_digits_digits fuel : forall n acc,
  Str.forallb Chr.is_digit acc = true ->
  Str.forallb Chr.is_digit (Url.decimal_digits fuel n acc) = true.
Proof.
  induction fuel as [|fuel IH]; intros n acc Hacc; [exact Hacc|].
  assert (Hd : (n mod 10 < 10)%N) by (apply N.mod_lt; lia).
  destruct (digit_char _ Hd) as [Hc _].
  cbn [Url.decimal_digits]. destruct (n <? 10)%N.
  - cbn. rewrite Hc, Hacc. reflexivity.
  - apply IH. cbn. rewrite Hc, Hacc. reflexivity.
Qed.

Lemma decimal_digits_nonempty fuel : forall n acc,
  acc <> "" -> Url.decimal_digits fuel n acc <> "".
Proof.
  induction fuel as [|fuel IH]; intros n acc Hacc; [exact Hacc|].
  cbn [Url.decimal_digits]. destruct (n <? 10)%N; [discriminate|].
  apply IH. discriminate.
Qed.

Lemma parse_port_decimal dflt n :
  (n <= 65535)%N -> is_Some (Url.parse_port dflt (Url.decimal n)).
Proof.
  intros Hn. unfold Url.parse_port, Url.decimal.
  rewrite decimal_digits_digits by reflexivity. cbn [negb].
  destruct (String.eqb_spec (Url.decimal_digits 5 n "") "") as [E|_].
  { exfalso. revert E. change 5 with (S 4). generalize 4. intros f.
    cbn [Url.decimal_digits]. destruct (n <? 10)%N; [discriminate|].
    apply decimal_digits_nonempty. discriminate. }
  rewrite decimal_digits_value by (cbn; lia). cbn [Url.decimal_value].
  destruct (65535 <? n)%N eqn:E; [apply N.ltb_lt in E; lia|]. eauto.
Qed.

Lemma parse_host_fixed h :
  Url.parse_host h = Some h ->
  Str.forallb Url.host_char_ok h = true /\ h <> "".
Proof.
  unfold Url.parse_host. intros H.
  destruct (String.eqb_spec (Str.toLowerCase h) ""); [discriminate|].
  destruct (Str.forallb Url.host_char_ok (Str.toLowerCase h)) eqn:E2; [|discriminate].
  destruct (Url.ends_in_number _); [discriminate|].
  destruct (Url.has_punycode_label _); [discriminate|].
  injection H as H. rewrite H in *. auto.
Qed.

Lemma portText_digits u :
  wellFormed u ->
  portText u = "" \/
  exists p, portText u = String ":" (Url.decimal p) /\ (p <= 65535)%N /\
            Str.forallb Chr.is_digit (Url.decimal p) = true.
Proof.
  intros (_ & _ & Hp & _). unfold portText. destruct (Url.port u) as [p|]; [right|left; reflexivity].
  exists p. split; [reflexivity|]. split; [auto|].
  apply decimal_digits_digits. reflexivity.
Qed.

Lemma authority_chars u :
  wellFormed u -> Str.forallb authorityChar (Url.host u +:+ portText u) = true.
Proof.
  intros Hwf. pose proof Hwf as (_ & Hh & _).
  apply parse_host_fixed in Hh as [Hh _].
  rewrite forallb_append. apply andb_true_iff. split.
  - eapply forallb_impl; [|exact Hh]. intros c Hc. unfold authorityChar. rewrite Hc. reflexivity.
  - destruct (portText_digits u Hwf) as [->|(p & -> & _ & Hd)]; [reflexivity|].
    cbn. eapply forallb_impl; [|exact Hd]. intros c Hc. unfold authorityChar.
    rewrite Hc, orb_true_r. reflexivity.
Qed.

Lemma parse_authority_href dflt u :
  wellFormed u -> is_Some (Url.parse_authority dflt (Url.host u +:+ portText u)).
Proof.
  intros Hwf. pose proof Hwf as (_ & Hh & _).
  pose proof (parse_host_fixed _ Hh) as [Hok Hne].
  unfold Url.parse_authority.
  rewrite (existsb_false_on authorityChar)
    by (auto using authority_chars; intros c; each_char c).
  rewrite (break_app Url.host_char_ok Url.is_colon); [| intros c; each_char c | exact Hok |].
  - rewrite Hh. destruct (portText_digits u Hwf) as [->|(p & -> & Hp & _)];
      cbn [Url.after_delimiter]; [eauto|].
    destruct (parse_port_decimal dflt p Hp) as [po ->]. eauto.
  - destruct (portText_digits u Hwf) as [->|(p & -> & _)]; reflexivity.
Qed.

Lemma with_authority_href sch dflt u t q f :
  wellFormed u -> startsWithChar Url.is_slash t = true ->
  is_Some (Url.with_authority sch dflt
             (Str.map Url.backslash_to_slash ("//" +:+ (Url.host u +:+ portText u) +:+ t))
             q f).
Proof.
  intros Hwf Ht. pose proof Hwf as (_ & Hh & _).
  pose proof (parse_host_fixed _ Hh) as [Hok Hne].
  pose proof (authority_chars u Hwf) as Hauth.
  unfold Url.with_authority.
  do 2 rewrite map_append.
  rewrite (map_id_on authorityChar _ (Url.host u +:+ portText u))
    by (auto; intros c; each_char c).
  change (Str.map Url.backslash_to_slash "//") with "//".
  change ("//" +:+ ?x) with (String "/" (String "/" x)).
  cbn [Str.dropWhile]. change (Url.is_slash "/") with true. cbn iota.
  rewrite dropWhile_keep.
  2:{ destruct (Url.host u) as [|c h]; [congruence|]. rewrite !append_cons. cbn in *.
      apply andb_true_iff in Hok as [Hc _]. revert Hc. each_char c. }
  rewrite (break_app authorityChar Url.is_slash); [| intros c; each_char c | exact Hauth |].
  - destruct (parse_authority_href dflt u Hwf) as [[h po] ->]. eauto.
  - destruct t as [|c t]; [reflexivity|]. cbn in *. revert Ht. each_char c.
Qed.

Lemma pathname_visible u : wellFormed u -> visible (Url.pathname u) = true.
Proof.
  intros (_ & _ & _ & Hpath & _). unfold Url.pathname.
  induction Hpath as [|seg segs Hseg _ IH]; [reflexivity|].
  cbn [List.map Str.concat]. rewrite visible_append, IH, andb_true_r. exact Hseg.
Qed.

Lemma href_visible u : wellFormed u -> visible (Url.href u) = true.
Proof.
  intros Hwf. pose proof Hwf as (Hs & Hh & Hp & Hpath & Hq & Hf).
  pose proof (parse_host_fixed _ Hh) as [Hok _].
  assert (H1 : visible (Url.scheme u) = true).
  { destruct (default_port_cases _ Hs) as [->|[->|[->|[->| ->]]]]; reflexivity. }
  assert (H2 : visible (Url.host u) = true).
  { eapply forallb_impl; [|exact Hok]. intros c; each_char c. }
  assert (H3 : visible (portText u) = true).
  { destruct (portText_digits u Hwf) as [->|(p & -> & _ & Hd)]; [reflexivity|].
    change (visible (String ":" ?x)) with (visible x).
    eapply forallb_impl; [|exact Hd]. intros c; each_char c. }
  assert (H4 : visible (match Url.query u with Some q => String "?" q | None => "" end) = true).
  { destruct (Url.query u) as [q|]; [|reflexivity]. apply (Hq q eq_refl). }
  assert (H5 : visible (match Url.fragment u with Some f => String "#" f | None => "" end) = true).
  { destruct (Url.fragment u) as [f|]; [|reflexivity]. apply (Hf f eq_refl). }
  unfold Url.href. fold (portText u).
  rewrite !visible_append, H1, H2, H3, H4, H5, (pathname_visible u Hwf). reflexivity.
Qed.

(** The [href] of a parsed URL parses. *)
Lemma URL_new_href u : wellFormed u -> is_Some (Url.URL_new (Url.href u)).
Proof.
  intros Hwf. pose proof Hwf as (Hs & Hh & _).
  unfold Url.URL_new. rewrite preprocess_visible by (apply href_visible; exact Hwf).
  unfold Url.href.
  change ("://" +:+ ?x) with (String ":" ("//" +:+ x)).
  rewrite parse_scheme_known by exact Hs.
  destruct Hs as [dflt ->].
  fold (portText u). rewrite <- (append_assoc (Url.host u)).
  set (tail := Url.pathname u +:+ _).
  destruct (Url.split_query_fragment ("//" +:+ (Url.host u +:+ portText u) +:+ tail))
    as [[front q] f] eqn:E.
  assert (Hfront : front = "//" +:+ (Url.host u +:+ portText u)
                           +:+ fst (fst (Url.split_query_fragment tail))).
  { change front with (fst (fst (front, q, f))). rewrite <- E.
    rewrite <- (append_assoc "//" (Url.host u +:+ portText u) tail).
    rewrite split_front_prefix; [apply append_assoc|].
    rewrite forallb_append. apply andb_true_iff. split; [reflexivity|].
    eapply forallb_impl; [|exact (authority_chars u Hwf)]. intros c; each_char c. }
  rewrite Hfront. apply with_authority_href; [exact Hwf|].
  apply split_front_tail.
Qed.

(** *** What the constructor rejects, the parser does not parse *)

Lemma host_missing_fails sch dflt front q f :
  Url.host_missing front = true -> Url.with_authority sch dflt front q f = None.
Proof.
  unfold Url.host_missing, Url.with_authority.
  destruct (Str.break Url.is_slash _) as [auth pathpart].
  intros [Hat Hhost]%andb_true_iff. apply negb_true_iff in Hat.
  apply String.eqb_eq in Hhost.
  unfold Url.parse_authority. rewrite Hat.
  destruct (Str.break Url.is_colon auth) as [h rest]. cbn in Hhost. subst h.
  reflexivity.
Qed.

Lemma rejects_sound input : Url.rejects input = true -> Url.URL_new input = None.
Proof.
  unfold Url.rejects, Url.URL_new.
  destruct (Url.parse_scheme _) as [[sch rest]|]; [|reflexivity].
  destruct (Url.default_port sch) as [dflt|]; [|reflexivity].
  destruct (Url.split_query_fragment rest) as [[front q] f].
  apply host_missing_fails.
Qed.

Lemma rejects_reference_sound b s :
  Url.rejects_reference s = true -> Url.resolve b s = None.
Proof.
  unfold Url.rejects_reference, Url.resolve.
  destruct (Url.split_query_fragment s) as [[front q] f].
  intros [-> Hhost]%andb_true_iff.
  destruct (Url.default_port (Url.scheme b)); [|reflexivity].
  apply host_missing_fails. exact Hhost.
Qed.

Lemma rejects_base_sound input base :
  Url.rejects_base input base = true -> Url.URL_new_base input base = None.
Proof.
  unfold Url.rejects_base, Url.URL_new_base.
  destruct (Url.URL_new base) as [b|]; [|reflexivity].
  destruct (Url.parse_scheme _) as [[sch rest]|]; [|apply rejects_reference_sound].
  destruct (String.eqb sch (Url.scheme b)); [apply rejects_reference_sound|].
  destruct (Url.default_port sch) as [dflt|]; [|reflexivity].
  destruct (Url.split_query_fragment rest) as [[front q] f].
  apply host_missing_fails.
Qed.

(** *** The calls of the constructor *)

Lemma newURL_Ok input u : newURL input = Ok u <-> Url.URL_new input = Some u.
Proof.
  unfold newURL. destruct (Url.URL_new input) as [v|].
  - split; congruence.
  - destruct (Url.rejects input); split; discriminate.
Qed.

Lemma newURL_rejected input :
  Url.rejects input = true -> newURL input = Throw InvalidURL.
Proof.
  intros H. unfold newURL. rewrite (rejects_sound _ H), H. reflexivity.
Qed.

Lemma newURL_base_Ok input base u :
  newURL_base input base = Ok u <-> Url.URL_new_base input base = Some u.
Proof.
  unfold newURL_base. destruct (Url.URL_new_base input base) as [v|].
  - split; congruence.
  - destruct (Url.rejects_base input base); split; discriminate.
Qed.

(** An anchor gives a link and no line, or no link and one line. *)
Lemma resolveAnchor_Ok baseURL href r :
  resolveAnchor baseURL href = Ok r ->
  (exists u, Url.URL_new_base href baseURL = Some u /\ r = (Some (Url.href u), [])) \/
  (Url.rejects_base href baseURL = true /\
   r = (None, [Log ("Invalid URL: " +:+ href)])).
Proof.
  unfold resolveAnchor, newURL_base.
  destruct (Url.URL_new_base href baseURL) as [u|].
  - intros [= <-]. left. eauto.
  - destruct (Url.rejects_base href baseURL); [|discriminate].
    intros [= <-]. right. auto.
Qed.

Lemma Array_map_Ok {A B : Type} (callback : A -> result B) arr ys :
  Array_map callback arr = Ok ys -> Forall2 (fun x y => callback x = Ok y) arr ys.
Proof.
  revert ys. induction arr as [|x arr IH]; intros ys; cbn.
  - intros [= <-]. constructor.
  - destruct (callback x) as [y| | |] eqn:E; cbn; try discriminate.
    destruct (Array_map callback arr) as [ys'| | |]; cbn; try discriminate.
    intros [= <-]. constructor; auto.
Qed.

Lemma getURLsFromHTML_Ok anchorHrefs html baseURL links lines :
  getURLsFromHTML anchorHrefs html baseURL = Ok (links, lines) ->
  exists mapped,
    Forall2 (fun href r => resolveAnchor baseURL href = Ok r)
      (anchorHrefs html) mapped /\
    links = omap fst mapped /\
    lines = List.concat (List.map snd mapped).
Proof.
  unfold getURLsFromHTML.
  destruct (Array_map _ _) as [mapped| | |] eqn:E; cbn; try discriminate.
  intros [= <- <-]. exists mapped. split; [apply Array_map_Ok; exact E | auto].
Qed.

(** Every link [getURLsFromHTML] returns is the [href] of what the
    constructor made of an anchor. *)
Lemma links_from anchorHrefs html baseURL links lines link :
  getURLsFromHTML anchorHrefs html baseURL = Ok (links, lines) ->
  In link links ->
  exists href u,
    In href (anchorHrefs html) /\
    Url.URL_new_base href baseURL = Some u /\ link = Url.href u.
Proof.
  intros (mapped & Hall & -> & _)%getURLsFromHTML_Ok.
  induction Hall as [|href r hrefs mapped Hr _ IH]; cbn; [tauto|].
  apply resolveAnchor_Ok in Hr as [(u & Hu & ->)|(_ & ->)]; cbn.
  - intros [<-|Hin].
    + exists href, u. auto.
    + destruct (IH Hin) as (href' & u' & ? & ? & ?). exists href', u'. auto.
  - intros Hin. destruct (IH Hin) as (href' & u' & ? & ? & ?).
    exists href', u'. auto.
Qed.

(** Every link [getURLsFromHTML] returns parses. *)
Lemma links_parse anchorHrefs html baseURL links lines link :
  getURLsFromHTML anchorHrefs html baseURL = Ok (links, lines) ->
  In link links ->
  is_Some (Url.URL_new link).
Proof.
  intros Hg Hin. destruct (links_from _ _ _ _ _ _ Hg Hin) as (href & u & _ & Hu & ->).
  apply URL_new_href. eapply URL_new_base_wf; eauto.
Qed.

End UrlFacts.

(** ** Keys *)

Module KeyFacts.
Import StrFacts UrlFacts.

Lemma normalizeURL_keyOf url :
  normalizeURL url =
  match Url.URL_new url with
  | Some u => Ok (keyOf (Url.hostname u) (Url.pathname u))
  | None => if Url.rejects url then Throw InvalidURL else Unmodelled
  end.
Proof.
  unfold normalizeURL, newURL.
  destruct (Url.URL_new url); [|destruct (Url.rejects url)]; reflexivity.
Qed.

Lemma normalizeURL_Ok url key :
  normalizeURL url = Ok key <->
  exists u, Url.URL_new url = Some u /\ key = keyOf (Url.hostname u) (Url.pathname u).
Proof.
  rewrite normalizeURL_keyOf. destruct (Url.URL_new url) as [u|].
  - split; [intros [= <-]; eauto | intros (v & [= <-] & ->); reflexivity].
  - split; [destruct (Url.rejects url); discriminate | intros (v & [=] & _)].
Qed.

Lemma normalizeURL_rejected url :
  Url.rejects url = true -> normalizeURL url = Throw InvalidURL.
Proof.
  intros H. rewrite normalizeURL_keyOf, (rejects_sound _ H), H. reflexivity.
Qed.

Lemma normalizeURL_keyParts u1 u2 :
  keyParts u1 = keyParts u2 -> Url.rejects u1 = Url.rejects u2 ->
  normalizeURL u1 = normalizeURL u2.
Proof.
  rewrite !normalizeURL_keyOf. unfold keyParts, Url.hostname, Url.pathname.
  intros H ->. destruct (Url.URL_new u1), (Url.URL_new u2); cbn in *; congruence.
Qed.

(** *** Keys do not parse *)

Lemma forallb_drop p n : forall s, Str.forallb p s = true -> Str.forallb p (Str.drop n s) = true.
Proof.
  induction n as [|n IH]; intros s H; [exact H|].
  destruct s as [|c s]; [reflexivity|]. cbn in *.
  apply andb_true_iff in H as [_ H]. auto.
Qed.

Lemma forallb_take p n : forall s, Str.forallb p s = true -> Str.forallb p (Str.take n s) = true.
Proof.
  induction n as [|n IH]; intros s H; [reflexivity|].
  destruct s as [|c s]; [reflexivity|]. cbn in *.
  apply andb_true_iff in H as [Hc H]. rewrite Hc, IH; auto.
Qed.

Lemma forallb_map (p : ascii -> bool) f s :
  (forall c, p c = true -> p (f c) = true) ->
  Str.forallb p s = true -> Str.forallb p (Str.map f s) = true.
Proof.
  intros Hf. induction s as [|c s IH]; cbn; [reflexivity|].
  rewrite !andb_true_iff. intros [? ?]. auto.
Qed.

Lemma startsWithChar_take p n s :
  startsWithChar p s = true -> startsWithChar p (Str.take n s) = true.
Proof. destruct n, s; auto. Qed.

Lemma startsWithChar_map (p : ascii -> bool) f s :
  (forall c, p c = true -> p (f c) = true) ->
  startsWithChar p s = true -> startsWithChar p (Str.map f s) = true.
Proof. intros Hf. destruct s; cbn; auto. Qed.

Lemma pathname_starts u : startsWithChar Url.is_slash (Url.pathname u) = true.
Proof. unfold Url.pathname. destruct (Url.path u); reflexivity. Qed.

(** After a host, and a path if any, no scheme is found. *)
Lemma scheme_rest a b :
  Str.forallb Url.host_char_ok a = true ->
  startsWithChar Url.is_slash b = true ->
  startsWithChar (fun c => negb (Url.is_colon c))
    (snd (Str.break (fun c => negb (Url.is_scheme_char c)) (a +:+ b))) = true.
Proof.
  intros Ha Hb. induction a as [|c a IH].
  - rewrite append_nil_l. destruct b as [|c b]; [reflexivity|]. cbn in Hb.
    assert (Hs : Url.is_scheme_char c = false) by (revert Hb; each_char c).
    assert (Hn : Url.is_colon c = false) by (revert Hb; each_char c).
    cbn. rewrite Hs. cbn. rewrite Hn. reflexivity.
  - cbn in Ha. apply andb_true_iff in Ha as [Hc Ha]. rewrite append_cons.
    assert (Hn : Url.is_colon c = false) by (revert Hc; each_char c).
    cbn. destruct (Url.is_scheme_char c); cbn.
    + destruct (Str.break _ (a +:+ b)). cbn in *. auto.
    + rewrite Hn. reflexivity.
Qed.

Lemma parse_scheme_key a b :
  Str.forallb Url.host_char_ok a = true ->
  startsWithChar Url.is_slash b = true ->
  Url.parse_scheme (a +:+ b) = None.
Proof.
  intros Ha Hb. pose proof (scheme_rest a b Ha Hb) as H.
  unfold Url.parse_scheme. destruct (a +:+ b) as [|c s]; [reflexivity|].
  destruct (Chr.is_alpha c); [|reflexivity].
  destruct (Str.break _ (String c s)) as [sch rest]. cbn in H.
  destruct rest as [|c' rest]; [reflexivity|]. cbn in H.
  apply negb_true_iff in H. rewrite H. reflexivity.
Qed.

Lemma keyOf_is_rejected u :
  wellFormed u -> Url.rejects (keyOf (Url.hostname u) (Url.pathname u)) = true.
Proof.
  intros Hwf. pose proof Hwf as (_ & Hh & _).
  pose proof (parse_host_fixed _ Hh) as [Hok _].
  pose proof (pathname_visible u Hwf) as Hvis.
  pose proof (pathname_starts u) as Hst.
  unfold keyOf, Url.hostname. set (h := if Str.startsWith "www." _ then _ else _).
  set (p := if Str.endsWith "/" _ then _ else _).
  assert (Hh' : Str.forallb Url.host_char_ok h = true).
  { subst h. destruct (Str.startsWith _ _); [|exact Hok]. apply forallb_drop, Hok. }
  assert (Hp : visible p = true /\ startsWithChar Url.is_slash p = true).
  { subst p. destruct (Str.endsWith _ _); [|auto]. unfold Str.slice. split.
    - apply forallb_take, forallb_drop, Hvis.
    - apply startsWithChar_take. unfold Str.slice_index. cbn. rewrite Nat.min_0_l. exact Hst. }
  destruct Hp as [Hp1 Hp2].
  unfold Str.toLowerCase. rewrite map_append.
  assert (Hl1 : Str.forallb Url.host_char_ok (Str.map Chr.lower h) = true).
  { apply forallb_map; [intros c; each_char c | exact Hh']. }
  assert (Hl2 : visible (Str.map Chr.lower p) = true).
  { apply forallb_map; [intros c; each_char c | exact Hp1]. }
  assert (Hl3 : startsWithChar Url.is_slash (Str.map Chr.lower p) = true).
  { apply startsWithChar_map; [intros c; each_char c | exact Hp2]. }
  unfold Url.rejects. rewrite preprocess_visible.
  - rewrite parse_scheme_key by assumption. reflexivity.
  - rewrite visible_append, Hl2, andb_true_r.
    eapply forallb_impl; [|exact Hl1]. intros c; each_char c.
Qed.

(** *** The query and the fragment are not read *)

Lemma break_before (q : ascii -> bool) c a t :
  q c = true ->
  Str.break q (a +:+ String c t) =
  (fst (Str.break q a), snd (Str.break q a) +:+ String c t).
Proof.
  intros Hc. induction a as [|d a IH].
  - rewrite append_nil_l. cbn. rewrite Hc. reflexivity.
  - rewrite append_cons. cbn. destruct (q d); [reflexivity|].
    rewrite IH. destruct (Str.break q a). reflexivity.
Qed.

Lemma split_front s :
  fst (fst (Url.split_query_fragment s)) = fst (Str.break isQueryOrHash s).
Proof.
  unfold Url.split_query_fragment. induction s as [|c s IH]; [reflexivity|].
  cbn. unfold isQueryOrHash at 1.
  destruct (Url.is_hash c) eqn:Eh; [rewrite orb_true_r; reflexivity|].
  rewrite orb_false_r.
  destruct (Str.break Url.is_hash s) as [bh h]. cbn.
  destruct (Url.is_question c) eqn:Eq; [reflexivity|].
  destruct (Str.break Url.is_question bh) as [fr q].
  destruct (Str.break isQueryOrHash s). cbn in *. congruence.
Qed.

Lemma dropWhile_before (p : ascii -> bool) c a t :
  p c = false ->
  Str.dropWhile p (a +:+ String c t) = Str.dropWhile p a +:+ String c t.
Proof.
  intros Hc. induction a as [|d a IH].
  - rewrite !append_nil_l. cbn. rewrite Hc. reflexivity.
  - rewrite append_cons. cbn. destruct (p d); [exact IH | reflexivity].
Qed.

Lemma dropWhileEnd_after (p : ascii -> bool) c a t :
  p c = false ->
  Str.dropWhileEnd p (a +:+ String c t) = a +:+ String c (Str.dropWhileEnd p t).
Proof.
  intros Hc. induction a as [|d a IH].
  - rewrite !append_nil_l. cbn. rewrite Hc. destruct (Str.dropWhileEnd p t); reflexivity.
  - rewrite !append_cons. cbn. rewrite IH. destruct a; reflexivity.
Qed.

Lemma filter_append p s t : Str.filter p (s +:+ t) = Str.filter p s +:+ Str.filter p t.
Proof.
  induction s as [|c s IH]; [reflexivity|].
  rewrite append_cons. cbn. destruct (p c); [rewrite append_cons, IH | rewrite IH]; reflexivity.
Qed.

(** Preprocessing leaves a visible separator in place, and what it makes of
    the part before it does not depend on what follows. *)
Lemma preprocess_before c a t :
  visibleChar c = true ->
  exists t',
    Url.preprocess (a +:+ String c t) =
    Str.filter (fun c => negb (Url.is_tab_or_newline c))
      (Str.dropWhile Url.is_c0_or_space a) +:+ String c t'.
Proof.
  intros Hc. unfold Url.preprocess.
  rewrite dropWhile_before by (revert Hc; each_char c).
  rewrite dropWhileEnd_after by (revert Hc; each_char c).
  rewrite filter_append. cbn [Str.filter].
  assert (negb (Url.is_tab_or_newline c) = true) as -> by (revert Hc; each_char c).
  eauto.
Qed.

Lemma parse_scheme_before c a t :
  isQueryOrHash c = true ->
  Url.parse_scheme (a +:+ String c t) =
  option_map (fun '(sch, rest) => (sch, rest +:+ String c t)) (Url.parse_scheme a).
Proof.
  intros Hc. unfold Url.parse_scheme. destruct a as [|d a].
  - rewrite append_nil_l. assert (Chr.is_alpha c = false) as -> by (revert Hc; each_char c).
    reflexivity.
  - rewrite append_cons. destruct (Chr.is_alpha d); [|reflexivity].
    rewrite <- append_cons. rewrite break_before by (revert Hc; each_char c).
    destruct (Str.break _ (String d a)) as [sch rest]. cbn [fst snd].
    destruct rest as [|e rest].
    + rewrite append_nil_l. assert (Url.is_colon c = false) as -> by (revert Hc; each_char c).
      reflexivity.
    + rewrite append_cons. destruct (Url.is_colon e); reflexivity.
Qed.

Lemma with_authority_parts sch dflt front q f :
  option_map (fun u => (Url.host u, Url.path u))
    (Url.with_authority sch dflt front q f) =
  (let '(auth, pathpart) := Str.break Url.is_slash (Str.dropWhile Url.is_slash front) in
   option_map (fun hp => (fst hp, Url.parse_path [] (Str.drop 1 pathpart)))
     (Url.parse_authority dflt auth)).
Proof.
  unfold Url.with_authority. destruct (Str.break _ _) as [auth pathpart].
  destruct (Url.parse_authority dflt auth) as [[h po]|]; reflexivity.
Qed.

Lemma keyParts_before c a t1 t2 :
  isQueryOrHash c = true ->
  keyParts (a +:+ String c t1) = keyParts (a +:+ String c t2).
Proof.
  intros Hc. unfold keyParts, Url.URL_new.
  assert (Hv : visibleChar c = true) by (revert Hc; each_char c).
  destruct (preprocess_before c a t1 Hv) as [t1' ->].
  destruct (preprocess_before c a t2 Hv) as [t2' ->].
  rewrite !parse_scheme_before by exact Hc.
  destruct (Url.parse_scheme _) as [[sch rest]|]; [|reflexivity]. cbn [option_map].
  destruct (Url.default_port sch) as [dflt|]; [|reflexivity].
  pose proof (split_front (rest +:+ String c t1')) as H1.
  pose proof (split_front (rest +:+ String c t2')) as H2.
  rewrite break_before in H1, H2 by exact Hc. cbn [fst] in H1, H2.
  destruct (Url.split_query_fragment (rest +:+ String c t1')) as [[fr1 q1] f1].
  destruct (Url.split_query_fragment (rest +:+ String c t2')) as [[fr2 q2] f2].
  cbn in H1, H2. subst fr1 fr2. rewrite !with_authority_parts. reflexivity.
Qed.

Lemma rejects_before c a t1 t2 :
  isQueryOrHash c = true ->
  Url.rejects (a +:+ String c t1) = Url.rejects (a +:+ String c t2).
Proof.
  intros Hc. unfold Url.rejects.
  assert (Hv : visibleChar c = true) by (revert Hc; each_char c).
  destruct (preprocess_before c a t1 Hv) as [t1' ->].
  destruct (preprocess_before c a t2 Hv) as [t2' ->].
  rewrite !parse_scheme_before by exact Hc.
  destruct (Url.parse_scheme _) as [[sch rest]|]; [|reflexivity]. cbn [option_map].
  destruct (Url.default_port sch) as [dflt|]; [|reflexivity].
  pose proof (split_front (rest +:+ String c t1')) as H1.
  pose proof (split_front (rest +:+ String c t2')) as H2.
  rewrite break_before in H1, H2 by exact Hc. cbn [fst] in H1, H2.
  destruct (Url.split_query_fragment (rest +:+ String c t1')) as [[fr1 q1] f1].
  destruct (Url.split_query_fragment (rest +:+ String c t2')) as [[fr2 q2] f2].
  cbn in H1, H2. subst fr1 fr2. reflexivity.
Qed.

End KeyFacts.

(** ** Scheme, [www.], trailing slash and letter case *)

Module CaseFacts.
Import StrFacts UrlFacts KeyFacts.

Local Abbreviation L := Str.toLowerCase.

(** *** The scheme is not read *)

Lemma parse_port_success d1 d2 p :
  is_Some (Url.parse_port d1 p) -> is_Some (Url.parse_port d2 p).
Proof.
  unfold Url.parse_port. destruct (negb _); [auto|].
  destruct (String.eqb p ""); [eauto|].
  destruct (65535 <? _)%N; [auto | eauto].
Qed.

Lemma parse_authority_host d1 d2 a :
  option_map fst (Url.parse_authority d1 a) = option_map fst (Url.parse_authority d2 a).
Proof.
  unfold Url.parse_authority. destruct (Str.existsb Url.is_at a); [reflexivity|].
  destruct (Str.break Url.is_colon a) as [h rest].
  destruct (Url.parse_host h) as [h'|]; [|reflexivity].
  destruct (Url.after_delimiter rest) as [p|]; [|reflexivity].
  destruct (Url.parse_port d1 p) as [po1|] eqn:E1, (Url.parse_port d2 p) as [po2|] eqn:E2;
    try reflexivity.
  - destruct (parse_port_success d1 d2 p) as [? ?]; [eauto | congruence].
  - destruct (parse_port_success d2 d1 p) as [? ?]; [eauto | congruence].
Qed.

Lemma with_authority_scheme s1 d1 s2 d2 front q1 f1 q2 f2 :
  option_map (fun u => (Url.host u, Url.path u)) (Url.with_authority s1 d1 front q1 f1) =
  option_map (fun u => (Url.host u, Url.path u)) (Url.with_authority s2 d2 front q2 f2).
Proof.
  rewrite !with_authority_parts. destruct (Str.break _ _) as [auth pathpart].
  pose proof (parse_authority_host d1 d2 auth) as H.
  destruct (Url.parse_authority d1 auth) as [[h1 p1]|],
           (Url.parse_authority d2 auth) as [[h2 p2]|]; cbn in *; congruence.
Qed.

Lemma preprocess_scheme sch rest :
  is_Some (Url.default_port sch) ->
  exists rest', forall sch', is_Some (Url.default_port sch') ->
    Url.preprocess (sch' +:+ String ":" rest) = sch' +:+ String ":" rest'.
Proof.
  intros _.
  exists (Str.filter (fun c => negb (Url.is_tab_or_newline c))
            (Str.dropWhileEnd Url.is_c0_or_space rest)).
  intros sch' H. unfold Url.preprocess.
  destruct (default_port_cases sch' H) as [->|[->|[->|[->| ->]]]];
    (rewrite dropWhile_keep by reflexivity;
     rewrite dropWhileEnd_after by reflexivity;
     rewrite filter_append; reflexivity).
Qed.

Lemma keyParts_scheme sch1 sch2 rest :
  is_Some (Url.default_port sch1) -> is_Some (Url.default_port sch2) ->
  keyParts (sch1 +:+ String ":" rest) = keyParts (sch2 +:+ String ":" rest).
Proof.
  intros H1 H2. unfold keyParts, Url.URL_new.
  destruct (preprocess_scheme sch1 rest H1) as [rest' Hp].
  rewrite (Hp sch1 H1), (Hp sch2 H2), !parse_scheme_known by assumption.
  destruct H1 as [d1 ->], H2 as [d2 ->].
  destruct (Url.split_query_fragment rest') as [[front q] f].
  apply with_authority_scheme.
Qed.

Lemma rejects_scheme sch1 sch2 rest :
  is_Some (Url.default_port sch1) -> is_Some (Url.default_port sch2) ->
  Url.rejects (sch1 +:+ String ":" rest) = Url.rejects (sch2 +:+ String ":" rest).
Proof.
  intros H1 H2. unfold Url.rejects.
  destruct (preprocess_scheme sch1 rest H1) as [rest' Hp].
  rewrite (Hp sch1 H1), (Hp sch2 H2), !parse_scheme_known by assumption.
  destruct H1 as [d1 ->], H2 as [d2 ->]. reflexivity.
Qed.

(** *** A leading [www.] and a trailing slash *)

Lemma keyOf_www h p :
  Str.startsWith "www." h = false -> keyOf ("www." +:+ h) p = keyOf h p.
Proof.
  intros H. unfold keyOf. rewrite H.
  change ("www." +:+ h) with (String "w" (String "w" (String "w" (String "." h)))).
  cbn [Str.startsWith Ascii.eqb Bool.eqb andb].
  unfold Str.slice_from, Str.slice_index. cbn [String.length Z.ltb Z.compare Z.to_nat Pos.to_nat Pos.iter_op Nat.add Nat.min Str.drop].
  reflexivity.
Qed.

Lemma endsWith_append suffix s : Str.endsWith suffix (s +:+ suffix) = true.
Proof.
  induction s as [|c s IH].
  - rewrite append_nil_l. destruct suffix; cbn; [reflexivity|].
    rewrite Ascii.eqb_refl, String.eqb_refl. reflexivity.
  - rewrite append_cons. cbn [Str.endsWith]. rewrite IH. apply orb_true_r.
Qed.

Lemma length_append s t : String.length (s +:+ t) = String.length s + String.length t.
Proof. induction s as [|c s IH]; [reflexivity|]. rewrite append_cons. cbn. rewrite IH. reflexivity. Qed.

Lemma take_append_length s t : Str.take (String.length s) (s +:+ t) = s.
Proof.
  induction s as [|c s IH]; [destruct t; reflexivity|].
  rewrite append_cons. cbn. rewrite IH. reflexivity.
Qed.

Lemma slice_drop_last s c :
  Str.slice 0 (-1) (s +:+ String c "") = s.
Proof.
  unfold Str.slice, Str.slice_index. rewrite length_append. cbn [String.length Z.ltb Z.compare].
  rewrite Nat.min_0_l. cbn [Str.drop].
  replace (Z.to_nat (Z.max (Z.of_nat (String.length s + 1) + -1) 0) - 0)
    with (String.length s) by lia.
  apply take_append_length.
Qed.

Lemma keyOf_slash h p :
  Str.endsWith "/" p = false -> keyOf h (p +:+ "/") = keyOf h p.
Proof.
  intros H. unfold keyOf. rewrite H, endsWith_append, slice_drop_last. reflexivity.
Qed.

(** *** Letter case is not read *)

Section MapCommutes.

Variable f : ascii -> ascii.
Variable p : ascii -> bool.
Hypothesis p_f : forall c, p (f c) = p c.

Lemma dropWhile_map s : Str.dropWhile p (Str.map f s) = Str.map f (Str.dropWhile p s).
Proof.
  induction s as [|c s IH]; [reflexivity|]. cbn. rewrite p_f.
  destruct (p c); [exact IH | reflexivity].
Qed.

Lemma dropWhileEnd_map s : Str.dropWhileEnd p (Str.map f s) = Str.map f (Str.dropWhileEnd p s).
Proof.
  induction s as [|c s IH]; [reflexivity|]. cbn. rewrite IH, p_f.
  destruct (Str.dropWhileEnd p s); cbn; [destruct (p c)|]; reflexivity.
Qed.

Lemma filter_map s :
  Str.filter (fun c => negb (p c)) (Str.map f s) =
  Str.map f (Str.filter (fun c => negb (p c)) s).
Proof.
  induction s as [|c s IH]; [reflexivity|]. cbn. rewrite p_f, IH.
  destruct (p c); reflexivity.
Qed.

Lemma break_map s :
  Str.break p (Str.map f s) =
  (Str.map f (fst (Str.break p s)), Str.map f (snd (Str.break p s))).
Proof.
  induction s as [|c s IH]; [reflexivity|]. cbn. rewrite p_f.
  destruct (p c); [reflexivity|]. rewrite IH.
  destruct (Str.break p s). reflexivity.
Qed.

Lemma split_map s : Str.split p (Str.map f s) = List.map (Str.map f) (Str.split p s).
Proof.
  induction s as [|c s IH]; [reflexivity|]. cbn. rewrite p_f.
  destruct (p c); [rewrite IH; reflexivity|]. rewrite IH.
  destruct (Str.split p s); reflexivity.
Qed.

Lemma forallb_map_eq s : Str.forallb p (Str.map f s) = Str.forallb p s.
Proof. induction s as [|c s IH]; [reflexivity|]. cbn. rewrite p_f, IH. reflexivity. Qed.

Lemma existsb_map_eq s : Str.existsb p (Str.map f s) = Str.existsb p s.
Proof. induction s as [|c s IH]; [reflexivity|]. cbn. rewrite p_f, IH. reflexivity. Qed.

End MapCommutes.

Lemma drop_map f n : forall s, Str.drop n (Str.map f s) = Str.map f (Str.drop n s).
Proof. induction n as [|n IH]; intros [|c s]; cbn; auto. Qed.

Lemma take_map f n : forall s, Str.take n (Str.map f s) = Str.map f (Str.take n s).
Proof. induction n as [|n IH]; intros [|c s]; cbn; auto. rewrite IH. reflexivity. Qed.

Lemma length_map f s : String.length (Str.map f s) = String.length s.
Proof. induction s as [|c s IH]; cbn; auto. Qed.

Lemma slice_map f a b s : Str.slice a b (Str.map f s) = Str.map f (Str.slice a b s).
Proof. unfold Str.slice. rewrite length_map, drop_map, take_map. reflexivity. Qed.

Lemma lower_slash c : Ascii.eqb (Chr.lower c) "/" = Ascii.eqb c "/".
Proof. each_char c. Qed.

Lemma endsWith_slash_lower s : Str.endsWith "/" (L s) = Str.endsWith "/" s.
Proof.
  induction s as [|c s IH]; [reflexivity|].
  cbn [Str.toLowerCase Str.map Str.endsWith]. fold (L s). rewrite IH. f_equal.
  cbn [String.eqb]. rewrite lower_slash. destruct s; reflexivity.
Qed.

Lemma keyOf_lower h p :
  keyOf h p =
  L (if Str.startsWith "www." h then Str.slice_from 4 h else h)
  +:+ (if Str.endsWith "/" (L p) then Str.slice 0 (-1) (L p) else L p).
Proof.
  unfold keyOf. unfold Str.toLowerCase at 1. rewrite map_append.
  rewrite endsWith_slash_lower. f_equal.
  destruct (Str.endsWith "/" p); [|reflexivity].
  symmetry. apply slice_map.
Qed.

Lemma pathname_lower u :
  L (Url.pathname u) =
  Str.concat (List.map (fun seg => String "/" seg) (List.map L (Url.path u))).
Proof.
  unfold Url.pathname. induction (Url.path u) as [|seg segs IH]; [reflexivity|].
  cbn [List.map Str.concat]. unfold Str.toLowerCase in *. rewrite map_append, IH. reflexivity.
Qed.

(** What [normalizeURL] reads, up to the case of the path. *)
Lemma normalizeURL_lowered u1 u2 :
  option_map (fun u => (Url.host u, List.map L (Url.path u))) (Url.URL_new u1) =
  option_map (fun u => (Url.host u, List.map L (Url.path u))) (Url.URL_new u2) ->
  Url.rejects u1 = Url.rejects u2 ->
  normalizeURL u1 = normalizeURL u2.
Proof.
  rewrite !normalizeURL_keyOf. intros H ->.
  destruct (Url.URL_new u1) as [a|], (Url.URL_new u2) as [b|]; cbn in *; try congruence.
  injection H as Hh Hp. rewrite !keyOf_lower, !pathname_lower. unfold Url.hostname.
  rewrite Hh, Hp. reflexivity.
Qed.

Lemma preprocess_lower s : Url.preprocess (L s) = L (Url.preprocess s).
Proof.
  unfold Url.preprocess, Str.toLowerCase.
  rewrite dropWhile_map, dropWhileEnd_map, filter_map; auto; intros c; each_char c.
Qed.

Lemma parse_scheme_lower s :
  Url.parse_scheme (L s) =
  option_map (fun '(sch, rest) => (sch, L rest)) (Url.parse_scheme s).
Proof.
  unfold Url.parse_scheme. destruct s as [|c s]; [reflexivity|].
  pose proof (break_map Chr.lower (fun c => negb (Url.is_scheme_char c))) as Hb.
  specialize (Hb ltac:(intros d; each_char d) (String c s)).
  unfold Str.toLowerCase at 1 2. rewrite Hb. cbn [Str.map].
  assert (Chr.is_alpha (Chr.lower c) = Chr.is_alpha c) as -> by each_char c.
  destruct (Chr.is_alpha c); [|reflexivity].
  destruct (Str.break _ (String c s)) as [sch rest]. cbn [fst snd].
  destruct rest as [|c' rest]; [reflexivity|]. cbn [Str.map].
  assert (Url.is_colon (Chr.lower c') = Url.is_colon c') as -> by each_char c'.
  destruct (Url.is_colon c'); [|reflexivity]. cbn [option_map].
  fold (L sch). rewrite toLowerCase_idem. reflexivity.
Qed.

Lemma after_delimiter_lower s :
  Url.after_delimiter (L s) = option_map L (Url.after_delimiter s).
Proof. destruct s; reflexivity. Qed.

Lemma split_lower s :
  Url.split_query_fragment (L s) =
  (let '(fr, q, f) := Url.split_query_fragment s in
   (L fr, option_map L q, option_map L f)).
Proof.
  unfold Url.split_query_fragment, Str.toLowerCase.
  rewrite (break_map Chr.lower Url.is_hash) by (intros d; each_char d).
  destruct (Str.break Url.is_hash s) as [bh h]. cbn [fst snd].
  rewrite (break_map Chr.lower Url.is_question) by (intros d; each_char d).
  destruct (Str.break Url.is_question bh) as [fr q]. cbn [fst snd].
  fold (L q) (L h). rewrite !after_delimiter_lower. reflexivity.
Qed.

Lemma parse_host_lower h : Url.parse_host (L h) = Url.parse_host h.
Proof. unfold Url.parse_host. rewrite toLowerCase_idem. reflexivity. Qed.

Lemma parse_port_lower d p : Url.parse_port d (L p) = Url.parse_port d p.
Proof.
  unfold Url.parse_port, Str.toLowerCase.
  rewrite (forallb_map_eq Chr.lower Chr.is_digit) by (intros c; each_char c).
  destruct (Str.forallb Chr.is_digit p) eqn:E; [|reflexivity].
  rewrite (map_id_on Chr.is_digit) by (auto; intros c; each_char c). reflexivity.
Qed.

Lemma parse_authority_lower d a : Url.parse_authority d (L a) = Url.parse_authority d a.
Proof.
  unfold Url.parse_authority, Str.toLowerCase.
  rewrite (existsb_map_eq Chr.lower Url.is_at) by (intros c; each_char c).
  destruct (Str.existsb Url.is_at a); [reflexivity|].
  rewrite (break_map Chr.lower Url.is_colon) by (intros c; each_char c).
  destruct (Str.break Url.is_colon a) as [h rest]. cbn [fst snd].
  fold (L h) (L rest). rewrite parse_host_lower, after_delimiter_lower.
  destruct (Url.parse_host h); [|reflexivity].
  destruct (Url.after_delimiter rest) as [p|]; [|reflexivity]. cbn [option_map].
  rewrite parse_port_lower. reflexivity.
Qed.

Lemma percent_encode_lower set s :
  (forall c, set (Chr.lower c) = set c) ->
  (forall c, set c = true -> Chr.lower c = c) ->
  L (Url.percent_encode set (L s)) = L (Url.percent_encode set s).
Proof.
  intros Hset Hfix. unfold Str.toLowerCase. induction s as [|c s IH]; [reflexivity|].
  cbn. rewrite Hset. destruct (set c) eqn:E; cbn; rewrite IH.
  - rewrite (Hfix c E). reflexivity.
  - f_equal. each_char c.
Qed.

Lemma dots_lower x y :
  L x = L y ->
  Url.is_double_dot x = Url.is_double_dot y /\ Url.is_single_dot x = Url.is_single_dot y.
Proof. unfold Url.is_double_dot, Url.is_single_dot. intros ->. auto. Qed.

Lemma removelast_map {A B} (g : A -> B) l :
  removelast (List.map g l) = List.map g (removelast l).
Proof.
  induction l as [|x l IH]; [reflexivity|]. cbn.
  destruct l; [reflexivity|]. cbn in *. rewrite IH. reflexivity.
Qed.

Lemma path_segments_lower segs : forall acc1 acc2,
  List.map L acc1 = List.map L acc2 ->
  List.map L (Url.path_segments acc1 (List.map L segs)) =
  List.map L (Url.path_segments acc2 segs).
Proof.
  induction segs as [|seg more IH]; intros acc1 acc2 Hacc; [exact Hacc|].
  cbn [List.map Url.path_segments].
  assert (Henc : L (Url.percent_encode Url.path_set (L seg)) =
                 L (Url.percent_encode Url.path_set seg)).
  { apply percent_encode_lower; intros c; each_char c. }
  destruct (dots_lower _ _ Henc) as [-> ->].
  assert (Url.is_nil (List.map L more) = Url.is_nil more) as -> by (destruct more; reflexivity).
  destruct (Url.is_double_dot _).
  { apply IH. rewrite !List.map_app, <- !removelast_map, Hacc. reflexivity. }
  destruct (Url.is_single_dot _).
  { apply IH. rewrite !List.map_app, Hacc. reflexivity. }
  apply IH. rewrite !List.map_app, Hacc. cbn [List.map]. rewrite Henc. reflexivity.
Qed.

Lemma map_backslash_lower s :
  Str.map Url.backslash_to_slash (L s) = L (Str.map Url.backslash_to_slash s).
Proof.
  unfold Str.toLowerCase. induction s as [|c s IH]; [reflexivity|].
  cbn. rewrite IH. f_equal. each_char c.
Qed.

Lemma with_authority_lower s1 s2 d front q1 f1 q2 f2 :
  option_map loweredOf (Url.with_authority s1 d (L front) q1 f1) =
  option_map loweredOf (Url.with_authority s2 d front q2 f2).
Proof.
  unfold Url.with_authority, Str.toLowerCase.
  rewrite (dropWhile_map Chr.lower Url.is_slash) by (intros c; each_char c).
  rewrite (break_map Chr.lower Url.is_slash) by (intros c; each_char c).
  destruct (Str.break Url.is_slash _) as [auth pathpart]. cbn [fst snd].
  fold (L auth). rewrite parse_authority_lower.
  destruct (Url.parse_authority d auth) as [[h po]|]; [|reflexivity].
  cbn [option_map]. unfold loweredOf. cbn [Url.host Url.path]. do 2 f_equal.
  unfold Url.parse_path. rewrite drop_map.
  rewrite (split_map Chr.lower Url.is_slash) by (intros c; each_char c).
  apply (path_segments_lower _ [] []). reflexivity.
Qed.

Lemma URL_new_lower s :
  option_map loweredOf (Url.URL_new (L s)) = option_map loweredOf (Url.URL_new s).
Proof.
  unfold Url.URL_new. rewrite preprocess_lower, parse_scheme_lower.
  destruct (Url.parse_scheme (Url.preprocess s)) as [[sch rest]|]; [|reflexivity].
  cbn [option_map]. destruct (Url.default_port sch) as [d|]; [|reflexivity].
  rewrite split_lower. destruct (Url.split_query_fragment rest) as [[fr q] f].
  rewrite map_backslash_lower. apply with_authority_lower.
Qed.

Lemma eqb_empty_lower s : String.eqb (L s) "" = String.eqb s "".
Proof. destruct s; reflexivity. Qed.

Lemma host_missing_lower front :
  Url.host_missing (L front) = Url.host_missing front.
Proof.
  unfold Url.host_missing, Str.toLowerCase.
  rewrite (dropWhile_map Chr.lower Url.is_slash) by (intros c; each_char c).
  rewrite (break_map Chr.lower Url.is_slash) by (intros c; each_char c).
  destruct (Str.break Url.is_slash _) as [auth pathpart]. cbn [fst snd].
  rewrite (existsb_map_eq Chr.lower Url.is_at) by (intros c; each_char c).
  rewrite (break_map Chr.lower Url.is_colon) by (intros c; each_char c).
  cbn [fst]. fold (L (fst (Str.break Url.is_colon auth))).
  rewrite eqb_empty_lower. reflexivity.
Qed.

Lemma rejects_lower s : Url.rejects (L s) = Url.rejects s.
Proof.
  unfold Url.rejects. rewrite preprocess_lower, parse_scheme_lower.
  destruct (Url.parse_scheme (Url.preprocess s)) as [[sch rest]|]; [|reflexivity].
  cbn [option_map]. destruct (Url.default_port sch) as [d|]; [|reflexivity].
  rewrite split_lower. destruct (Url.split_query_fragment rest) as [[fr q] f].
  rewrite map_backslash_lower. apply host_missing_lower.
Qed.

Lemma normalizeURL_lower s : normalizeURL (L s) = normalizeURL s.
Proof. apply normalizeURL_lowered; [apply URL_new_lower | apply rejects_lower]. Qed.

End CaseFacts.

(** ** The table *)

Lemma assign_writable (pages : gmap string nat) key count :
  writable pages key -> assign key count pages = <[key := count]> pages.
Proof.
  unfold assign, writable. intros [Hne|[n Hn]].
  - destruct (pages !! key); [reflexivity|].
    destruct (String.eqb_spec key "__proto__"); [contradiction | reflexivity].
  - rewrite Hn. reflexivity.
Qed.

Lemma assign_proto (pages : gmap string nat) count :
  pages !! "__proto__" = None -> assign "__proto__" count pages = pages.
Proof. unfold assign. intros ->. reflexivity. Qed.

(** A key is one the table writes, or it is [__proto__] and the table does
    not own it. *)
Lemma writable_cases (pages : gmap string nat) key :
  writable pages key \/ (key = "__proto__" /\ pages !! "__proto__" = None).
Proof.
  unfold writable. destruct (decide (key = "__proto__")) as [->|Hne]; [|auto].
  destruct (pages !! "__proto__") eqn:E; [left; right; eauto | right; auto].
Qed.

Lemma writable_absent (pages : gmap string nat) key :
  writable pages key -> pages !! "__proto__" = None -> key <> "__proto__".
Proof. intros [H|[n Hn]] Habs; [exact H|]. intros ->. congruence. Qed.

Lemma lookup_total_positive (pages : gmap string nat) k :
  0 < pages !!! k -> is_Some (pages !! k).
Proof.
  rewrite lookup_total_alt. destruct (pages !! k); cbn; [eauto | lia].
Qed.

Lemma lookup_total_absent (pages : gmap string nat) k :
  pages !! k = None -> pages !!! k = 0.
Proof. intros H. rewrite lookup_total_alt, H. reflexivity. Qed.

Lemma assign_positive (pages : gmap string nat) key count :
  0 < pages !!! key -> assign key count pages = <[key := count]> pages.
Proof. intros H. apply assign_writable. right. apply lookup_total_positive, H. Qed.

Lemma writable_insert (pages : gmap string nat) key count k :
  writable pages k -> writable (<[key := count]> pages) k.
Proof.
  intros [H|H]; [left; exact H | right; apply lookup_insert_is_Some'; auto].
Qed.

(** ** Calls of [crawlPage] *)

Section CrawlProofs.

Variable fetch : string -> fetched.
Variable anchorHrefs : string -> list string.

Lemma normalizeURL_parses url :
  Url.URL_new url <> None -> exists key, normalizeURL url = Ok key.
Proof.
  rewrite KeyFacts.normalizeURL_keyOf. destruct (Url.URL_new url); [eauto | congruence].
Qed.

Lemma normalizeURL_Ok_parses url key :
  normalizeURL url = Ok key -> Url.URL_new url <> None.
Proof. intros (u & -> & _)%KeyFacts.normalizeURL_Ok. discriminate. Qed.

(** One unfolding of [crawlPage], with the host test written with [onsite]. *)
Lemma crawlPage_unfold fuel baseURL currentURL pages out :
  crawlPage fetch anchorHrefs (S fuel) baseURL currentURL pages out =
  match Url.URL_new currentURL, Url.URL_new baseURL with
  | Some _, Some _ =>
      if negb (onsite baseURL currentURL) then Ok (pages, out)
      else
        let* key := normalizeURL currentURL in
        if 0 <? pages !!! key then
          Ok (assign key (S (pages !!! key)) pages, out)
        else
          match fetchHTML fetch currentURL with
          | inl message =>
              Ok (assign key 1 pages,
                  (out ++ [Log ("crawling " +:+ currentURL);
                           Fetch currentURL]) ++ [Log message])
          | inr html =>
              let* found := getURLsFromHTML anchorHrefs html baseURL in
              forEach
                (fun nextURL st =>
                   crawlPage fetch anchorHrefs fuel baseURL nextURL (fst st) (snd st))
                (fst found)
                (assign key 1 pages,
                 (out ++ [Log ("crawling " +:+ currentURL);
                          Fetch currentURL])
                   ++ snd found)
          end
  | Some _, None => if Url.rejects baseURL then Throw InvalidURL else Unmodelled
  | None, _ => if Url.rejects currentURL then Throw InvalidURL else Unmodelled
  end.
Proof.
  cbn [crawlPage]. unfold onsite, newURL.
  destruct (Url.URL_new currentURL) as [c|];
    [|destruct (Url.rejects currentURL); reflexivity].
  destruct (Url.URL_new baseURL) as [b|];
    [|destruct (Url.rejects baseURL); reflexivity].
  reflexivity.
Qed.

Lemma forEach_crawlsEach fuel baseURL :
  (forall u st st',
      crawlPage fetch anchorHrefs fuel baseURL u (fst st) (snd st) = Ok st' ->
      crawls fetch anchorHrefs baseURL u st st') ->
  forall urls st st',
    forEach (fun u st => crawlPage fetch anchorHrefs fuel baseURL u (fst st) (snd st)) urls st
      = Ok st' ->
    crawlsEach fetch anchorHrefs baseURL urls st st'.
Proof.
  intros Hbody urls. induction urls as [|u rest IH]; intros st st' H; cbn in H.
  - injection H as <-. constructor.
  - destruct (crawlPage fetch anchorHrefs fuel baseURL u (fst st) (snd st)) as [st1| | |] eqn:E;
      try discriminate.
    econstructor; eauto.
Qed.

(** Every call that returns follows the relation [crawls]. *)
Lemma crawlPage_crawls fuel baseURL :
  forall currentURL pages out st',
    crawlPage fetch anchorHrefs fuel baseURL currentURL pages out = Ok st' ->
    crawls fetch anchorHrefs baseURL currentURL (pages, out) st'.
Proof.
  induction fuel as [|fuel IH]; intros cur pages out st' H; [discriminate|].
  rewrite crawlPage_unfold in H.
  destruct (Url.URL_new cur) as [c|] eqn:Ec;
    [|destruct (Url.rejects cur); discriminate].
  destruct (Url.URL_new baseURL) as [b|] eqn:Eb;
    [|destruct (Url.rejects baseURL); discriminate].
  destruct (onsite baseURL cur) eqn:Eon; cbn [negb] in H.
  2:{ injection H as <-. apply crawls_offsite; congruence. }
  destruct (normalizeURL cur) as [key| | |] eqn:Ek; try discriminate. cbn [bind] in H.
  destruct (0 <? pages !!! key) eqn:Epos.
  { injection H as <-. apply crawls_revisit; auto.
    apply Nat.ltb_lt; assumption. }
  apply Nat.ltb_ge in Epos.
  destruct (fetchHTML fetch cur) as [message|html] eqn:Ef.
  { injection H as <-. apply crawls_failed; auto. lia. }
  destruct (getURLsFromHTML anchorHrefs html baseURL) as [[links lines]| | |] eqn:Eg;
    try discriminate.
  cbn [bind fst snd] in H.
  eapply crawls_fetched; eauto; [lia|].
  eapply forEach_crawlsEach; [|exact H].
  intros u [p o] st1 Hu. apply IH. exact Hu.
Qed.

End CrawlProofs.

Lemma count_app {A} (p : A -> bool) l1 l2 :
  count p (l1 ++ l2) = count p l1 + count p l2.
Proof. induction l1 as [|x l1 IH]; cbn; [reflexivity | rewrite IH; lia]. Qed.

Lemma count_pos_In {A} (p : A -> bool) l :
  0 < count p l -> exists x, In x l /\ p x = true.
Proof.
  induction l as [|x l IH]; cbn; [lia|].
  destruct (p x) eqn:E; [eauto|].
  intros H. destruct IH as (y & ? & ?); [lia | eauto].
Qed.

Lemma count_none {A} (p : A -> bool) l :
  (forall x, In x l -> p x = false) -> count p l = 0.
Proof.
  induction l as [|x l IH]; cbn; [reflexivity|]. intros H.
  rewrite (H x) by auto. rewrite IH by auto. reflexivity.
Qed.

Section Summary.

Variable fetch : string -> fetched.
Variable anchorHrefs : string -> list string.

Lemma discovered_app baseURL o1 o2 :
  discovered fetch anchorHrefs baseURL (o1 ++ o2) =
  discovered fetch anchorHrefs baseURL o1 ++ discovered fetch anchorHrefs baseURL o2.
Proof. unfold discovered. rewrite !flat_map_concat_map, map_app, concat_app. reflexivity. Qed.

Lemma fetches_app k o1 o2 : fetches k (o1 ++ o2) = fetches k o1 + fetches k o2.
Proof. apply count_app. Qed.

Lemma hits_app b k l1 l2 : hits b k (l1 ++ l2) = hits b k l1 + hits b k l2.
Proof. apply count_app. Qed.

Lemma hits_offsite b k u : onsite b u = false -> hits b k [u] = 0.
Proof. intros H. unfold hits, visits. cbn. rewrite H. reflexivity. Qed.

Lemma hits_onsite b key k u :
  onsite b u = true -> normalizeURL u = Ok key ->
  hits b k [u] = if decide (k = key) then 1 else 0.
Proof.
  intros H E. unfold hits, visits. cbn. rewrite H, E. cbn.
  destruct (decide (k = key)) as [->|Hne].
  - rewrite bool_decide_eq_true_2; reflexivity.
  - rewrite bool_decide_eq_false_2; [reflexivity | congruence].
Qed.

(** The diagnostics of [getURLsFromHTML] are lines of the console. *)
Lemma diagnostics_logs html baseURL links lines :
  getURLsFromHTML anchorHrefs html baseURL = Ok (links, lines) ->
  Forall (fun e => exists line, e = Log line) lines.
Proof.
  intros (mapped & Hall & _ & ->)%UrlFacts.getURLsFromHTML_Ok.
  induction Hall as [|href r hrefs mapped Hr _ IH]; cbn; [constructor|].
  apply Forall_app. split; [|exact IH].
  apply UrlFacts.resolveAnchor_Ok in Hr as [(u & _ & ->)|(_ & ->)]; cbn;
    repeat constructor. eauto.
Qed.

Lemma logs_discovered baseURL o :
  Forall (fun e => exists line, e = Log line) o ->
  discovered fetch anchorHrefs baseURL o = [].
Proof.
  induction 1 as [|e o [line ->] _ IH]; cbn; [reflexivity | exact IH].
Qed.

Lemma logs_fetches k o :
  Forall (fun e => exists line, e = Log line) o -> fetches k o = 0.
Proof.
  induction 1 as [|e o [line ->] _ IH]; cbn; [reflexivity | exact IH].
Qed.

Lemma first_visit_flag (n m : nat) :
  (if (n =? 0) && (0 <? m) then 1 else 0) =
  if decide (n = 0 /\ 0 < m) then 1 else 0.
Proof.
  destruct (decide _) as [[-> H]|H].
  - destruct m; [lia | reflexivity].
  - destruct n; cbn; [|reflexivity]. destruct m; [reflexivity | lia].
Qed.

Lemma summary_nil baseURL st : summary fetch anchorHrefs baseURL [] st st.
Proof.
  exists []. rewrite app_nil_r. cbn. repeat split; auto.
  intros k _. destruct (fst st !!! k); reflexivity.
Qed.

Lemma summary_offsite baseURL u st :
  onsite baseURL u = false -> summary fetch anchorHrefs baseURL [u] st st.
Proof.
  intros H. exists []. rewrite app_nil_r. cbn [app discovered flat_map].
  repeat split; auto.
  - intros k _. rewrite hits_offsite by assumption. lia.
  - intros k _. cbn. destruct (fst st !!! k) eqn:E; cbn; reflexivity.
  - rewrite hits_offsite by assumption. reflexivity.
Qed.

Lemma summary_revisit baseURL u key pages out :
  onsite baseURL u = true -> normalizeURL u = Ok key -> 0 < pages !!! key ->
  summary fetch anchorHrefs baseURL [u] (pages, out)
    (assign key (S (pages !!! key)) pages, out).
Proof.
  intros Hon Hk Hpos. rewrite assign_positive by exact Hpos.
  pose proof (lookup_total_positive _ _ Hpos) as Hown.
  exists []. cbn [fst snd]. rewrite app_nil_r.
  cbn [discovered flat_map]. rewrite app_nil_r.
  split; [reflexivity|]. split; [|split; [|split; [|split; [|split]]]].
  - intros k _. rewrite (hits_onsite _ key) by assumption.
    destruct (decide (k = key)) as [->|Hne].
    + rewrite lookup_total_insert_eq. lia.
    + rewrite lookup_total_insert_ne by congruence. lia.
  - intros k _. cbn. destruct (decide (k = key)) as [->|Hne].
    + destruct (pages !!! key); [lia | reflexivity].
    + rewrite lookup_total_insert_ne by congruence.
      destruct (pages !!! k); reflexivity.
  - intros Habs. assert (key <> "__proto__") as Hne by (intros ->; destruct Hown; congruence).
    split; [rewrite lookup_insert_ne by exact Hne; exact Habs|].
    rewrite (hits_onsite _ key) by assumption. rewrite decide_False by congruence.
    reflexivity.
  - intros k Hs. apply lookup_insert_is_Some'. auto.
  - intros k n. rewrite lookup_insert_Some.
    intros [[_ <-]|[_ H]]; [left; lia | right; exact H].
  - intros k Hs. left. apply lookup_insert_is_Some' in Hs as [<-|Hs]; [|exact Hs].
    exact Hown.
Qed.

Lemma fetches_enter k key line u rest :
  normalizeURL u = Ok key ->
  fetches k ([Log line; Fetch u] ++ rest) =
  (if decide (k = key) then 1 else 0) + fetches k rest.
Proof.
  intros H. cbn. destruct (decide (k = key)) as [->|Hne].
  - rewrite bool_decide_eq_true_2; auto.
  - rewrite bool_decide_eq_false_2; [reflexivity | congruence].
Qed.

(** The first visit of a key: the assignment, the request, and the run
    over the links of the page, if it came. *)
Lemma summary_visit baseURL u key lines pages out st' :
  onsite baseURL u = true -> normalizeURL u = Ok key -> pages !!! key = 0 ->
  Forall (fun e => exists line, e = Log line) lines ->
  summary fetch anchorHrefs baseURL (linksOf fetch anchorHrefs baseURL (Fetch u))
    (assign key 1 pages,
     (out ++ [Log ("crawling " +:+ u); Fetch u]) ++ lines) st' ->
  summary fetch anchorHrefs baseURL [u] (pages, out) st'.
Proof.
  intros Hon Hk Hz Hlines (new & Hout & Hcount & Hfetch & Hproto & Hkeys & Hpos & Horigin).
  cbn [fst snd] in *.
  set (links := linksOf fetch anchorHrefs baseURL (Fetch u)) in *.
  exists ([Log ("crawling " +:+ u); Fetch u] ++ lines ++ new).
  assert (Hd : discovered fetch anchorHrefs baseURL
                 ([Log ("crawling " +:+ u); Fetch u] ++ lines ++ new) =
               links ++ discovered fetch anchorHrefs baseURL new).
  { rewrite !discovered_app, (logs_discovered _ lines Hlines).
    cbn [discovered flat_map app]. fold links. rewrite app_nil_r. reflexivity. }
  rewrite Hd. cbn [fst snd].
  split; [rewrite Hout, <- !app_assoc; reflexivity|].
  assert (Hh : forall k,
    hits baseURL k ([u] ++ links ++ discovered fetch anchorHrefs baseURL new) =
    (if decide (k = key) then 1 else 0)
    + hits baseURL k (links ++ discovered fetch anchorHrefs baseURL new)).
  { intros k. rewrite (hits_app _ _ [u]), (hits_onsite _ key) by assumption.
    reflexivity. }
  assert (Hf : forall k,
    fetches k ([Log ("crawling " +:+ u); Fetch u] ++ lines ++ new) =
    (if decide (k = key) then 1 else 0) + fetches k new).
  { intros k. rewrite (fetches_enter k key) by assumption.
    rewrite fetches_app, (logs_fetches _ lines Hlines). reflexivity. }
  destruct (writable_cases pages key) as [Hw|[-> Habs]].
  - rewrite assign_writable in * by exact Hw.
    split; [|split; [|split; [|split; [|split]]]].
    + intros k Hwk. rewrite Hh, Hcount by (apply writable_insert; exact Hwk).
      destruct (decide (k = key)) as [->|Hne].
      * rewrite lookup_total_insert_eq. lia.
      * rewrite lookup_total_insert_ne by congruence. lia.
    + intros k Hwk. rewrite Hf, Hfetch by (apply writable_insert; exact Hwk).
      rewrite !first_visit_flag.
      specialize (Hcount k (writable_insert _ _ _ _ Hwk)).
      destruct (decide (k = key)) as [->|Hne].
      * rewrite lookup_total_insert_eq in *.
        rewrite decide_False by lia. rewrite decide_True by lia. reflexivity.
      * rewrite lookup_total_insert_ne in * by congruence.
        repeat case_decide; try reflexivity; lia.
    + intros Habs. pose proof (writable_absent _ _ Hw Habs) as Hne.
      destruct Hproto as [Habs' Hfp]; [rewrite lookup_insert_ne by exact Hne; exact Habs|].
      split; [exact Habs'|].
      rewrite Hf, Hh, Hfp. rewrite !decide_False by congruence. reflexivity.
    + intros k Hs. apply Hkeys, lookup_insert_is_Some'. auto.
    + intros k n Hn. destruct (Hpos k n Hn) as [Hlt|Hi]; [left; exact Hlt|].
      apply lookup_insert_Some in Hi as [[_ <-]|[_ H]]; [left; lia | right; exact H].
    + intros k Hs. rewrite Hh.
      destruct (Horigin k Hs) as [Hi|Hhit]; [|right; lia].
      apply lookup_insert_is_Some' in Hi as [<-|Hi]; [right|left; exact Hi].
      rewrite decide_True by reflexivity. lia.
  - rewrite assign_proto in * by exact Habs.
    destruct (Hproto Habs) as [Habs' Hfp].
    split; [|split; [|split; [|split; [|split]]]].
    + intros k Hwk. pose proof (writable_absent _ _ Hwk Habs) as Hne.
      rewrite Hh, Hcount by exact Hwk. rewrite decide_False by exact Hne. reflexivity.
    + intros k Hwk. pose proof (writable_absent _ _ Hwk Habs) as Hne.
      rewrite Hf, Hfetch by exact Hwk. rewrite decide_False by exact Hne. reflexivity.
    + intros _. split; [exact Habs'|].
      rewrite Hf, Hh, Hfp. reflexivity.
    + exact Hkeys.
    + exact Hpos.
    + intros k Hs. rewrite Hh.
      destruct (Horigin k Hs) as [Hi|Hhit]; [left; exact Hi | right; lia].
Qed.

Lemma summary_failed baseURL u key message pages out :
  onsite baseURL u = true -> normalizeURL u = Ok key -> pages !!! key = 0 ->
  fetchHTML fetch u = inl message ->
  summary fetch anchorHrefs baseURL [u] (pages, out)
    (assign key 1 pages,
     (out ++ [Log ("crawling " +:+ u); Fetch u]) ++ [Log message]).
Proof.
  intros Hon Hk Hz Hf.
  apply (summary_visit baseURL u key [Log message]); auto.
  - repeat constructor. eauto.
  - cbn [linksOf]. rewrite Hf. apply summary_nil.
Qed.

Lemma summary_fetched baseURL u key html links lines pages out st' :
  onsite baseURL u = true -> normalizeURL u = Ok key -> pages !!! key = 0 ->
  fetchHTML fetch u = inr html ->
  getURLsFromHTML anchorHrefs html baseURL = Ok (links, lines) ->
  summary fetch anchorHrefs baseURL links
    (assign key 1 pages,
     (out ++ [Log ("crawling " +:+ u); Fetch u]) ++ lines) st' ->
  summary fetch anchorHrefs baseURL [u] (pages, out) st'.
Proof.
  intros Hon Hk Hz Hf Hg Hrest.
  apply (summary_visit baseURL u key lines); auto.
  - eapply diagnostics_logs; eauto.
  - cbn [linksOf]. rewrite Hf, Hg. exact Hrest.
Qed.

Lemma summary_cons baseURL u rest st st' st'' :
  summary fetch anchorHrefs baseURL [u] st st' -> summary fetch anchorHrefs baseURL rest st' st'' ->
  summary fetch anchorHrefs baseURL (u :: rest) st st''.
Proof.
  intros (n1 & Ho1 & Hc1 & Hf1 & Hx1 & Hk1 & Hp1 & Hr1)
         (n2 & Ho2 & Hc2 & Hf2 & Hx2 & Hk2 & Hp2 & Hr2).
  exists (n1 ++ n2).
  split; [rewrite Ho2, Ho1, app_assoc; reflexivity|].
  assert (Hh : forall k,
    hits baseURL k ((u :: rest) ++ discovered fetch anchorHrefs baseURL (n1 ++ n2)) =
    hits baseURL k ([u] ++ discovered fetch anchorHrefs baseURL n1) +
    hits baseURL k (rest ++ discovered fetch anchorHrefs baseURL n2)).
  { intros k. rewrite discovered_app. change (u :: rest) with ([u] ++ rest).
    rewrite !hits_app. lia. }
  assert (Hw : forall k, writable (fst st) k -> writable (fst st') k).
  { intros k [H|H]; [left; exact H | right; apply Hk1; exact H]. }
  split; [|split; [|split; [|split; [|split]]]].
  - intros k Hwk. rewrite Hh, Hc2, Hc1 by auto. lia.
  - intros k Hwk. rewrite fetches_app, Hf1, Hf2, !first_visit_flag by auto.
    specialize (Hc1 k Hwk). specialize (Hc2 k (Hw k Hwk)).
    repeat case_decide; try reflexivity; lia.
  - intros Habs. destruct (Hx1 Habs) as [Habs' E1]. destruct (Hx2 Habs') as [Habs'' E2].
    split; [exact Habs''|]. rewrite fetches_app, Hh, E1, E2. reflexivity.
  - auto.
  - intros k n Hn. destruct (Hp2 k n Hn) as [Hlt|Hi]; [left; exact Hlt|].
    apply Hp1. exact Hi.
  - intros k Hs. rewrite Hh. destruct (Hr2 k Hs) as [Hi|Hpos]; [|right; lia].
    destruct (Hr1 k Hi) as [Hi'|Hpos]; [left; exact Hi' | right; lia].
Qed.

(** Every run of the relation has a summary. *)
Lemma crawls_summary baseURL :
  (forall u st st', crawls fetch anchorHrefs baseURL u st st' ->
                    summary fetch anchorHrefs baseURL [u] st st') /\
  (forall urls st st', crawlsEach fetch anchorHrefs baseURL urls st st' ->
                       summary fetch anchorHrefs baseURL urls st st').
Proof.
  apply crawls_mutual.
  - intros; apply summary_offsite; assumption.
  - intros; apply summary_revisit; assumption.
  - intros; apply summary_failed; assumption.
  - intros; eapply summary_fetched; eassumption.
  - intros; apply summary_nil.
  - intros; eapply summary_cons; eassumption.
Qed.

Lemma crawlPage_summary fuel baseURL currentURL pages out st' :
  crawlPage fetch anchorHrefs fuel baseURL currentURL pages out = Ok st' ->
  summary fetch anchorHrefs baseURL [currentURL] (pages, out) st'.
Proof.
  intros H. apply (proj1 (crawls_summary baseURL)). eapply crawlPage_crawls. exact H.
Qed.

End Summary.

Section Termination.

Variable fetch : string -> fetched.
Variable anchorHrefs : string -> list string.

Lemma unvisited_mono (keys : gset string) (pages pages' : gmap string nat) :
  (forall k, pages !!! k <= pages' !!! k) ->
  unvisited keys pages' ⊆ unvisited keys pages.
Proof.
  intros H k. unfold unvisited. rewrite !elem_of_filter.
  intros [Hz Hk]. split; [|exact Hk]. specialize (H k). lia.
Qed.

Lemma unvisited_insert (keys : gset string) (pages : gmap string nat) key :
  key ∈ keys -> pages !!! key = 0 ->
  size (unvisited keys (<[key := 1]> pages)) < size (unvisited keys pages).
Proof.
  intros Hk Hz. apply subset_size. split.
  - apply unvisited_mono. intros k. destruct (decide (key = k)) as [->|Hne].
    + rewrite lookup_total_insert_eq. lia.
    + rewrite lookup_total_insert_ne by assumption. lia.
  - intros Hsub. specialize (Hsub key). unfold unvisited in Hsub.
    rewrite !elem_of_filter, lookup_total_insert_eq in Hsub.
    destruct Hsub as [? _]; [auto | discriminate].
Qed.

Lemma summary_mono baseURL urls st st' :
  summary fetch anchorHrefs baseURL urls st st' ->
  forall k, fst st !!! k <= fst st' !!! k.
Proof.
  intros (new & _ & Hc & _ & Hx & _) k.
  destruct (writable_cases (fst st) k) as [Hw|[-> Habs]].
  - rewrite Hc by exact Hw. lia.
  - rewrite (lookup_total_absent _ _ Habs). lia.
Qed.

Lemma links_known baseURL keys url html links lines :
  siteWithin fetch anchorHrefs baseURL keys ->
  fetchHTML fetch url = inr html ->
  getURLsFromHTML anchorHrefs html baseURL = Ok (links, lines) ->
  Forall (known baseURL keys) links.
Proof.
  intros Hsite Hf Hg. apply List.Forall_forall. intros link Hin. split.
  - eapply UrlFacts.links_parse; eauto.
  - intros Hon k Hk. destruct (Hsite url html Hf) as (links' & lines' & Hg' & Hin').
    rewrite Hg in Hg'. injection Hg' as <- <-. eauto.
Qed.

Lemma forEach_returns fuel baseURL (keys : gset string) :
  (forall u pages out,
      known baseURL keys u -> size (unvisited keys pages) < fuel ->
      exists st', crawlPage fetch anchorHrefs fuel baseURL u pages out = Ok st') ->
  forall urls st,
    Forall (known baseURL keys) urls ->
    size (unvisited keys (fst st)) < fuel ->
    exists st',
      forEach (fun u st => crawlPage fetch anchorHrefs fuel baseURL u (fst st) (snd st))
        urls st = Ok st'.
Proof.
  intros Hbody urls. induction urls as [|u rest IH]; intros st Hall Hsize; cbn.
  - eauto.
  - inversion Hall as [|? ? Hu Hrest]; subst.
    destruct (Hbody u (fst st) (snd st) Hu Hsize) as [st1 E]. rewrite E. cbn [bind].
    apply IH; [exact Hrest|].
    apply crawlPage_summary in E. eapply Nat.le_lt_trans; [|exact Hsize].
    apply subseteq_size, unvisited_mono.
    apply (summary_mono _ _ _ _ E).
Qed.

(** On a finite site none of whose keys is [__proto__], [crawlPage]
    returns, whatever the cycles, as soon as the fuel exceeds the number of
    keys still to visit. *)
Lemma crawlPage_returns baseURL (keys : gset string) :
  is_Some (Url.URL_new baseURL) ->
  siteWithin fetch anchorHrefs baseURL keys ->
  "__proto__" ∉ keys ->
  forall fuel currentURL pages out,
    known baseURL keys currentURL ->
    size (unvisited keys pages) < fuel ->
    exists st', crawlPage fetch anchorHrefs fuel baseURL currentURL pages out = Ok st'.
Proof.
  intros [b Hb] Hsite Hproto.
  induction fuel as [|fuel IH]; intros cur pages out [[c Hc] Hkey] Hsize; [lia|].
  rewrite crawlPage_unfold, Hc, Hb.
  destruct (onsite baseURL cur) eqn:Hon; cbn [negb]; [|eauto].
  destruct (normalizeURL_parses cur) as [key Hk]; [congruence|]. rewrite Hk. cbn [bind].
  destruct (0 <? pages !!! key) eqn:Epos; [eauto|].
  apply Nat.ltb_ge in Epos.
  destruct (fetchHTML fetch cur) as [message|html] eqn:Hf; [eauto|].
  destruct (Hsite cur html Hf) as (links & lines & Hg & _). rewrite Hg. cbn [bind fst snd].
  pose proof (Hkey eq_refl key Hk) as Hin.
  rewrite assign_writable by (left; intros ->; contradiction).
  apply (forEach_returns fuel baseURL keys IH).
  - eapply links_known; eauto.
  - cbn [fst]. pose proof (unvisited_insert keys pages key Hin). lia.
Qed.

End Termination.

Section RunFacts.

Variable fetch : string -> fetched.
Variable anchorHrefs : string -> list string.

(** What a whole run leaves: the counts, the fetches and where the keys
    come from; the key [__proto__] is not in the table, and is fetched at
    each of its visits. *)
Lemma crawl_run fuel seed pages out :
  crawl fetch anchorHrefs fuel seed = Ok (pages, out) ->
  (forall k, k <> "__proto__" ->
             pages !!! k =
             hits seed k [seed] + hits seed k (discovered fetch anchorHrefs seed out)) /\
  (forall k, k <> "__proto__" ->
             fetches k out = if 0 <? pages !!! k then 1 else 0) /\
  (pages !! "__proto__" = None /\
   fetches "__proto__" out =
   hits seed "__proto__" (seed :: discovered fetch anchorHrefs seed out)) /\
  positiveCounts pages /\
  (forall k, is_Some (pages !! k) ->
             0 < hits seed k (seed :: discovered fetch anchorHrefs seed out)).
Proof.
  intros H. apply crawlPage_summary in H.
  destruct H as (new & Hout & Hc & Hf & Hx & _ & Hp & Ho). cbn [fst snd app] in *. subst new.
  assert (Hz : forall k, (∅ : gmap string nat) !!! k = 0)
    by (intros k; rewrite lookup_total_empty; reflexivity).
  split; [|split; [|split; [|split]]].
  - intros k Hne. rewrite Hc, Hz by (left; exact Hne). apply (hits_app _ _ [seed]).
  - intros k Hne. rewrite Hf, Hz by (left; exact Hne). reflexivity.
  - apply Hx, lookup_empty.
  - intros k n Hn. destruct (Hp k n Hn) as [Hlt|Hi]; [exact Hlt|].
    rewrite lookup_empty in Hi. discriminate.
  - intros k Hs. destruct (Ho k Hs) as [[n Hn]|Hh]; [|exact Hh].
    rewrite lookup_empty in Hn. discriminate.
Qed.

Lemma lookup_of_total (pages : gmap string nat) k n :
  pages !!! k = S n -> pages !! k = Some (S n).
Proof.
  rewrite lookup_total_alt. destruct (pages !! k); cbn; [congruence | discriminate].
Qed.

Lemma hits_other seed k :
  normalizeURL seed <> Ok k -> hits seed k [seed] = 0.
Proof.
  intros H. unfold hits, visits. cbn.
  rewrite bool_decide_eq_false_2 by exact H. rewrite andb_false_r. reflexivity.
Qed.

Lemma siteWithin_mono baseURL (keys keys' : gset string) :
  keys ⊆ keys' ->
  siteWithin fetch anchorHrefs baseURL keys -> siteWithin fetch anchorHrefs baseURL keys'.
Proof.
  intros Hsub H url html Hf. destruct (H url html Hf) as (links & lines & Hg & Hin).
  exists links, lines. split; [exact Hg|]. intros link key ? ? ?. apply Hsub. eauto.
Qed.

(** On a site none of whose keys is [__proto__], no link found is a visit
    of that key. *)
Lemma siteWithin_no_proto baseURL (keys : gset string) out :
  siteWithin fetch anchorHrefs baseURL keys ->
  "__proto__" ∉ keys ->
  hits baseURL "__proto__" (discovered fetch anchorHrefs baseURL out) = 0.
Proof.
  intros Hsite Hproto. apply count_none. intros link Hin.
  unfold discovered in Hin. apply List.in_flat_map in Hin.
  destruct Hin as (e & _ & Hin).
  destruct e as [line|url]; [contradiction|]. cbn [linksOf] in Hin.
  destruct (fetchHTML fetch url) as [message|html] eqn:Hf; [contradiction|].
  destruct (Hsite url html Hf) as (links & lines & Hg & Hkeys). rewrite Hg in Hin.
  cbn [fst] in Hin. unfold visits.
  destruct (onsite baseURL link) eqn:Hon; [|reflexivity]. cbn [andb].
  apply bool_decide_eq_false_2. intros Hk. apply Hproto. eauto.
Qed.

Lemma unvisited_subseteq (keys : gset string) (pages : gmap string nat) :
  unvisited keys pages ⊆ keys.
Proof. intros k. unfold unvisited. rewrite elem_of_filter. tauto. Qed.

Lemma crawl_returns seed (keys : gset string) fuel :
  is_Some (Url.URL_new seed) ->
  siteWithin fetch anchorHrefs seed keys ->
  "__proto__" ∉ keys ->
  normalizeURL seed <> Ok "__proto__" ->
  size keys + 1 < fuel ->
  exists st, crawl fetch anchorHrefs fuel seed = Ok st.
Proof.
  intros Hseed Hsite Hproto Hne Hfuel.
  destruct (normalizeURL_parses seed) as [key Hkey];
    [destruct Hseed; congruence|].
  apply (crawlPage_returns fetch anchorHrefs seed (keys ∪ {[key]})); auto.
  - eapply siteWithin_mono; [|exact Hsite]. set_solver.
  - intros [H|H]%elem_of_union; [contradiction|].
    apply elem_of_singleton in H. congruence.
  - split; [exact Hseed|]. intros _ k Hk.
    assert (k = key) as -> by congruence. set_solver.
  - eapply Nat.le_lt_trans; [|exact Hfuel].
    etransitivity; [apply subseteq_size, unvisited_subseteq|].
    rewrite size_union_alt.
    assert (size ({[key]} ∖ keys : gset string) <= 1); [|lia].
    etransitivity; [apply subseteq_size, subseteq_difference_l; reflexivity|].
    rewrite size_singleton. lia.
Qed.

Lemma forEach_more {S : Type} (body body' : string -> S -> result S) urls :
  (forall u s s', body u s = Ok s' -> body' u s = Ok s') ->
  forall s s', forEach body urls s = Ok s' -> forEach body' urls s = Ok s'.
Proof.
  intros Hbody. induction urls as [|u rest IH]; intros s s' H; cbn in *; [exact H|].
  destruct (body u s) as [s1| | |] eqn:E; try discriminate.
  rewrite (Hbody u s s1 E). apply IH. exact H.
Qed.

(** More fuel does not change what a call returns. *)
Lemma crawlPage_more_fuel baseURL fuel : forall fuel' currentURL pages out st,
  fuel <= fuel' ->
  crawlPage fetch anchorHrefs fuel baseURL currentURL pages out = Ok st ->
  crawlPage fetch anchorHrefs fuel' baseURL currentURL pages out = Ok st.
Proof.
  induction fuel as [|fuel IH]; intros fuel' cur pages out st Hle H; [discriminate|].
  destruct fuel' as [|fuel']; [lia|].
  rewrite crawlPage_unfold in *.
  destruct (Url.URL_new cur); [|exact H].
  destruct (Url.URL_new baseURL); [|exact H].
  destruct (negb (onsite baseURL cur)); [exact H|].
  destruct (normalizeURL cur) as [key| | |]; try discriminate. cbn [bind] in *.
  destruct (0 <? pages !!! key); [exact H|].
  destruct (fetchHTML fetch cur) as [message|html]; [exact H|].
  destruct (getURLsFromHTML anchorHrefs html baseURL) as [found| | |]; try discriminate.
  cbn [bind] in *.
  eapply forEach_more; [|exact H].
  intros u s s'. apply IH. lia.
Qed.

(** On a finite site the crawl returns, and returns the same table and
    events, for every fuel above the number of keys plus one. *)
Lemma crawl_result seed (keys : gset string) :
  is_Some (Url.URL_new seed) ->
  siteWithin fetch anchorHrefs seed keys ->
  "__proto__" ∉ keys ->
  normalizeURL seed <> Ok "__proto__" ->
  exists st, forall fuel,
    size keys + 1 < fuel -> crawl fetch anchorHrefs fuel seed = Ok st.
Proof.
  intros Hseed Hsite Hproto Hne.
  destruct (crawl_returns seed keys (size keys + 2) Hseed Hsite Hproto Hne) as [st Hst];
    [lia|].
  exists st. intros fuel Hfuel.
  eapply crawlPage_more_fuel; [|exact Hst]. lia.
Qed.

End RunFacts.

Section NoThrow.

Variable fetch : string -> fetched.
Variable anchorHrefs : string -> list string.

Lemma forEach_no_throw {S : Type} (body : string -> S -> result S) urls :
  (forall u, In u urls -> forall s e, body u s <> Throw e) ->
  forall s e, forEach body urls s <> Throw e.
Proof.
  induction urls as [|u rest IH]; intros Hbody s e; cbn; [discriminate|].
  destruct (body u s) as [s'| e' | |] eqn:E; cbn [bind]; try discriminate.
  - apply IH. intros u' Hin. apply Hbody. right. exact Hin.
  - exfalso. eapply (Hbody u); [left; reflexivity | exact E].
Qed.

(** The callback of [getURLsFromHTML] catches what the constructor
    throws. *)
Lemma resolveAnchor_no_throw baseURL href e : resolveAnchor baseURL href <> Throw e.
Proof.
  unfold resolveAnchor. destruct (newURL_base href baseURL) as [u|[]| |]; discriminate.
Qed.

Lemma Array_map_no_throw {A B : Type} (callback : A -> result B) arr :
  (forall x e, callback x <> Throw e) -> forall e, Array_map callback arr <> Throw e.
Proof.
  intros Hc. induction arr as [|x arr IH]; intros e; cbn; [discriminate|].
  destruct (callback x) as [y|e'| |] eqn:E; cbn [bind]; try discriminate.
  - destruct (Array_map callback arr) as [ys|e'| |] eqn:E'; cbn [bind]; try discriminate.
    exfalso. exact (IH e' eq_refl).
  - exfalso. exact (Hc x e' E).
Qed.

Lemma getURLsFromHTML_no_throw html baseURL e :
  getURLsFromHTML anchorHrefs html baseURL <> Throw e.
Proof.
  unfold getURLsFromHTML.
  destruct (Array_map _ _) as [mapped|e'| |] eqn:E; cbn [bind]; try discriminate.
  exfalso. revert E. apply Array_map_no_throw. intros. apply resolveAnchor_no_throw.
Qed.

(** With a base and a current URL that parse, no call throws. *)
Lemma crawlPage_no_throw baseURL :
  is_Some (Url.URL_new baseURL) ->
  forall fuel currentURL pages out e,
    is_Some (Url.URL_new currentURL) ->
    crawlPage fetch anchorHrefs fuel baseURL currentURL pages out <> Throw e.
Proof.
  intros [b Hb]. induction fuel as [|fuel IH]; intros cur pages out e [c Hc];
    [discriminate|].
  rewrite crawlPage_unfold, Hc, Hb.
  destruct (negb (onsite baseURL cur)); [discriminate|].
  destruct (normalizeURL_parses cur) as [key ->]; [congruence|]. cbn [bind].
  destruct (0 <? pages !!! key); [discriminate|].
  destruct (fetchHTML fetch cur) as [message|html]; [discriminate|].
  destruct (getURLsFromHTML anchorHrefs html baseURL) as [[links lines]|e'| |] eqn:Eg;
    cbn [bind fst snd]; try discriminate.
  - apply forEach_no_throw. intros u Hin s e'. apply IH.
    eapply UrlFacts.links_parse; eauto.
  - exfalso. exact (getURLsFromHTML_no_throw _ _ _ Eg).
Qed.

End NoThrow.

(** ** Sorting *)

Local Open Scope Z_scope.

Section Sorting.

Context {A : Type} (compareFn : A -> A -> Z).

Lemma sort_insert_perm x l : Permutation (sort_insert compareFn x l) (x :: l).
Proof.
  induction l as [|y l IH]; cbn; [reflexivity|].
  destruct (compareFn x y <=? 0); [reflexivity|].
  rewrite IH. apply perm_swap.
Qed.

Lemma Array_sort_perm l : Permutation (Array_sort compareFn l) l.
Proof.
  induction l as [|x l IH]; cbn; [reflexivity|].
  rewrite sort_insert_perm. constructor. exact IH.
Qed.

Hypothesis consistent : consistentCompare compareFn.

Lemma compare_gt_le x y : ~ compareFn x y <= 0 -> compareFn y x <= 0.
Proof. intros H. pose proof (consistent_antisym _ consistent y x). lia. Qed.

Lemma compare_alike x y : compareFn x y <= 0 -> compareFn y x <= 0 -> compareFn x y = 0.
Proof. intros Hxy Hyx. pose proof (consistent_antisym _ consistent x y). lia. Qed.

Lemma sort_insert_ordered x l :
  StronglySorted (fun a b => compareFn a b <= 0) l ->
  StronglySorted (fun a b => compareFn a b <= 0) (sort_insert compareFn x l).
Proof.
  induction 1 as [|y l Hl IH Hy]; cbn; [repeat constructor|].
  destruct (Z.leb_spec (compareFn x y) 0) as [Hxy|Hxy].
  - constructor; [constructor; assumption|].
    constructor; [exact Hxy|].
    eapply List.Forall_impl; [|exact Hy]. intros z Hz. cbn in Hz.
    eapply (consistent_trans _ consistent); eauto.
  - constructor; [exact IH|].
    eapply Permutation_Forall; [symmetry; apply sort_insert_perm|].
    constructor; [apply compare_gt_le; lia | exact Hy].
Qed.

Lemma Array_sort_ordered l :
  StronglySorted (fun a b => compareFn a b <= 0) (Array_sort compareFn l).
Proof.
  induction l as [|x l IH]; cbn; [constructor|]. apply sort_insert_ordered, IH.
Qed.

(** Two insertions commute when the values inserted are not two different
    values that compare alike. *)
Lemma sort_insert_comm x y l :
  (compareFn x y = 0 -> x = y) ->
  sort_insert compareFn x (sort_insert compareFn y l) =
  sort_insert compareFn y (sort_insert compareFn x l).
Proof.
  intros Hapart.
  pose proof (consistent_antisym _ consistent x y) as Hanti.
  pose proof (consistent_trans _ consistent) as Htrans.
  induction l as [|z l IH]; cbn.
  - destruct (Z.leb_spec (compareFn x y) 0) as [Hxy|Hxy],
             (Z.leb_spec (compareFn y x) 0) as [Hyx|Hyx]; try reflexivity.
    + rewrite Hapart by (apply compare_alike; assumption). reflexivity.
    + lia.
  - destruct (Z.leb_spec (compareFn y z) 0) as [Hyz|Hyz],
             (Z.leb_spec (compareFn x z) 0) as [Hxz|Hxz]; cbn.
    + destruct (Z.leb_spec (compareFn x y) 0) as [Hxy|Hxy],
               (Z.leb_spec (compareFn y x) 0) as [Hyx|Hyx]; cbn.
      * rewrite Hapart by (apply compare_alike; assumption). reflexivity.
      * destruct (Z.leb_spec (compareFn y z) 0); [reflexivity | lia].
      * destruct (Z.leb_spec (compareFn x z) 0); [reflexivity | lia].
      * lia.
    + destruct (Z.leb_spec (compareFn x y) 0) as [Hxy|Hxy].
      * pose proof (Htrans x y z Hxy Hyz). lia.
      * cbn. destruct (Z.leb_spec (compareFn x z) 0); [lia|].
        destruct (Z.leb_spec (compareFn y z) 0); [reflexivity | lia].
    + destruct (Z.leb_spec (compareFn y x) 0) as [Hyx|Hyx].
      * pose proof (Htrans y x z Hyx Hxz). lia.
      * cbn. destruct (Z.leb_spec (compareFn y z) 0); [lia|].
        destruct (Z.leb_spec (compareFn x z) 0); [reflexivity | lia].
    + destruct (Z.leb_spec (compareFn x z) 0); [lia|].
      destruct (Z.leb_spec (compareFn y z) 0); [lia|]. rewrite IH. reflexivity.
Qed.

(** The sorted array does not depend on the order of the input, when no
    two different values of it compare alike. *)
Lemma Array_sort_permutation l l' :
  Permutation l l' ->
  (forall x y, In x l -> In y l -> compareFn x y = 0 -> x = y) ->
  Array_sort compareFn l = Array_sort compareFn l'.
Proof.
  unfold Array_sort.
  induction 1 as [|x l l' _ IH|x y l|l l' l'' H1 IH1 _ IH2]; intros Hapart; cbn.
  - reflexivity.
  - rewrite IH; [reflexivity|]. intros a b Ha Hb. apply Hapart; right; assumption.
  - apply sort_insert_comm. apply Hapart; cbn; auto.
  - rewrite IH1 by exact Hapart. apply IH2.
    intros a b Ha Hb.
    apply Hapart; apply (Permutation_in _ (Permutation_sym H1)); assumption.
Qed.

End Sorting.

Section ReportOrder.

Variable localeCompare : string -> string -> Z.
Hypothesis collation : consistentCompare localeCompare.

Lemma comparePages_consistent : consistentCompare (comparePages localeCompare).
Proof.
  destruct collation as [Hanti Htrans]. unfold comparePages. split.
  - intros [k1 n1] [k2 n2]. cbn.
    destruct (Nat.eqb_spec n2 n1) as [->|Hne].
    + rewrite Nat.eqb_refl. apply Hanti.
    + destruct (Nat.eqb_spec n1 n2); [congruence | lia].
  - intros [k1 n1] [k2 n2] [k3 n3]. cbn.
    destruct (Nat.eqb_spec n2 n1), (Nat.eqb_spec n3 n2), (Nat.eqb_spec n3 n1);
      try lia. apply Htrans.
Qed.

Lemma comparePages_upTo x y :
  comparePages localeCompare x y <= 0 <-> reportOrderUpTo localeCompare x y.
Proof.
  unfold comparePages, reportOrderUpTo. destruct x as [k1 n1], y as [k2 n2]. cbn.
  destruct (Nat.eqb_spec n2 n1) as [->|Hne]; [|lia].
  split; [auto | intros [H|[_ H]]; [lia | exact H]].
Qed.

Lemma comparePages_order x y :
  comparePages localeCompare x y < 0 <-> reportOrder localeCompare x y.
Proof.
  unfold comparePages, reportOrder. destruct x as [k1 n1], y as [k2 n2]. cbn.
  destruct (Nat.eqb_spec n2 n1) as [->|Hne]; [|lia].
  split; [auto | intros [H|[_ H]]; [lia | exact H]].
Qed.

Lemma sortPages_ordered (pages : gmap string nat) :
  StronglySorted (reportOrderUpTo localeCompare) (sortPages localeCompare pages).
Proof.
  pose proof (Array_sort_ordered _ comparePages_consistent (map_to_list pages)) as H.
  fold (sortEntries localeCompare (map_to_list pages)) in H.
  fold (sortPages localeCompare pages) in H.
  induction H as [|x l Hl IH Hx]; constructor; [exact IH|].
  eapply List.Forall_impl; [|exact Hx]. intros y. apply comparePages_upTo.
Qed.

(** No two different entries of a table whose keys the collation tells
    apart compare alike. *)
Lemma comparePages_apart (pages : gmap string nat) x y :
  tellsApart localeCompare pages ->
  In x (map_to_list pages) -> In y (map_to_list pages) ->
  comparePages localeCompare x y = 0 -> x = y.
Proof.
  intros Hapart Hx Hy. destruct x as [k1 n1], y as [k2 n2].
  apply list_elem_of_In, elem_of_map_to_list in Hx, Hy.
  unfold comparePages. cbn [fst snd].
  destruct (Nat.eqb_spec n2 n1) as [->|Hne]; [|lia].
  intros H. apply Hapart in H; [|eauto ..]. subst k2. reflexivity.
Qed.

Lemma sorted_strictly l :
  StronglySorted (fun a b => comparePages localeCompare a b <= 0) l ->
  List.NoDup l ->
  (forall x y, In x l -> In y l -> comparePages localeCompare x y = 0 -> x = y) ->
  StronglySorted (reportOrder localeCompare) l.
Proof.
  induction 1 as [|x l Hl IH Hx]; intros Hnd Hapart; [constructor|].
  inversion Hnd as [|? ? Hnotin Hnd']; subst.
  constructor; [apply IH; [exact Hnd'|]; intros a b Ha Hb; apply Hapart; right; assumption|].
  rewrite List.Forall_forall in *. intros y Hy.
  apply comparePages_order. specialize (Hx y Hy). cbn in Hx.
  destruct (Z.eq_dec (comparePages localeCompare x y) 0) as [E|E]; [|lia].
  apply Hapart in E; [|left; reflexivity | right; exact Hy]. subst. contradiction.
Qed.

Lemma sortPages_sorted_strictly (pages : gmap string nat) :
  tellsApart localeCompare pages ->
  StronglySorted (reportOrder localeCompare) (sortPages localeCompare pages).
Proof.
  intros Hapart.
  assert (Hperm : Permutation (sortPages localeCompare pages) (map_to_list pages))
    by apply Array_sort_perm.
  apply sorted_strictly.
  - apply Array_sort_ordered, comparePages_consistent.
  - eapply Permutation_NoDup; [symmetry; exact Hperm|].
    apply NoDup_ListNoDup, NoDup_map_to_list.
  - intros x y Hx Hy. apply (comparePages_apart pages); [exact Hapart | |];
      eapply Permutation_in; eauto.
Qed.

Lemma sortEntries_permutation (pages : gmap string nat) pagesArr :
  tellsApart localeCompare pages ->
  Permutation pagesArr (map_to_list pages) ->
  sortEntries localeCompare pagesArr = sortPages localeCompare pages.
Proof.
  intros Hapart Hperm. apply Array_sort_permutation;
    [apply comparePages_consistent | exact Hperm|].
  intros x y Hx Hy. apply (comparePages_apart pages); [exact Hapart | |];
    eapply Permutation_in; eauto.
Qed.

End ReportOrder.

(** ** The collation of the platform *)

Section CompareBy.

Variable weight : ascii -> N.

Lemma compareBy_antisym a : forall b,
  compareBy weight b a = CompOpp (compareBy weight a b).
Proof.
  induction a as [|x a IH]; intros [|y b]; cbn; try reflexivity.
  rewrite (N.compare_antisym (weight x) (weight y)).
  destruct (weight x ?= weight y)%N; cbn; auto.
Qed.

Lemma compareBy_Eq_l a : forall b c,
  compareBy weight a b = Eq -> compareBy weight a c = compareBy weight b c.
Proof.
  induction a as [|x a IH]; intros [|y b] [|z c]; cbn; intros H;
    try discriminate H; try reflexivity.
  destruct (weight x ?= weight y)%N eqn:E; try discriminate H.
  apply N.compare_eq_iff in E. rewrite E.
  destruct (weight y ?= weight z)%N; auto.
Qed.

Lemma compareBy_Eq_r a b c :
  compareBy weight b c = Eq -> compareBy weight a b = compareBy weight a c.
Proof.
  intros H. rewrite (compareBy_antisym b a), (compareBy_antisym c a).
  f_equal. apply compareBy_Eq_l. exact H.
Qed.

Lemma compareBy_Lt_trans a : forall b c,
  compareBy weight a b = Lt -> compareBy weight b c = Lt -> compareBy weight a c = Lt.
Proof.
  induction a as [|x a IH]; intros [|y b] [|z c]; cbn; try discriminate; try reflexivity.
  destruct (N.compare_spec (weight x) (weight y)) as [Exy|Exy|Exy]; try discriminate;
    destruct (N.compare_spec (weight y) (weight z)) as [Eyz|Eyz|Eyz]; try discriminate.
  - rewrite Exy, Eyz, N.compare_refl. apply IH.
  - intros _ _. rewrite Exy. apply N.compare_lt_iff in Eyz. rewrite Eyz. reflexivity.
  - intros _ _. rewrite <- Eyz. apply N.compare_lt_iff in Exy. rewrite Exy. reflexivity.
  - intros _ _. assert (weight x < weight z)%N as H by lia.
    apply N.compare_lt_iff in H. rewrite H. reflexivity.
Qed.

Lemma compareBy_le_trans a b c :
  compareBy weight a b <> Gt -> compareBy weight b c <> Gt ->
  compareBy weight a c <> Gt.
Proof.
  intros Hab Hbc.
  destruct (compareBy weight a b) eqn:E1; [| |congruence].
  - rewrite (compareBy_Eq_l a b c E1). exact Hbc.
  - destruct (compareBy weight b c) eqn:E2; [| |congruence].
    + rewrite <- (compareBy_Eq_r a b c E2), E1. discriminate.
    + rewrite (compareBy_Lt_trans a b c E1 E2). discriminate.
Qed.

End CompareBy.

Lemma rootCompare_consistent : consistentCompare rootCompare.
Proof.
  unfold rootCompare. split.
  - intros x y.
    rewrite (compareBy_antisym rootWeight x y), (compareBy_antisym caseWeight x y).
    destruct (compareBy rootWeight x y); cbn; [|lia ..].
    destruct (compareBy caseWeight x y); cbn; lia.
  - intros x y z.
    destruct (compareBy rootWeight x y) eqn:E1; [| |lia].
    + rewrite (compareBy_Eq_l rootWeight x y z E1).
      destruct (compareBy rootWeight y z) eqn:E2; [|lia ..].
      pose proof (compareBy_le_trans caseWeight x y z) as H.
      destruct (compareBy caseWeight x y), (compareBy caseWeight y z),
        (compareBy caseWeight x z); try lia; exfalso; apply H; congruence.
    + intros _. destruct (compareBy rootWeight y z) eqn:E2; [| |lia].
      * rewrite <- (compareBy_Eq_r rootWeight x y z E2), E1. lia.
      * rewrite (compareBy_Lt_trans rootWeight x y z E1 E2). lia.
Qed.

Local Open Scope nat_scope.

(** * The claims *)

Import StrFacts UrlFacts KeyFacts CaseFacts.

(** C1.  The site of [protoWeb] crawled from page [a]: pages [a] and [b],
    both visited, each hold a link to the front page, whose key is
    [__proto__].  The front page is fetched twice, once for each of the two
    links, and the table the crawl returns has no count for its key: the
    test [pages[key] > 0] never finds the key, which the assignment
    [pages[key] = 1] did not store. *)
Theorem proto_page_is_fetched_at_each_link :
  exists pages out,
    crawl protoWeb wordsOf 4 "http://__proto__/a" = Ok (pages, out) /\
    normalizeURL "http://__proto__/" = Ok "__proto__" /\
    hits "http://__proto__/a" "__proto__"
      (discovered protoWeb wordsOf "http://__proto__/a" out) = 2 /\
    fetches "__proto__" out = 2 /\
    pages !! "__proto__" = None /\
    pages !! "__proto__/a" = Some 1 /\
    pages !! "__proto__/b" = Some 1.
Proof.
  eexists _, _. split; [vm_compute; reflexivity|].
  repeat split; vm_compute; reflexivity.
Qed.

(** C2, amended.  On a finite link graph, cycles included, none of whose
    pages has the key [__proto__], the crawl returns, and returns the same
    table and events, whenever the depth allowed exceeds the number of keys
    of the site by more than one: a key is in the table before its page is
    fetched, so each nested call that fetches finds a key not yet counted.
    The final count of a key is the number of discovered links to it on the
    seed's host, plus one for the seed's own key, which the first call
    counts. *)
Theorem crawl_returns_on_finite_site
    (fetch : string -> fetched) (anchorHrefs : string -> list string)
    (seed : string) (keys : gset string) :
  is_Some (Url.URL_new seed) ->
  siteWithin fetch anchorHrefs seed keys ->
  "__proto__" ∉ keys ->
  normalizeURL seed <> Ok "__proto__" ->
  exists pages out,
    (forall fuel,
        size keys + 1 < fuel ->
        crawl fetch anchorHrefs fuel seed = Ok (pages, out)) /\
    (forall key,
        pages !!! key =
        hits seed key [seed]
        + hits seed key (discovered fetch anchorHrefs seed out)).
Proof.
  intros Hseed Hsite Hproto Hne.
  destruct (crawl_result fetch anchorHrefs seed keys Hseed Hsite Hproto Hne)
    as [[pages out] Hrun].
  exists pages, out. split; [exact Hrun|].
  destruct (crawl_run fetch anchorHrefs (size keys + 2) seed pages out)
    as (Hcount & _ & [Habs _] & _); [apply Hrun; lia|].
  intros key. destruct (decide (key = "__proto__")) as [->|Hkey]; [|auto].
  rewrite (lookup_total_absent _ _ Habs), (hits_other _ _ Hne).
  rewrite (siteWithin_no_proto fetch anchorHrefs seed keys out Hsite Hproto).
  reflexivity.
Qed.

(** The site of [cycleWeb] has two keys. *)
Lemma cycleWeb_site :
  siteWithin cycleWeb wordsOf "http://site.test/a" {[ "site.test/a"; "site.test/b" ]}.
Proof.
  intros url html Hf. unfold fetchHTML, cycleWeb in Hf.
  destruct (String.eqb_spec url "http://site.test/a") as [->|_].
  { vm_compute in Hf. injection Hf as <-.
    eexists _, _. split; [vm_compute; reflexivity|].
    intros link key [<-|[]] _ Hk. vm_compute in Hk. injection Hk as <-. set_solver. }
  destruct (String.eqb_spec url "http://site.test/b") as [->|_].
  { vm_compute in Hf. injection Hf as <-.
    eexists _, _. split; [vm_compute; reflexivity|].
    intros link key [<-|[]] _ Hk. vm_compute in Hk. injection Hk as <-. set_solver. }
  discriminate.
Qed.

(** C2, amended, on the cycle between [a] and [b]. *)
Lemma crawl_returns_on_finite_site_witness :
  exists pages out,
    (forall fuel,
        size ({[ "site.test/a"; "site.test/b" ]} : gset string) + 1 < fuel ->
        crawl cycleWeb wordsOf fuel "http://site.test/a" = Ok (pages, out)) /\
    (forall key,
        pages !!! key =
        hits "http://site.test/a" key ["http://site.test/a"]
        + hits "http://site.test/a" key
            (discovered cycleWeb wordsOf "http://site.test/a" out)).
Proof.
  apply (crawl_returns_on_finite_site cycleWeb wordsOf "http://site.test/a"
           {[ "site.test/a"; "site.test/b" ]}).
  - vm_compute. eauto.
  - exact cycleWeb_site.
  - vm_compute. intros H. discriminate H.
  - vm_compute. discriminate.
Defined.

(** C2 as stated fails on the cycle crawled from [a]: one link to [a] is
    discovered, on page [b], and the count of [a] is 2. *)
Lemma cycle_seed_count_exceeds_its_links :
  exists pages out,
    crawl cycleWeb wordsOf 4 "http://site.test/a" = Ok (pages, out) /\
    pages !!! "site.test/a" = 2 /\
    hits "http://site.test/a" "site.test/a"
      (discovered cycleWeb wordsOf "http://site.test/a" out) = 1 /\
    pages !!! "site.test/b" = 1.
Proof.
  eexists _, _. split; [vm_compute; reflexivity|].
  repeat split; vm_compute; reflexivity.
Qed.

(** C3, amended.  [normalizeURL] is not idempotent.  On a URL of one of
    the schemes [http], [https], [ws], [wss] and [ftp] with a domain name
    for host, the URLs the model parses, it returns a key; the key has no
    scheme, so [new URL] throws on it, and so does [normalizeURL]. *)
Theorem normalizeURL_rejects_its_keys (url : string) (u : Url.t) :
  Url.URL_new url = Some u ->
  exists key,
    normalizeURL url = Ok key /\ normalizeURL key = Throw InvalidURL.
Proof.
  intros E. exists (keyOf (Url.hostname u) (Url.pathname u)).
  split; [rewrite normalizeURL_keyOf, E; reflexivity|].
  apply normalizeURL_rejected, keyOf_is_rejected. eapply URL_new_wf; eauto.
Qed.

(** C3, amended, on the key of [https://example.com/path]. *)
Lemma normalizeURL_rejects_its_keys_witness :
  is_Some (Url.URL_new "https://example.com/path") /\
  exists key,
    normalizeURL "https://example.com/path" = Ok key /\
    normalizeURL key = Throw InvalidURL.
Proof.
  split; [vm_compute; eauto|].
  eapply (normalizeURL_rejects_its_keys "https://example.com/path").
  vm_compute. reflexivity.
Defined.

(** C3 as stated fails: [normalizeURL] returns the key
    [example.com/path] on [https://example.com/path], and throws on that
    key. *)
Lemma normalizeURL_not_idempotent :
  normalizeURL "https://example.com/path" = Ok "example.com/path" /\
  normalizeURL "example.com/path" = Throw InvalidURL.
Proof. split; vm_compute; reflexivity. Qed.

(** C4, amended.  [normalizeURL] reads the hostname and the pathname only:
    the query string and the fragment are not part of the key, and two URLs
    that differ only after their first [?], or only after their first [#],
    have the same key (or the constructor throws on both). *)
Theorem normalizeURL_drops_query_and_fragment :
  (forall front query1 query2,
      normalizeURL (front +:+ String "?" query1) =
      normalizeURL (front +:+ String "?" query2)) /\
  (forall front fragment1 fragment2,
      normalizeURL (front +:+ String "#" fragment1) =
      normalizeURL (front +:+ String "#" fragment2)).
Proof.
  split; intros; apply normalizeURL_keyParts;
    [apply keyParts_before | apply rejects_before
    |apply keyParts_before | apply rejects_before]; reflexivity.
Qed.

(** C4 as stated fails: the two URLs of the claim, which differ only in
    their query strings, have the same key. *)
Lemma normalizeURL_same_key_for_two_queries :
  normalizeURL "https://example.com/p?a=1" = Ok "example.com/p" /\
  normalizeURL "https://example.com/p?a=2" = Ok "example.com/p" /\
  ~ (normalizeURL "https://example.com/p?a=1"
     <> normalizeURL "https://example.com/p?a=2").
Proof.
  split; [vm_compute; reflexivity|]. split; [vm_compute; reflexivity|].
  intros H. apply H. vm_compute. reflexivity.
Qed.

(** C5, amended.  Two URLs have the same key when they differ only in the
    scheme ([http] or [https]); only in one leading [www.] label of the
    host, the rest of the host not starting with [www.] itself; only in one
    trailing slash of the path, the rest of the path not ending with a slash
    itself; or, for a URL the model parses, one of the schemes [http],
    [https], [ws], [wss] and [ftp] with a domain name for host, only in the
    case of their ASCII letters.  In particular
    [https://WWW.Example.com/Path/] and [http://example.com/path/] have the
    same key. *)
Theorem normalizeURL_folds_scheme_www_slash_case :
  (forall rest, normalizeURL ("http:" +:+ rest) = normalizeURL ("https:" +:+ rest)) /\
  (forall url1 url2 u1 u2,
      Url.URL_new url1 = Some u1 -> Url.URL_new url2 = Some u2 ->
      Url.hostname u1 = "www." +:+ Url.hostname u2 ->
      Url.pathname u1 = Url.pathname u2 ->
      Str.startsWith "www." (Url.hostname u2) = false ->
      normalizeURL url1 = normalizeURL url2) /\
  (forall url1 url2 u1 u2,
      Url.URL_new url1 = Some u1 -> Url.URL_new url2 = Some u2 ->
      Url.hostname u1 = Url.hostname u2 ->
      Url.pathname u1 = Url.pathname u2 +:+ "/" ->
      Str.endsWith "/" (Url.pathname u2) = false ->
      normalizeURL url1 = normalizeURL url2) /\
  (forall url1 url2,
      is_Some (Url.URL_new url1) ->
      Str.toLowerCase url1 = Str.toLowerCase url2 ->
      exists key, normalizeURL url1 = Ok key /\ normalizeURL url2 = Ok key) /\
  normalizeURL "https://WWW.Example.com/Path/" = Ok "example.com/path" /\
  normalizeURL "http://example.com/path/" = Ok "example.com/path".
Proof.
  split; [|split; [|split; [|split; [|split]]]].
  - intros rest. apply normalizeURL_keyParts.
    + apply (keyParts_scheme "http" "https"); vm_compute; eauto.
    + apply (rejects_scheme "http" "https"); vm_compute; eauto.
  - intros url1 url2 u1 u2 E1 E2 Hh Hp Hw.
    rewrite !normalizeURL_keyOf, E1, E2.
    rewrite Hh, Hp, keyOf_www by exact Hw. reflexivity.
  - intros url1 url2 u1 u2 E1 E2 Hh Hp Hs.
    rewrite !normalizeURL_keyOf, E1, E2.
    rewrite Hh, Hp, keyOf_slash by exact Hs. reflexivity.
  - intros url1 url2 [u1 E1] H.
    exists (keyOf (Url.hostname u1) (Url.pathname u1)).
    assert (Hk : normalizeURL url1 = Ok (keyOf (Url.hostname u1) (Url.pathname u1)))
      by (rewrite normalizeURL_keyOf, E1; reflexivity).
    split; [exact Hk|].
    rewrite <- (normalizeURL_lower url2), <- H, normalizeURL_lower. exact Hk.
  - vm_compute. reflexivity.
  - vm_compute. reflexivity.
Qed.

(** C5, amended, on a [www.] label, a trailing slash and upper case. *)
Lemma normalizeURL_folds_scheme_www_slash_case_witness :
  normalizeURL "http://www.example.com/a" = normalizeURL "http://example.com/a" /\
  normalizeURL "http://example.com/a/" = normalizeURL "http://example.com/a" /\
  exists key,
    normalizeURL "HTTP://Example.COM/A" = Ok key /\
    normalizeURL "http://example.com/a" = Ok key.
Proof.
  pose proof normalizeURL_folds_scheme_www_slash_case as (_ & Hwww & Hslash & Hcase & _).
  split; [|split].
  - eapply Hwww; vm_compute; reflexivity.
  - eapply Hslash; vm_compute; reflexivity.
  - apply Hcase; [vm_compute; eauto | vm_compute; reflexivity].
Defined.

(** C5 as stated fails: one [www.] label and one trailing slash are
    removed, not all.  The first pair of URLs differs only in a leading
    [www.] label, the second only in one trailing slash, and their keys
    differ. *)
Lemma normalizeURL_folds_one_www_one_slash :
  (exists u1 u2,
      Url.URL_new "http://www.www.example.com/" = Some u1 /\
      Url.URL_new "http://www.example.com/" = Some u2 /\
      Url.hostname u1 = "www." +:+ Url.hostname u2 /\
      Url.pathname u1 = Url.pathname u2 /\
      normalizeURL "http://www.www.example.com/" = Ok "www.example.com" /\
      normalizeURL "http://www.example.com/" = Ok "example.com") /\
  (exists u1 u2,
      Url.URL_new "http://example.com/a//" = Some u1 /\
      Url.URL_new "http://example.com/a/" = Some u2 /\
      Url.hostname u1 = Url.hostname u2 /\
      Url.pathname u1 = Url.pathname u2 +:+ "/" /\
      normalizeURL "http://example.com/a//" = Ok "example.com/a/" /\
      normalizeURL "http://example.com/a/" = Ok "example.com/a").
Proof.
  split; eexists _, _; (split; [vm_compute; reflexivity|]);
    (split; [vm_compute; reflexivity|]); repeat split; vm_compute; reflexivity.
Qed.

(** C6.  A call of [crawlPage] on a URL whose hostname is not the very
    hostname of the seed returns at once: the table and the events are
    unchanged, so no key is inserted, nothing is fetched and no link is
    followed.  So every key of the table a run returns is the key of a URL,
    the seed or a discovered link, whose hostname is the seed's. *)
Theorem offsite_urls_are_skipped
    (fetch : string -> fetched) (anchorHrefs : string -> list string) :
  (forall fuel baseURL currentURL currentURLObj baseURLObj pages out,
      Url.URL_new currentURL = Some currentURLObj ->
      Url.URL_new baseURL = Some baseURLObj ->
      Url.hostname currentURLObj <> Url.hostname baseURLObj ->
      crawlPage fetch anchorHrefs (S fuel) baseURL currentURL pages out =
      Ok (pages, out)) /\
  (forall fuel seed pages out key,
      crawl fetch anchorHrefs fuel seed = Ok (pages, out) ->
      is_Some (pages !! key) ->
      exists url urlObj seedObj,
        In url (seed :: discovered fetch anchorHrefs seed out) /\
        Url.URL_new url = Some urlObj /\
        Url.URL_new seed = Some seedObj /\
        Url.hostname urlObj = Url.hostname seedObj /\
        normalizeURL url = Ok key).
Proof.
  split.
  - intros fuel baseURL cur c b pages out Hc Hb Hne.
    cbn [crawlPage]. unfold newURL. rewrite Hc, Hb. cbn [bind].
    destruct (String.eqb_spec (Url.hostname c) (Url.hostname b)); [contradiction|].
    reflexivity.
  - intros fuel seed pages out key Hrun Hkey.
    destruct (crawl_run fetch anchorHrefs fuel seed pages out Hrun) as (_ & _ & _ & _ & Ho).
    destruct (count_pos_In _ _ (Ho key Hkey)) as (url & Hin & Hv).
    unfold visits, onsite in Hv. apply andb_true_iff in Hv as [Hon Hk].
    apply bool_decide_eq_true in Hk.
    destruct (Url.URL_new url) as [c|] eqn:Ec; [|discriminate].
    destruct (Url.URL_new seed) as [b|] eqn:Eb; [|discriminate].
    apply String.eqb_eq in Hon. exists url, c, b. repeat split; assumption.
Qed.

(** C6 on a URL whose hostname differs from the seed's by a [www.] label
    only, and on the run over [diamondWeb]. *)
Lemma offsite_urls_are_skipped_witness :
  crawlPage diamondWeb wordsOf 1 "http://site.test/" "http://www.site.test/a" ∅ []
  = Ok (∅, []) /\
  exists pages out,
    crawl diamondWeb wordsOf 3 "http://site.test/" = Ok (pages, out) /\
    exists url urlObj seedObj,
      In url ("http://site.test/"
                :: discovered diamondWeb wordsOf "http://site.test/" out) /\
      Url.URL_new url = Some urlObj /\
      Url.URL_new "http://site.test/" = Some seedObj /\
      Url.hostname urlObj = Url.hostname seedObj /\
      normalizeURL url = Ok "site.test/c".
Proof.
  split.
  - eapply (proj1 (offsite_urls_are_skipped diamondWeb wordsOf));
      [vm_compute; reflexivity | vm_compute; reflexivity | vm_compute; discriminate].
  - eexists _, _. split; [vm_compute; reflexivity|].
    eapply (proj2 (offsite_urls_are_skipped diamondWeb wordsOf) 3 "http://site.test/").
    + vm_compute. reflexivity.
    + vm_compute. eauto.
Defined.

(** C7.  The site of [protoGoneWeb]: the front page, whose key is
    [__proto__], answers 404.  The crawl requests it, prints the error and
    returns, and the table it returns is empty: the key of the page whose
    fetch failed is not recorded. *)
Theorem failed_proto_page_is_not_recorded :
  fetchHTML protoGoneWeb "http://__proto__/" = inl "Got HTTP error: 404 Not Found" /\
  normalizeURL "http://__proto__/" = Ok "__proto__" /\
  crawl protoGoneWeb wordsOf 1 "http://__proto__/" =
  Ok (∅, [Log "crawling http://__proto__/"; Fetch "http://__proto__/";
          Log "Got HTTP error: 404 Not Found"]).
Proof. repeat split; vm_compute; reflexivity. Qed.

(** C8.  When [new URL] throws on the current URL, or on the base URL
    after the current URL was parsed, [crawlPage] throws; a throw of the
    call on a link ends the loop of the parent with the same throw; and a
    call of [crawlPage] whose current URL and base URL parse does not
    throw.  Every link [getURLsFromHTML] returns parses, so a crawl whose
    seed parses never throws, whatever the pages answer. *)
Theorem only_a_malformed_url_fails_the_crawl
    (fetch : string -> fetched) (anchorHrefs : string -> list string) :
  (forall fuel baseURL currentURL pages out,
      Url.rejects currentURL = true \/
      (is_Some (Url.URL_new currentURL) /\ Url.rejects baseURL = true) ->
      crawlPage fetch anchorHrefs (S fuel) baseURL currentURL pages out =
      Throw InvalidURL) /\
  (forall fuel baseURL nextURL rest st e,
      crawlPage fetch anchorHrefs fuel baseURL nextURL (fst st) (snd st) = Throw e ->
      forEach (fun nextURL st =>
                 crawlPage fetch anchorHrefs fuel baseURL nextURL (fst st) (snd st))
        (nextURL :: rest) st = Throw e) /\
  (forall fuel baseURL currentURL pages out e,
      is_Some (Url.URL_new currentURL) ->
      is_Some (Url.URL_new baseURL) ->
      crawlPage fetch anchorHrefs fuel baseURL currentURL pages out <> Throw e) /\
  (forall html baseURL links lines link,
      getURLsFromHTML anchorHrefs html baseURL = Ok (links, lines) ->
      In link links ->
      is_Some (Url.URL_new link)) /\
  (forall fuel seed e,
      is_Some (Url.URL_new seed) -> crawl fetch anchorHrefs fuel seed <> Throw e).
Proof.
  split; [|split; [|split; [|split]]].
  - intros fuel baseURL cur pages out H. rewrite crawlPage_unfold.
    destruct H as [H|[[c Hc] H]].
    + rewrite (rejects_sound _ H), H. reflexivity.
    + rewrite Hc, (rejects_sound _ H), H. reflexivity.
  - intros fuel baseURL u rest st e H. cbn [forEach]. rewrite H. reflexivity.
  - intros fuel baseURL cur pages out e Hc Hb. apply crawlPage_no_throw; assumption.
  - intros html baseURL links lines link. apply links_parse.
  - intros fuel seed e H. apply crawlPage_no_throw; exact H.
Qed.

(** C8 on [brokenWeb] and on URLs without a scheme. *)
Lemma only_a_malformed_url_fails_the_crawl_witness :
  crawlPage brokenWeb wordsOf 1 "http://site.test/" "site.test/gone" ∅ [] =
    Throw InvalidURL /\
  forEach (fun nextURL st =>
             crawlPage brokenWeb wordsOf 1 "http://site.test/" nextURL (fst st) (snd st))
    ["site.test/gone"; "http://site.test/fine"] (∅, []) = Throw InvalidURL /\
  crawlPage brokenWeb wordsOf 2 "http://site.test/" "http://site.test/fine" ∅ []
    <> Throw InvalidURL /\
  is_Some (Url.URL_new "http://site.test/gone") /\
  crawl brokenWeb wordsOf 3 "http://site.test/" <> Throw InvalidURL.
Proof.
  pose proof (only_a_malformed_url_fails_the_crawl brokenWeb wordsOf)
    as (Hthrow & Hloop & Honly & Hlinks & Hseed).
  split; [|split; [|split; [|split]]].
  - apply Hthrow. left. vm_compute. reflexivity.
  - apply Hloop. vm_compute. reflexivity.
  - apply Honly; vm_compute; eauto.
  - apply (Hlinks "/gone /fine" "http://site.test/"
             ["http://site.test/gone"; "http://site.test/fine"] []).
    + vm_compute. reflexivity.
    + left. reflexivity.
  - apply Hseed. vm_compute. eauto.
Defined.

(** C10.  When a call of [crawlPage] returns, every key of the table it
    was given is in the table it returns with a count at least as large, and
    every count of the table it returns is positive or is the count the
    table had for that key when it was given: the counts of a table that
    starts with positive counts, as the empty table of a run does, stay
    positive. *)
Theorem visit_table_only_grows
    (fetch : string -> fetched) (anchorHrefs : string -> list string)
    (fuel : nat) (baseURL currentURL : string)
    (pages pages' : gmap string nat) (out out' : list event) :
  crawlPage fetch anchorHrefs fuel baseURL currentURL pages out = Ok (pages', out') ->
  (forall key n, pages !! key = Some n ->
                 exists n', pages' !! key = Some n' /\ n <= n') /\
  (forall key n', pages' !! key = Some n' ->
                  0 < n' \/ pages !! key = Some n') /\
  (positiveCounts pages -> positiveCounts pages').
Proof.
  intros H. apply crawlPage_summary in H.
  destruct H as (new & _ & Hc & _ & _ & Hk & Hp & _). cbn [fst snd] in *.
  split; [|split; [exact Hp|]].
  - intros key n Hn. destruct (Hk key) as [n' Hn']; [eauto|].
    exists n'. split; [exact Hn'|].
    specialize (Hc key (or_intror (ex_intro _ n Hn))).
    rewrite !lookup_total_alt, Hn, Hn' in Hc. cbn in Hc. lia.
  - intros Hpos key n' Hn'. destruct (Hp key n' Hn') as [Hlt|Hi]; [exact Hlt|].
    exact (Hpos key n' Hi).
Qed.

(** C10 on a revisit of [c]. *)
Lemma visit_table_only_grows_witness :
  (forall key n, ({[ "site.test/c" := 1 ]} : gmap string nat) !! key = Some n ->
     exists n', (<["site.test/c" := 2]> {[ "site.test/c" := 1 ]} : gmap string nat)
                  !! key = Some n' /\ n <= n') /\
  (forall key n',
     (<["site.test/c" := 2]> {[ "site.test/c" := 1 ]} : gmap string nat)
       !! key = Some n' ->
     0 < n' \/ ({[ "site.test/c" := 1 ]} : gmap string nat) !! key = Some n') /\
  (positiveCounts {[ "site.test/c" := 1 ]} ->
   positiveCounts (<["site.test/c" := 2]> {[ "site.test/c" := 1 ]})).
Proof.
  apply (visit_table_only_grows diamondWeb wordsOf 1 "http://site.test/"
           "http://site.test/c" _ _ [] []).
  vm_compute. reflexivity.
Defined.

Local Open Scope Z_scope.

(** C9, amended.  [sortPages] returns the entries of the table, each
    once, with the larger counts first and, among equal counts, the keys in
    the ascending order of the platform's collation, [localeCompare], which
    is not the lexicographic order of the code units.  For a collation that
    is consistent and finds no two different keys of the table alike, the
    order is strict, and the result is the same whatever the order in which
    the entries of the table are listed.  For the table [{a: 2, b: 2}], [a]
    comes first. *)
Theorem sortPages_orders_the_report
    (localeCompare : string -> string -> Z) (pages : gmap string nat) :
  consistentCompare localeCompare ->
  tellsApart localeCompare pages ->
  (StronglySorted (reportOrder localeCompare) (sortPages localeCompare pages) /\
   Permutation (sortPages localeCompare pages) (map_to_list pages) /\
   (forall pagesArr,
       Permutation pagesArr (map_to_list pages) ->
       sortEntries localeCompare pagesArr = sortPages localeCompare pages)) /\
  (sortEntries rootCompare [("a", 2%nat); ("b", 2%nat)] = [("a", 2%nat); ("b", 2%nat)] /\
   sortEntries rootCompare [("b", 2%nat); ("a", 2%nat)] = [("a", 2%nat); ("b", 2%nat)] /\
   sortPages rootCompare (<["a" := 2%nat]> (<["b" := 2%nat]> ∅))
     = [("a", 2%nat); ("b", 2%nat)]).
Proof.
  intros Hcollation Hapart. split.
  - split; [apply sortPages_sorted_strictly; assumption|].
    split; [apply Array_sort_perm|].
    intros pagesArr Hperm. apply sortEntries_permutation; assumption.
  - repeat split; vm_compute; reflexivity.
Qed.

(** The collation of the platform tells [a] and [b] apart. *)
Lemma rootCompare_tells_a_b_apart :
  tellsApart rootCompare (<["a" := 2%nat]> (<["b" := 2%nat]> ∅)).
Proof.
  assert (Hkeys : forall k v,
            (<["a" := 2%nat]> (<["b" := 2%nat]> ∅) : gmap string nat) !! k = Some v ->
            k = "a" \/ k = "b").
  { intros k v Hk.
    apply lookup_insert_Some in Hk as [[<- _]|[_ Hk]]; [auto|].
    apply lookup_insert_Some in Hk as [[<- _]|[_ Hk]]; [auto|].
    rewrite lookup_empty in Hk. discriminate Hk. }
  intros x y [n Hx] [m Hy] H.
  destruct (Hkeys _ _ Hx) as [->| ->], (Hkeys _ _ Hy) as [->| ->];
    try reflexivity; vm_compute in H; discriminate H.
Qed.

(** C9, amended, with the collation of the platform. *)
Lemma sortPages_orders_the_report_witness :
  StronglySorted (reportOrder rootCompare)
    (sortPages rootCompare (<["a" := 2%nat]> (<["b" := 2%nat]> ∅))) /\
  sortPages rootCompare (<["a" := 2%nat]> (<["b" := 2%nat]> ∅))
    = [("a", 2%nat); ("b", 2%nat)].
Proof.
  destruct (sortPages_orders_the_report rootCompare
              (<["a" := 2%nat]> (<["b" := 2%nat]> ∅))
              rootCompare_consistent rootCompare_tells_a_b_apart)
    as ((Hsorted & _ & _) & (_ & _ & Hab)).
  split; [exact Hsorted | exact Hab].
Defined.

(** C9 as stated fails: of the keys [a.b] and [a_b], with equal counts,
    [sortPages] puts [a_b] first, and [a.b] is the first in the
    lexicographic order. *)
Lemma sortPages_puts_a_b_before_a_dot_b :
  sortPages rootCompare (<["a.b" := 1%nat]> (<["a_b" := 1%nat]> ∅))
    = [("a_b", 1%nat); ("a.b", 1%nat)] /\
  codeUnitCompare "a.b" "a_b" = -1.
Proof. split; vm_compute; reflexivity. Qed.

Local Open Scope nat_scope.

(** * Further properties

    Properties of the code beyond the claims: of [normalizeURL],
    [getURLsFromHTML], [fetchHTML], [crawlPage], [printReport] and
    [sortPages]. *)

(** ** Requests of a run *)

Lemma announced_app_both o2 :
  announced o2 = true ->
  forall o1,
    (announced o1 = true -> announced (o1 ++ o2) = true) /\
    (forall line, announced (Log line :: o1) = true ->
                  announced (Log line :: o1 ++ o2) = true).
Proof.
  intros H2. induction o1 as [|e o1 [IH1 IH2]].
  - split; [intros _; exact H2|]. intros line _. cbn [app].
    destruct o2 as [|[l|u] o2]; [reflexivity | exact H2 | discriminate H2].
  - split.
    + destruct e as [l|u]; [apply IH2 | discriminate].
    + intros line. destruct e as [l|u].
      * change (announced (Log l :: o1) = true ->
                announced (Log l :: o1 ++ o2) = true). apply IH2.
      * change (String.eqb line ("crawling " +:+ u) && announced o1 = true ->
                String.eqb line ("crawling " +:+ u) && announced (o1 ++ o2) = true).
        intros [-> H]%andb_true_iff. rewrite (IH1 H). reflexivity.
Qed.

Lemma announced_app o1 o2 :
  announced o1 = true -> announced o2 = true -> announced (o1 ++ o2) = true.
Proof. intros H1 H2. apply (announced_app_both o2 H2 o1). exact H1. Qed.

Lemma logs_announced o :
  Forall (fun e => exists line, e = Log line) o -> announced o = true.
Proof.
  induction 1 as [|e o [line ->] Hrest IH]; [reflexivity|].
  destruct Hrest as [|e' o' [line' ->] _]; [reflexivity | exact IH].
Qed.

Lemma logs_requests o :
  Forall (fun e => exists line, e = Log line) o -> requests o = 0.
Proof. induction 1 as [|e o [line ->] _ IH]; [reflexivity | exact IH]. Qed.

Lemma logs_no_fetch o url :
  Forall (fun e => exists line, e = Log line) o -> ~ In (Fetch url) o.
Proof.
  intros H Hin. rewrite List.Forall_forall in H.
  destruct (H _ Hin) as [line Hline]. discriminate.
Qed.

Section Requests.

Variable fetch : string -> fetched.
Variable anchorHrefs : string -> list string.

Lemma discovered_enter baseURL line url html links lines rest :
  fetchHTML fetch url = inr html ->
  getURLsFromHTML anchorHrefs html baseURL = Ok (links, lines) ->
  discovered fetch anchorHrefs baseURL ([Log line; Fetch url] ++ lines ++ rest)
  = links ++ discovered fetch anchorHrefs baseURL rest.
Proof.
  intros Hf Hg. rewrite !discovered_app.
  rewrite (logs_discovered _ _ _ _ (diagnostics_logs anchorHrefs html baseURL _ _ Hg)).
  cbn. rewrite Hf, Hg, List.app_nil_r. reflexivity.
Qed.

Lemma crawls_inScope baseURL :
  (forall u st st', crawls fetch anchorHrefs baseURL u st st' ->
                    inScope fetch anchorHrefs baseURL [u] st st') /\
  (forall urls st st', crawlsEach fetch anchorHrefs baseURL urls st st' ->
                       inScope fetch anchorHrefs baseURL urls st st').
Proof.
  apply crawls_mutual.
  - intros u pages out _ _ _. exists []. cbn. rewrite List.app_nil_r.
    split; [reflexivity|]. split; [reflexivity|]. intros url [].
  - intros u key pages out _ _ _. exists []. cbn. rewrite List.app_nil_r.
    split; [reflexivity|]. split; [reflexivity|]. intros url [].
  - intros u key message pages out Hon _ _ _.
    exists ([Log ("crawling " +:+ u); Fetch u] ++ [Log message]). cbn [fst snd].
    split; [rewrite <- List.app_assoc; reflexivity|].
    split; [cbn; rewrite String.eqb_refl; reflexivity|].
    intros url [H|[H|[H|[]]]]; try discriminate. injection H as <-.
    split; [exact Hon | left; reflexivity].
  - intros u key html links lines pages out st Hon _ _ Hf Hg _ (new & Hnew & Hann & Hreq).
    cbn [fst snd] in Hnew.
    exists ([Log ("crawling " +:+ u); Fetch u] ++ lines ++ new).
    cbn [fst snd]. split; [rewrite Hnew, <- !List.app_assoc; reflexivity|].
    pose proof (diagnostics_logs anchorHrefs html baseURL _ _ Hg) as Hlogs.
    split.
    + change (String.eqb ("crawling " +:+ u) ("crawling " +:+ u)
              && announced (lines ++ new) = true).
      rewrite String.eqb_refl. apply announced_app; [apply logs_announced, Hlogs | exact Hann].
    + rewrite (discovered_enter _ _ _ _ _ _ _ Hf Hg).
      intros url [H|[H|H]]; [discriminate| |].
      * injection H as <-. split; [exact Hon | left; reflexivity].
      * cbn [app] in H.
        apply in_app_or in H as [H|H]; [destruct (logs_no_fetch _ _ Hlogs H)|].
        destruct (Hreq url H) as [Hon' Hin]. split; [exact Hon'|]. right. exact Hin.
  - intros st. exists []. cbn. rewrite List.app_nil_r.
    split; [reflexivity|]. split; [reflexivity|]. intros url [].
  - intros u rest st st' st'' _ (n1 & H1 & A1 & R1) _ (n2 & H2 & A2 & R2).
    exists (n1 ++ n2). split; [rewrite H2, H1, List.app_assoc; reflexivity|].
    split; [apply announced_app; assumption|].
    intros url Hin. rewrite discovered_app.
    apply in_app_or in Hin as [Hin|Hin].
    + destruct (R1 url Hin) as [Hon Hu]. split; [exact Hon|].
      cbn in Hu. destruct Hu as [->|Hu]; [left; reflexivity|].
      right. apply in_or_app. right. apply in_or_app. left. exact Hu.
    + destruct (R2 url Hin) as [Hon Hu]. split; [exact Hon|].
      apply in_app_or in Hu as [Hu|Hu].
      * right. apply in_or_app. left. exact Hu.
      * right. apply in_or_app. right. apply in_or_app. right. exact Hu.
Qed.

Lemma positive_absent (pages : gmap string nat) key :
  positiveCounts pages -> pages !!! key = 0 -> pages !! key = None.
Proof.
  intros Hpos H0. destruct (pages !! key) as [n|] eqn:E; [|reflexivity].
  rewrite lookup_total_alt, E in H0. cbn in H0. specialize (Hpos key n E). lia.
Qed.

Lemma positive_insert (pages : gmap string nat) key n :
  positiveCounts pages -> 0 < n -> positiveCounts (<[key := n]> pages).
Proof.
  intros Hpos Hn k m. rewrite lookup_insert_Some.
  intros [[_ <-]|[_ H]]; [exact Hn | exact (Hpos k m H)].
Qed.

Lemma positive_assign (pages : gmap string nat) key n :
  positiveCounts pages -> 0 < n -> positiveCounts (assign key n pages).
Proof.
  intros Hpos Hn. unfold assign.
  destruct (pages !! key); [apply positive_insert; assumption|].
  destruct (String.eqb key "__proto__"); [exact Hpos | apply positive_insert; assumption].
Qed.

Lemma requests_app o1 o2 : requests (o1 ++ o2) = requests o1 + requests o2.
Proof. apply count_app. Qed.

Lemma unrecorded_app pages o1 o2 :
  unrecorded pages (o1 ++ o2) = unrecorded pages o1 + unrecorded pages o2.
Proof. unfold unrecorded. destruct (pages !! "__proto__"); [reflexivity | apply fetches_app]. Qed.

Lemma unrecorded_logs pages o :
  Forall (fun e => exists line, e = Log line) o -> unrecorded pages o = 0.
Proof.
  intros H. unfold unrecorded. destruct (pages !! "__proto__"); [reflexivity|].
  apply logs_fetches, H.
Qed.

(** The request of the first visit of a key adds the key to the table,
    unless the table does not write it. *)
Lemma unrecorded_enter (pages : gmap string nat) key line u :
  normalizeURL u = Ok key -> pages !! key = None ->
  size (assign key 1 pages) + unrecorded pages [Log line; Fetch u] = size pages + 1.
Proof.
  intros Hk Hnone. unfold assign, unrecorded. rewrite Hnone.
  destruct (String.eqb_spec key "__proto__") as [->|Hne].
  - rewrite Hnone. cbn. rewrite Hk, bool_decide_eq_true_2 by reflexivity. reflexivity.
  - rewrite map_size_insert_None by exact Hnone.
    destruct (pages !! "__proto__"); [lia|].
    cbn. rewrite Hk, bool_decide_eq_false_2 by congruence. lia.
Qed.

Lemma assign_proto_owned (pages : gmap string nat) key count :
  assign key count pages !! "__proto__" = None <-> pages !! "__proto__" = None.
Proof.
  unfold assign. destruct (pages !! key) as [m|] eqn:E.
  - destruct (decide (key = "__proto__")) as [->|Hne].
    + rewrite lookup_insert_eq, E. split; discriminate.
    + rewrite lookup_insert_ne by exact Hne. reflexivity.
  - destruct (String.eqb_spec key "__proto__") as [->|Hne]; [reflexivity|].
    rewrite lookup_insert_ne by exact Hne. reflexivity.
Qed.

Lemma unrecorded_same (pages pages' : gmap string nat) new :
  (pages' !! "__proto__" = None <-> pages !! "__proto__" = None) ->
  unrecorded pages' new = unrecorded pages new.
Proof.
  unfold unrecorded. intros H.
  destruct (pages !! "__proto__") eqn:E, (pages' !! "__proto__") eqn:E';
    try reflexivity.
  - destruct H as [H _]. discriminate (H eq_refl).
  - destruct H as [_ H]. discriminate (H eq_refl).
Qed.

(** A run keeps the table owning, or not owning, the key [__proto__]. *)
Lemma crawls_proto_owned baseURL u st st' :
  crawls fetch anchorHrefs baseURL u st st' ->
  fst st' !! "__proto__" = None <-> fst st !! "__proto__" = None.
Proof.
  intros H. apply (proj1 (crawls_summary fetch anchorHrefs baseURL)) in H.
  destruct H as (new & _ & _ & _ & Hx & Hk & _). split.
  - intros Habs. destruct (fst st !! "__proto__") as [m|] eqn:E; [|reflexivity].
    destruct (Hk "__proto__") as [n Hn]; [eauto | congruence].
  - intros Habs. apply Hx, Habs.
Qed.

Lemma crawls_oneEach baseURL :
  (forall u st st', crawls fetch anchorHrefs baseURL u st st' -> oneEach st st') /\
  (forall urls st st', crawlsEach fetch anchorHrefs baseURL urls st st' -> oneEach st st').
Proof.
  apply crawls_mutual; unfold oneEach; cbn [fst snd].
  - intros u pages out _ _ _ Hpos. split; [exact Hpos|]. exists [].
    rewrite List.app_nil_r. split; [reflexivity|].
    rewrite (unrecorded_logs pages []) by constructor. reflexivity.
  - intros u key pages out _ _ Hlt Hpos.
    split; [apply positive_assign; [exact Hpos | lia]|]. exists [].
    rewrite List.app_nil_r. split; [reflexivity|].
    rewrite (unrecorded_logs pages []) by constructor.
    rewrite assign_positive by exact Hlt.
    rewrite map_size_insert_Some by (apply lookup_total_positive; exact Hlt). reflexivity.
  - intros u key message pages out _ Hk H0 _ Hpos.
    split; [apply positive_assign; [exact Hpos | lia]|].
    exists ([Log ("crawling " +:+ u); Fetch u] ++ [Log message]).
    split; [rewrite <- List.app_assoc; reflexivity|].
    rewrite unrecorded_app, requests_app.
    rewrite (unrecorded_logs pages [Log message]) by (repeat constructor; eauto).
    pose proof (unrecorded_enter pages key ("crawling " +:+ u) u Hk
                  (positive_absent _ _ Hpos H0)).
    cbn [requests count isFetch]. lia.
  - intros u key html links lines pages out st _ Hk H0 _ Hg _ IH Hpos.
    destruct IH as (Hpos' & new & Hnew & Hsize).
    { apply positive_assign; [exact Hpos | lia]. }
    split; [exact Hpos'|].
    exists ([Log ("crawling " +:+ u); Fetch u] ++ lines ++ new).
    split; [rewrite Hnew, <- !List.app_assoc; reflexivity|].
    pose proof (diagnostics_logs anchorHrefs html baseURL _ _ Hg) as Hlogs.
    rewrite (unrecorded_same pages) in Hsize by apply assign_proto_owned.
    rewrite !unrecorded_app, !requests_app.
    rewrite (unrecorded_logs pages lines Hlogs), (logs_requests _ Hlogs).
    pose proof (unrecorded_enter pages key ("crawling " +:+ u) u Hk
                  (positive_absent _ _ Hpos H0)).
    cbn [requests count isFetch]. lia.
  - intros st Hpos. split; [exact Hpos|]. exists []. rewrite List.app_nil_r.
    split; [reflexivity|].
    rewrite (unrecorded_logs (fst st) []) by constructor. reflexivity.
  - intros u rest st st' st'' Hc IH1 _ IH2 Hpos.
    destruct (IH1 Hpos) as (Hpos' & n1 & H1 & S1).
    destruct (IH2 Hpos') as (Hpos'' & n2 & H2 & S2).
    split; [exact Hpos''|]. exists (n1 ++ n2).
    split; [rewrite H2, H1, List.app_assoc; reflexivity|].
    rewrite (unrecorded_same (fst st)) in S2 by (eapply crawls_proto_owned; eauto).
    rewrite unrecorded_app, requests_app. lia.
Qed.

Lemma totalCount_insert (pages : gmap string nat) key n :
  totalCount (<[key := n]> pages) + pages !!! key = totalCount pages + n.
Proof.
  unfold totalCount. destruct (pages !! key) as [m|] eqn:E.
  - rewrite <- (insert_delete_eq pages key n).
    rewrite map_to_list_insert by apply lookup_delete_eq.
    rewrite <- (map_to_list_delete pages key m E).
    rewrite lookup_total_alt, E. cbn. lia.
  - rewrite map_to_list_insert by exact E.
    rewrite lookup_total_alt, E. cbn. lia.
Qed.

Lemma uncounted_app baseURL pages l1 l2 :
  uncounted baseURL pages (l1 ++ l2) =
  uncounted baseURL pages l1 + uncounted baseURL pages l2.
Proof. unfold uncounted. destruct (pages !! "__proto__"); [reflexivity | apply hits_app]. Qed.

Lemma uncounted_same baseURL (pages pages' : gmap string nat) urls :
  (pages' !! "__proto__" = None <-> pages !! "__proto__" = None) ->
  uncounted baseURL pages' urls = uncounted baseURL pages urls.
Proof.
  unfold uncounted. intros H.
  destruct (pages !! "__proto__") eqn:E, (pages' !! "__proto__") eqn:E';
    try reflexivity.
  - destruct H as [H _]. discriminate (H eq_refl).
  - destruct H as [_ H]. discriminate (H eq_refl).
Qed.

(** A visit adds one to the sum of the counts, unless the table does not
    write the key. *)
Lemma uncounted_visit baseURL (pages : gmap string nat) key n u :
  onsite baseURL u = true -> normalizeURL u = Ok key ->
  totalCount (assign key n pages) + pages !!! key + n * uncounted baseURL pages [u] =
  totalCount pages + n.
Proof.
  intros Hon Hk. unfold uncounted. rewrite (hits_onsite _ key) by assumption.
  destruct (writable_cases pages key) as [Hw|[-> Habs]].
  - rewrite assign_writable by exact Hw.
    pose proof (totalCount_insert pages key n).
    destruct (pages !! "__proto__") eqn:E; [lia|].
    rewrite decide_False by (intros <-; exact (writable_absent _ _ Hw E eq_refl)). lia.
  - rewrite assign_proto, Habs by exact Habs.
    rewrite (lookup_total_absent _ _ Habs), decide_True by reflexivity. lia.
Qed.

Lemma crawls_allCounted baseURL :
  (forall u st st', crawls fetch anchorHrefs baseURL u st st' ->
                    allCounted fetch anchorHrefs baseURL [u] st st') /\
  (forall urls st st', crawlsEach fetch anchorHrefs baseURL urls st st' ->
                       allCounted fetch anchorHrefs baseURL urls st st').
Proof.
  apply crawls_mutual; unfold allCounted; cbn [fst snd].
  - intros u pages out _ _ Hoff. exists []. rewrite List.app_nil_r.
    split; [reflexivity|]. cbn [discovered flat_map app count].
    unfold uncounted. rewrite hits_offsite, Hoff by exact Hoff.
    destruct (pages !! "__proto__"); lia.
  - intros u key pages out Hon Hk Hlt. exists []. rewrite List.app_nil_r.
    split; [reflexivity|]. cbn [discovered flat_map app count]. rewrite Hon.
    rewrite assign_positive by exact Hlt.
    pose proof (totalCount_insert pages key (S (pages !!! key))).
    unfold uncounted. rewrite (hits_onsite _ key) by assumption.
    destruct (pages !! "__proto__") eqn:E; [lia|].
    rewrite decide_False; [lia|]. intros <-.
    apply lookup_total_positive in Hlt as [n Hn]. congruence.
  - intros u key message pages out Hon Hk H0 Hf.
    exists ([Log ("crawling " +:+ u); Fetch u] ++ [Log message]).
    split; [rewrite <- List.app_assoc; reflexivity|].
    assert (discovered fetch anchorHrefs baseURL
              ([Log ("crawling " +:+ u); Fetch u] ++ [Log message]) = []) as ->
      by (cbn; rewrite Hf; reflexivity).
    cbn [app count]. rewrite Hon.
    pose proof (uncounted_visit baseURL pages key 1 u Hon Hk). lia.
  - intros u key html links lines pages out st Hon Hk H0 Hf Hg _ (new & Hnew & Htot).
    exists ([Log ("crawling " +:+ u); Fetch u] ++ lines ++ new).
    split; [rewrite Hnew, <- !List.app_assoc; reflexivity|].
    rewrite (discovered_enter _ _ _ _ _ _ _ Hf Hg).
    rewrite (uncounted_same baseURL pages) in Htot by apply assign_proto_owned.
    rewrite (uncounted_app baseURL pages [u]), (count_app _ [u]).
    cbn [count]. rewrite Hon.
    pose proof (uncounted_visit baseURL pages key 1 u Hon Hk). lia.
  - intros st. exists []. rewrite List.app_nil_r. split; [reflexivity|].
    cbn [discovered flat_map app count]. unfold uncounted.
    destruct (fst st !! "__proto__"); cbn; lia.
  - intros u rest st st' st'' Hc (n1 & H1 & T1) _ (n2 & H2 & T2).
    exists (n1 ++ n2). split; [rewrite H2, H1, List.app_assoc; reflexivity|].
    rewrite (uncounted_same baseURL (fst st)) in T2 by (eapply crawls_proto_owned; eauto).
    rewrite discovered_app.
    assert (Hu : uncounted baseURL (fst st)
                   ((u :: rest) ++ discovered fetch anchorHrefs baseURL n1
                                ++ discovered fetch anchorHrefs baseURL n2) =
                 uncounted baseURL (fst st) ([u] ++ discovered fetch anchorHrefs baseURL n1)
                 + uncounted baseURL (fst st) (rest ++ discovered fetch anchorHrefs baseURL n2)).
    { change (u :: rest) with ([u] ++ rest). rewrite !uncounted_app. lia. }
    assert (Hn : count (onsite baseURL)
                   ((u :: rest) ++ discovered fetch anchorHrefs baseURL n1
                                ++ discovered fetch anchorHrefs baseURL n2) =
                 count (onsite baseURL) ([u] ++ discovered fetch anchorHrefs baseURL n1)
                 + count (onsite baseURL) (rest ++ discovered fetch anchorHrefs baseURL n2)).
    { change (u :: rest) with ([u] ++ rest). rewrite !count_app. lia. }
    rewrite Hu, Hn. lia.
Qed.

End Requests.

Lemma crawl_seed_onsite fetch anchorHrefs fuel seed st :
  crawl fetch anchorHrefs fuel seed = Ok st -> onsite seed seed = true.
Proof.
  unfold crawl, onsite. destruct fuel as [|fuel]; [discriminate|].
  rewrite crawlPage_unfold.
  destruct (Url.URL_new seed); [intros _; apply String.eqb_refl|].
  destruct (Url.rejects seed); discriminate.
Qed.

(** ** The lines of the report *)

Lemma string_of_uint_digits d :
  Str.forallb Chr.is_digit (DecimalString.NilEmpty.string_of_uint d) = true.
Proof. induction d; cbn; [reflexivity | exact IHd ..]. Qed.

Lemma show_nat_digits n : Str.forallb Chr.is_digit (show_nat n) = true.
Proof. apply string_of_uint_digits. Qed.

Lemma show_nat_inj n m : show_nat n = show_nat m -> n = m.
Proof.
  unfold show_nat. intros H.
  assert (Some (Nat.to_uint n) = Some (Nat.to_uint m)) as E.
  { rewrite <- !DecimalString.NilEmpty.usu, H. reflexivity. }
  injection E as E. rewrite <- (DecimalNat.Unsigned.of_to n), E.
  apply DecimalNat.Unsigned.of_to.
Qed.

(** Two texts that start with digits followed by a space are equal only
    when the digits and what follows the space are. *)
Lemma digits_then_space a : forall a' x x',
  Str.forallb Chr.is_digit a = true -> Str.forallb Chr.is_digit a' = true ->
  a +:+ String " " x = a' +:+ String " " x' -> a = a' /\ x = x'.
Proof.
  induction a as [|c a IH]; intros [|c' a'] x x' Ha Ha'; rewrite ?append_cons, ?append_nil_l.
  - intros H. injection H as ->. split; reflexivity.
  - intros H. injection H as <-. cbn in Ha'. discriminate.
  - intros H. injection H as ->. cbn in Ha. discriminate.
  - intros H. injection H as -> H.
    cbn in Ha, Ha'. apply andb_true_iff in Ha as [_ Ha], Ha' as [_ Ha'].
    destruct (IH a' x x' Ha Ha' H) as [-> ->]. split; reflexivity.
Qed.

Lemma append_inv_head s : forall t t', s +:+ t = s +:+ t' -> t = t'.
Proof.
  induction s as [|c s IH]; intros t t'; rewrite ?append_cons, ?append_nil_l;
    [trivial|]. intros H. injection H as H. apply IH. exact H.
Qed.

Lemma reportLine_inj p q : reportLine p = reportLine q -> p = q.
Proof.
  destruct p as [k n], q as [k' n']. unfold reportLine. cbn [fst snd].
  intros H. apply append_inv_head in H.
  change (" internal links to " +:+ k) with (String " " ("internal links to " +:+ k)) in H.
  change (" internal links to " +:+ k') with (String " " ("internal links to " +:+ k')) in H.
  apply digits_then_space in H as [Hn Hk]; try apply show_nat_digits.
  apply show_nat_inj in Hn as ->. apply append_inv_head in Hk as ->. reflexivity.
Qed.

(** ** The canonical form of parsed URLs *)

Module CanonicalFacts.

Lemma percent_encode_chars (set q p : ascii -> bool) s :
  (forall c, q c = true -> set c = false -> p c = true) ->
  p "%"%char = true ->
  (forall c, p (Chr.hex_digit (Chr.code c / 16)) = true) ->
  (forall c, p (Chr.hex_digit (Chr.code c mod 16)) = true) ->
  Str.forallb q s = true ->
  Str.forallb p (Url.percent_encode set s) = true.
Proof.
  intros Hkeep Hpercent Hhi Hlo. induction s as [|c s IH]; [reflexivity|].
  cbn. intros [Hc Hs]%andb_true_iff. destruct (set c) eqn:E; cbn.
  - rewrite Hpercent, Hhi, Hlo, IH by exact Hs. reflexivity.
  - rewrite Hkeep, IH by assumption. reflexivity.
Qed.

Lemma percent_encode_fixed set s :
  Str.forallb (fun c => negb (set c)) s = true -> Url.percent_encode set s = s.
Proof.
  induction s as [|c s IH]; [reflexivity|]. cbn.
  intros [Hc Hs]%andb_true_iff. apply negb_true_iff in Hc. rewrite Hc, IH by exact Hs.
  reflexivity.
Qed.

Lemma forallb_true s : Str.forallb (fun _ => true) s = true.
Proof. induction s as [|c s IH]; [reflexivity | exact IH]. Qed.

Lemma forallb_and (p q : ascii -> bool) s :
  Str.forallb (fun c => p c && q c) s = Str.forallb p s && Str.forallb q s.
Proof.
  induction s as [|c s IH]; [reflexivity|]. cbn. rewrite IH.
  destruct (p c), (q c), (Str.forallb p s); reflexivity.
Qed.

Lemma split_nonempty p s : Str.split p s <> [].
Proof.
  destruct s as [|c s]; cbn; [discriminate|].
  destruct (p c); [discriminate|]. destruct (Str.split p s); discriminate.
Qed.

(** The pieces of a split hold the characters of the text, and none of the
    separators. *)
Lemma split_chars (p q : ascii -> bool) s :
  Str.forallb q s = true ->
  Forall (fun seg => Str.forallb (fun c => q c && negb (p c)) seg = true)
    (Str.split p s).
Proof.
  induction s as [|c s IH]; [repeat constructor|]. cbn.
  intros [Hc Hs]%andb_true_iff. specialize (IH Hs).
  destruct (p c) eqn:E; [constructor; [reflexivity | exact IH]|].
  destruct (Str.split p s) as [|seg segs]; [repeat constructor; cbn; rewrite Hc, E; reflexivity|].
  apply Forall_cons in IH as [Hseg Hsegs].
  constructor; [|exact Hsegs]. cbn. rewrite Hc, E, Hseg. reflexivity.
Qed.

Lemma forallb_dropWhile p q s :
  Str.forallb q s = true -> Str.forallb q (Str.dropWhile p s) = true.
Proof.
  induction s as [|c s IH]; [reflexivity|]. cbn.
  intros H. destruct (p c); [|exact H].
  apply andb_true_iff in H as [_ H]. apply IH, H.
Qed.

Lemma forallb_break_snd p q s :
  Str.forallb q s = true -> Str.forallb q (snd (Str.break p s)) = true.
Proof.
  induction s as [|c s IH]; [reflexivity|]. cbn.
  intros H. destruct (p c); [exact H|].
  apply andb_true_iff in H as [_ H]. specialize (IH H).
  destruct (Str.break p s). exact IH.
Qed.

Lemma map_backslash_free s :
  Str.forallb noBackslash (Str.map Url.backslash_to_slash s) = true.
Proof.
  induction s as [|c s IH]; [reflexivity|]. cbn. rewrite IH, andb_true_r.
  each_char c.
Qed.

Lemma canonicalSegment_empty : canonicalSegment "" = true.
Proof. reflexivity. Qed.

Lemma segment_encoded seg :
  Str.forallb (fun c => noBackslash c && negb (Url.is_slash c)) seg = true ->
  Str.forallb segmentChar (Url.percent_encode Url.path_set seg) = true.
Proof.
  apply percent_encode_chars; [| reflexivity | |]; intros c; each_char c.
Qed.

Lemma path_segments_canonical segs : forall acc,
  Forall (fun seg => canonicalSegment seg = true) acc ->
  Forall (fun seg => Str.forallb (fun c => noBackslash c && negb (Url.is_slash c)) seg
                     = true) segs ->
  Forall (fun seg => canonicalSegment seg = true) (Url.path_segments acc segs).
Proof.
  induction segs as [|seg more IH]; intros acc Hacc Hsegs; cbn; [exact Hacc|].
  apply Forall_cons in Hsegs as [Hseg Hmore].
  assert (Hclose : Forall (fun seg => canonicalSegment seg = true)
                     (if Url.is_nil more then [EmptyString] else [])).
  { destruct (Url.is_nil more); repeat constructor. }
  destruct (Url.is_double_dot _) eqn:E2.
  { apply IH; [|exact Hmore]. apply Forall_app.
    split; [apply Forall_removelast; assumption | assumption]. }
  destruct (Url.is_single_dot _) eqn:E1.
  { apply IH; [|exact Hmore]. apply Forall_app. split; assumption. }
  apply IH; [|exact Hmore]. apply Forall_app. split; [assumption|].
  repeat constructor. unfold canonicalSegment.
  rewrite (segment_encoded seg Hseg), E1, E2. reflexivity.
Qed.

Lemma path_segments_nonempty segs : segs <> [] ->
  forall acc, Url.path_segments acc segs <> [].
Proof.
  induction segs as [|seg more IH]; [congruence|]. intros _ acc. cbn.
  destruct more as [|seg' more'].
  - cbn. destruct (Url.is_double_dot _); [|destruct (Url.is_single_dot _)];
      intros H; apply app_eq_nil in H as [_ H]; discriminate.
  - destruct (Url.is_double_dot _); [|destruct (Url.is_single_dot _)];
      apply IH; discriminate.
Qed.

Lemma parse_path_canonical acc s :
  Forall (fun seg => canonicalSegment seg = true) acc ->
  Str.forallb noBackslash s = true ->
  Url.parse_path acc s <> [] /\
  Forall (fun seg => canonicalSegment seg = true) (Url.parse_path acc s).
Proof.
  intros Hacc Hs. unfold Url.parse_path. split.
  - apply path_segments_nonempty, split_nonempty.
  - apply path_segments_canonical; [exact Hacc|]. apply split_chars, Hs.
Qed.

Lemma encode_query_clean q s :
  Url.encode_query q = Some s ->
  Str.forallb (fun c => negb (Url.special_query_set c)) s = true.
Proof.
  destruct q as [q|]; [|discriminate]. intros [= <-].
  apply (percent_encode_chars _ (fun _ => true)); [| reflexivity | | |apply forallb_true];
    intros c; each_char c.
Qed.

Lemma encode_fragment_clean f s :
  Url.encode_fragment f = Some s ->
  Str.forallb (fun c => negb (Url.fragment_set c)) s = true.
Proof.
  destruct f as [f|]; [|discriminate]. intros [= <-].
  apply (percent_encode_chars _ (fun _ => true)); [| reflexivity | | |apply forallb_true];
    intros c; each_char c.
Qed.

Lemma parse_port_not_default dflt p n :
  Url.parse_port dflt p = Some (Some n) -> (n <= 65535)%N /\ n <> dflt.
Proof.
  intros H. split; [eapply parse_port_bound; exact H|]. revert H.
  unfold Url.parse_port.
  destruct (negb _); [discriminate|]. destruct (String.eqb p ""); [discriminate|].
  destruct (65535 <? Url.decimal_value 0 p)%N; [discriminate|].
  destruct (N.eqb_spec (Url.decimal_value 0 p) dflt); [discriminate|].
  intros [= <-]. assumption.
Qed.

Lemma parse_authority_canonical dflt a h po :
  Url.parse_authority dflt a = Some (h, po) ->
  Url.parse_host h = Some h /\
  (forall n, po = Some n -> (n <= 65535)%N /\ n <> dflt).
Proof.
  intros H. split; [eapply parse_authority_ok; exact H|]. revert H.
  unfold Url.parse_authority. destruct (Str.existsb Url.is_at a); [discriminate|].
  destruct (Str.break Url.is_colon a) as [h0 rest].
  destruct (Url.parse_host h0) as [h1|]; [|discriminate].
  destruct (Url.after_delimiter rest) as [p|]; [|intros [= <- <-]; discriminate].
  destruct (Url.parse_port dflt p) as [po'|] eqn:Ep; [|discriminate].
  intros [= <- <-] n ->. eapply parse_port_not_default; exact Ep.
Qed.

Lemma with_authority_canonical sch dflt front q f u :
  Url.default_port sch = Some dflt ->
  Str.forallb noBackslash front = true ->
  Url.with_authority sch dflt front q f = Some u -> canonical u.
Proof.
  intros Hs Hfront. unfold Url.with_authority.
  destruct (Str.break Url.is_slash _) as [auth pathpart] eqn:Eb.
  destruct (Url.parse_authority dflt auth) as [[h po]|] eqn:Ea; [|discriminate].
  intros [= <-]. apply parse_authority_canonical in Ea as [Hh Hp].
  destruct (parse_path_canonical [] (Str.drop 1 pathpart)) as [Hne Hpath];
    [constructor | |].
  { apply forallb_drop. change pathpart with (snd (auth, pathpart)). rewrite <- Eb.
    apply forallb_break_snd, forallb_dropWhile, Hfront. }
  unfold canonical. cbn. rewrite Hs.
  split; [eauto|]. split; [exact Hh|].
  split; [intros p Hpo; destruct (Hp p Hpo) as [Hle Hd]; split; [exact Hle | congruence]|].
  split; [exact Hne|]. split; [exact Hpath|].
  split; [apply encode_query_clean | apply encode_fragment_clean].
Qed.

Lemma URL_new_canonical s u : Url.URL_new s = Some u -> canonical u.
Proof.
  unfold Url.URL_new.
  destruct (Url.parse_scheme _) as [[sch rest]|]; [|discriminate].
  destruct (Url.default_port sch) as [dflt|] eqn:Ed; [|discriminate].
  destruct (Url.split_query_fragment rest) as [[front q] f].
  apply with_authority_canonical; [exact Ed | apply map_backslash_free].
Qed.

Lemma resolve_canonical b s u : canonical b -> Url.resolve b s = Some u -> canonical u.
Proof.
  intros (Hs & Hh & Hp & Hne & Hpath & Hq & Hf). unfold Url.resolve.
  destruct (Url.split_query_fragment s) as [[front q] f].
  destruct (Str.startsWith "//" _).
  { destruct (Url.default_port (Url.scheme b)) eqn:Ed; [|discriminate].
    apply with_authority_canonical; [exact Ed | apply map_backslash_free]. }
  destruct (Str.startsWith "/" _).
  { intros [= <-].
    destruct (parse_path_canonical []
                (Str.drop 1 (Str.map Url.backslash_to_slash front)))
      as [Hne' Hpath']; [constructor | apply forallb_drop, map_backslash_free |].
    unfold canonical. cbn.
    repeat (split; [assumption|]).
    split; [apply encode_query_clean | apply encode_fragment_clean]. }
  destruct (String.eqb _ "").
  { intros [= <-]. unfold canonical. cbn.
    repeat (split; [assumption|]).
    split; [|apply encode_fragment_clean].
    destruct q; [apply encode_query_clean | assumption]. }
  intros [= <-].
  destruct (parse_path_canonical (removelast (Url.path b))
              (Str.map Url.backslash_to_slash front))
    as [Hne' Hpath']; [apply Forall_removelast, Hpath | apply map_backslash_free |].
  unfold canonical. cbn.
  repeat (split; [assumption|]).
  split; [apply encode_query_clean | apply encode_fragment_clean].
Qed.

Lemma URL_new_base_canonical s base u :
  Url.URL_new_base s base = Some u -> canonical u.
Proof.
  unfold Url.URL_new_base.
  destruct (Url.URL_new base) as [b|] eqn:Eb; [|discriminate].
  apply URL_new_canonical in Eb.
  destruct (Url.parse_scheme _) as [[sch rest]|]; [|apply resolve_canonical; assumption].
  destruct (String.eqb sch (Url.scheme b)); [apply resolve_canonical; assumption|].
  destruct (Url.default_port sch) as [dflt|] eqn:Ed; [|discriminate].
  destruct (Url.split_query_fragment rest) as [[front q] f].
  apply with_authority_canonical; [exact Ed | apply map_backslash_free].
Qed.

End CanonicalFacts.

Module RoundTrip.
Import CanonicalFacts.

Lemma canonical_wf u : canonical u -> wellFormed u.
Proof.
  intros (Hs & Hh & Hp & _ & Hpath & Hq & Hf). unfold wellFormed.
  split; [exact Hs|]. split; [exact Hh|].
  split; [intros p E; apply (Hp p E)|]. split.
  - eapply List.Forall_impl; [|exact Hpath]. cbn. intros seg H.
    unfold canonicalSegment in H.
    apply andb_true_iff in H as [H _]. apply andb_true_iff in H as [H _].
    eapply forallb_impl; [|exact H]. intros c; each_char c.
  - split; intros x E; [specialize (Hq x E) | specialize (Hf x E)];
      (eapply forallb_impl; [|eassumption]; intros c; each_char c).
Qed.

Lemma segment_parts seg :
  canonicalSegment seg = true ->
  Str.forallb segmentChar seg = true /\
  Url.is_single_dot seg = false /\ Url.is_double_dot seg = false.
Proof.
  unfold canonicalSegment. intros H.
  apply andb_true_iff in H as [H H2]. apply andb_true_iff in H as [H H1].
  apply negb_true_iff in H1, H2. auto.
Qed.

Lemma split_clean p seg :
  Str.forallb (fun c => negb (p c)) seg = true -> Str.split p seg = [seg].
Proof.
  induction seg as [|c seg IH]; [reflexivity|]. cbn.
  intros [Hc Hs]%andb_true_iff. apply negb_true_iff in Hc.
  rewrite Hc, IH by exact Hs. reflexivity.
Qed.

Lemma split_before p seg c t :
  Str.forallb (fun c => negb (p c)) seg = true -> p c = true ->
  Str.split p (seg +:+ String c t) = seg :: Str.split p t.
Proof.
  intros Hseg Hc. induction seg as [|d seg IH].
  - rewrite append_nil_l. cbn. rewrite Hc. reflexivity.
  - cbn in Hseg. apply andb_true_iff in Hseg as [Hd Hseg]. apply negb_true_iff in Hd.
    rewrite append_cons. cbn. rewrite Hd, IH by exact Hseg. reflexivity.
Qed.

Lemma split_join segs : forall seg,
  Forall (fun seg => Str.forallb (fun c => negb (Url.is_slash c)) seg = true)
    (seg :: segs) ->
  Str.split Url.is_slash
    (seg +:+ Str.concat (List.map (fun seg => String "/" seg) segs))
  = seg :: segs.
Proof.
  induction segs as [|s segs IH]; intros seg H; apply Forall_cons in H as [Hseg Hsegs].
  - cbn. rewrite append_nil_r. apply split_clean, Hseg.
  - cbn [List.map Str.concat]. rewrite append_cons.
    rewrite split_before by (exact Hseg || reflexivity).
    rewrite IH by exact Hsegs. reflexivity.
Qed.

Lemma path_segments_fixed segs : forall acc,
  Forall (fun seg => canonicalSegment seg = true) segs ->
  Url.path_segments acc segs = acc ++ segs.
Proof.
  induction segs as [|seg more IH]; intros acc H; cbn;
    [rewrite List.app_nil_r; reflexivity|].
  apply Forall_cons in H as [Hseg Hmore].
  apply segment_parts in Hseg as (Hchars & E1 & E2).
  rewrite percent_encode_fixed
    by (eapply forallb_impl; [|exact Hchars]; intros c; each_char c).
  rewrite E1, E2, IH by exact Hmore. rewrite <- List.app_assoc. reflexivity.
Qed.

Lemma canonical_segments_slash_free u :
  canonical u ->
  Forall (fun seg => Str.forallb (fun c => negb (Url.is_slash c)) seg = true)
    (Url.path u).
Proof.
  intros (_ & _ & _ & _ & Hpath & _).
  eapply List.Forall_impl; [|exact Hpath]. cbn. intros seg H.
  apply segment_parts in H as [H _].
  eapply forallb_impl; [|exact H]. intros c; each_char c.
Qed.

(** The path is read back from the pathname. *)
Lemma parse_path_pathname u :
  canonical u -> Url.parse_path [] (Str.drop 1 (Url.pathname u)) = Url.path u.
Proof.
  intros Hc. pose proof (canonical_segments_slash_free u Hc) as Hfree.
  destruct Hc as (_ & _ & _ & Hne & Hpath & _).
  unfold Url.parse_path, Url.pathname.
  destruct (Url.path u) as [|seg segs]; [congruence|].
  cbn [List.map Str.concat]. rewrite append_cons. cbn [Str.drop].
  rewrite split_join by exact Hfree. apply path_segments_fixed, Hpath.
Qed.

Lemma pathname_chars u :
  canonical u ->
  Str.forallb (fun c => segmentChar c || Url.is_slash c) (Url.pathname u) = true.
Proof.
  intros (_ & _ & _ & _ & Hpath & _). unfold Url.pathname.
  induction Hpath as [|seg segs Hseg _ IH]; [reflexivity|].
  cbn [List.map Str.concat]. rewrite forallb_append, IH, andb_true_r.
  apply segment_parts in Hseg as [Hseg _]. cbn.
  eapply forallb_impl; [|exact Hseg]. intros c Hc. rewrite Hc. reflexivity.
Qed.

Lemma split_exact front q f :
  Str.forallb plain front = true ->
  (forall q', q = Some q' ->
              Str.forallb (fun c => negb (Url.is_hash c)) q' = true) ->
  Url.split_query_fragment
    (front +:+ match q with Some q => String "?" q | None => "" end
           +:+ match f with Some f => String "#" f | None => "" end)
  = (front, q, f).
Proof.
  intros Hfront Hq. unfold Url.split_query_fragment.
  rewrite <- append_assoc.
  rewrite (break_app (fun c => negb (Url.is_hash c)) Url.is_hash).
  - rewrite (break_app plain Url.is_question);
      [| intros c; each_char c | exact Hfront | destruct q; reflexivity].
    destruct q, f; reflexivity.
  - intros c Hc. apply negb_true_iff. exact Hc.
  - rewrite forallb_append. apply andb_true_iff. split.
    + eapply forallb_impl; [|exact Hfront]. intros c; each_char c.
    + destruct q as [q|]; [|reflexivity]. exact (Hq q eq_refl).
  - destruct f; reflexivity.
Qed.

Lemma parse_port_exact dflt p :
  (p <= 65535)%N -> p <> dflt ->
  Url.parse_port dflt (Url.decimal p) = Some (Some p).
Proof.
  intros Hp Hd. unfold Url.parse_port, Url.decimal.
  rewrite decimal_digits_digits by reflexivity. cbn [negb].
  destruct (String.eqb_spec (Url.decimal_digits 5 p "") "") as [E|_].
  { exfalso. revert E. change 5 with (S 4). generalize 4. intros f.
    cbn [Url.decimal_digits]. destruct (p <? 10)%N; [discriminate|].
    apply decimal_digits_nonempty. discriminate. }
  rewrite decimal_digits_value by (cbn; lia). cbn [Url.decimal_value].
  destruct (65535 <? p)%N eqn:E; [apply N.ltb_lt in E; lia|].
  destruct (N.eqb_spec p dflt); [contradiction | reflexivity].
Qed.

Lemma parse_authority_exact dflt u :
  canonical u -> Url.default_port (Url.scheme u) = Some dflt ->
  Url.parse_authority dflt (Url.host u +:+ portText u) = Some (Url.host u, Url.port u).
Proof.
  intros Hc Hd. pose proof (canonical_wf u Hc) as Hwf.
  destruct Hc as (_ & Hh & Hp & _).
  pose proof (parse_host_fixed _ Hh) as [Hok Hne].
  unfold Url.parse_authority.
  rewrite (existsb_false_on authorityChar)
    by (auto using authority_chars; intros c; each_char c).
  rewrite (break_app Url.host_char_ok Url.is_colon);
    [| intros c; each_char c | exact Hok | unfold portText; destruct (Url.port u); reflexivity].
  rewrite Hh. unfold portText. destruct (Url.port u) as [p|]; [|reflexivity].
  cbn [Url.after_delimiter]. destruct (Hp p eq_refl) as [Hle Hnd].
  rewrite parse_port_exact; [reflexivity | exact Hle | congruence].
Qed.

Local Abbreviation frontOf u :=
  ("//" +:+ (Url.host u +:+ portText u) +:+ Url.pathname u).

(** The authority of an [href], followed by a path or by nothing. *)
Lemma with_authority_tail sch dflt u t q f :
  canonical u -> Url.default_port (Url.scheme u) = Some dflt ->
  startsWithChar Url.is_slash t = true ->
  Url.with_authority sch dflt ("//" +:+ (Url.host u +:+ portText u) +:+ t) q f =
  Some (Url.mk sch (Url.host u) (Url.port u) (Url.parse_path [] (Str.drop 1 t))
          (Url.encode_query q) (Url.encode_fragment f)).
Proof.
  intros Hc Hd Ht. pose proof (canonical_wf u Hc) as Hwf.
  pose proof Hc as (_ & Hh & _).
  pose proof (parse_host_fixed _ Hh) as [Hok Hne].
  pose proof (authority_chars u Hwf) as Hauth.
  unfold Url.with_authority.
  change ("//" +:+ ?x) with (String "/" (String "/" x)).
  cbn [Str.dropWhile]. change (Url.is_slash "/") with true. cbn iota.
  rewrite dropWhile_keep.
  2:{ destruct (Url.host u) as [|c h]; [congruence|]. rewrite !append_cons. cbn in *.
      apply andb_true_iff in Hok as [Hc' _]. revert Hc'. each_char c. }
  rewrite (break_app authorityChar Url.is_slash);
    [| intros c; each_char c | exact Hauth | exact Ht].
  rewrite (parse_authority_exact dflt u Hc Hd). reflexivity.
Qed.

Lemma with_authority_exact sch dflt u q f :
  canonical u -> Url.default_port (Url.scheme u) = Some dflt ->
  Url.with_authority sch dflt (frontOf u) q f =
  Some (Url.mk sch (Url.host u) (Url.port u) (Url.path u)
          (Url.encode_query q) (Url.encode_fragment f)).
Proof.
  intros Hc Hd.
  rewrite (with_authority_tail sch dflt u _ q f Hc Hd (pathname_starts u)).
  rewrite (parse_path_pathname u Hc). reflexivity.
Qed.

Lemma frontOf_plain u : canonical u -> Str.forallb plain (frontOf u) = true.
Proof.
  intros Hc.
  rewrite (forallb_append _ "//"), (forallb_append _ (Url.host u +:+ portText u)).
  apply andb_true_iff. split; [reflexivity|]. apply andb_true_iff. split.
  - eapply forallb_impl; [|exact (authority_chars u (canonical_wf u Hc))].
    intros c; each_char c.
  - eapply forallb_impl; [|exact (pathname_chars u Hc)]. intros c; each_char c.
Qed.

Lemma frontOf_backslash_free u :
  canonical u -> Str.map Url.backslash_to_slash (frontOf u) = frontOf u.
Proof.
  intros Hc. apply (map_id_on noBackslash); [intros c; each_char c|].
  rewrite (forallb_append _ "//"), (forallb_append _ (Url.host u +:+ portText u)).
  apply andb_true_iff. split; [reflexivity|]. apply andb_true_iff. split.
  - eapply forallb_impl; [|exact (authority_chars u (canonical_wf u Hc))].
    intros c; each_char c.
  - eapply forallb_impl; [|exact (pathname_chars u Hc)]. intros c; each_char c.
Qed.

Lemma encode_fixed u :
  canonical u ->
  Url.encode_query (Url.query u) = Url.query u /\
  Url.encode_fragment (Url.fragment u) = Url.fragment u.
Proof.
  intros (_ & _ & _ & _ & _ & Hq & Hf). split.
  - destruct (Url.query u) as [q|]; [|reflexivity]. cbn.
    rewrite percent_encode_fixed by (apply Hq; reflexivity). reflexivity.
  - destruct (Url.fragment u) as [f|]; [|reflexivity]. cbn.
    rewrite percent_encode_fixed by (apply Hf; reflexivity). reflexivity.
Qed.

(** What the scheme state and the split leave of an [href]. *)
Lemma href_parts u :
  canonical u ->
  Url.preprocess (Url.href u) = Url.href u /\
  Url.parse_scheme (Url.href u) =
  Some (Url.scheme u,
        frontOf u
        +:+ match Url.query u with Some q => String "?" q | None => "" end
        +:+ match Url.fragment u with Some f => String "#" f | None => "" end) /\
  Url.split_query_fragment
    (frontOf u
     +:+ match Url.query u with Some q => String "?" q | None => "" end
     +:+ match Url.fragment u with Some f => String "#" f | None => "" end)
  = (frontOf u, Url.query u, Url.fragment u).
Proof.
  intros Hc. pose proof (canonical_wf u Hc) as Hwf.
  split; [apply preprocess_visible, href_visible, Hwf|]. split.
  - unfold Url.href. fold (portText u).
    change ("://" +:+ ?x) with (String ":" ("//" +:+ x)).
    rewrite parse_scheme_known by (apply Hc).
    rewrite !append_assoc. reflexivity.
  - apply split_exact; [apply frontOf_plain, Hc|].
    destruct Hc as (_ & _ & _ & _ & _ & Hq & _). intros q E.
    eapply forallb_impl; [|exact (Hq q E)]. intros c; each_char c.
Qed.

Lemma eta u :
  Url.mk (Url.scheme u) (Url.host u) (Url.port u) (Url.path u)
    (Url.query u) (Url.fragment u) = u.
Proof. destruct u; reflexivity. Qed.

(** Parsing the [href] of a canonical URL gives the URL back. *)
Lemma URL_new_href_canonical u : canonical u -> Url.URL_new (Url.href u) = Some u.
Proof.
  intros Hc. destruct (href_parts u Hc) as (Hpre & Hsch & Hsplit).
  destruct (encode_fixed u Hc) as [Hq Hf].
  pose proof Hc as ([dflt Hd] & _).
  unfold Url.URL_new. rewrite Hpre, Hsch, Hd, Hsplit, (frontOf_backslash_free u Hc).
  rewrite (with_authority_exact _ dflt u _ _ Hc Hd), Hq, Hf, eta. reflexivity.
Qed.

(** ... against any base that parses. *)
Lemma URL_new_base_href u base :
  canonical u -> is_Some (Url.URL_new base) ->
  Url.URL_new_base (Url.href u) base = Some u.
Proof.
  intros Hc [b Hb]. destruct (href_parts u Hc) as (Hpre & Hsch & Hsplit).
  destruct (encode_fixed u Hc) as [Hq Hf].
  pose proof Hc as ([dflt Hd] & _).
  unfold Url.URL_new_base. rewrite Hb, Hpre, Hsch.
  destruct (String.eqb_spec (Url.scheme u) (Url.scheme b)) as [E|_].
  - unfold Url.resolve. rewrite Hsplit, (frontOf_backslash_free u Hc).
    change (Str.startsWith "//" (frontOf u)) with true. cbn iota.
    rewrite <- E, Hd.
    rewrite (with_authority_exact _ dflt u _ _ Hc Hd), Hq, Hf, eta. reflexivity.
  - rewrite Hd, Hsplit, (frontOf_backslash_free u Hc).
    rewrite (with_authority_exact _ dflt u _ _ Hc Hd), Hq, Hf, eta. reflexivity.
Qed.

End RoundTrip.

(** ** Links and keys *)

Module LinkFacts.
Import CanonicalFacts RoundTrip.

(** The links are the [href]s of the URLs the anchors resolve to. *)
Lemma links_resolved anchorHrefs html baseURL links lines link :
  getURLsFromHTML anchorHrefs html baseURL = Ok (links, lines) ->
  In link links <->
  exists href u,
    In href (anchorHrefs html) /\
    Url.URL_new_base href baseURL = Some u /\ link = Url.href u.
Proof.
  intros Hg. split; [apply (links_from _ _ _ _ _ _ Hg)|].
  apply getURLsFromHTML_Ok in Hg as (mapped & Hall & -> & _).
  induction Hall as [|h r hrefs mapped Hr _ IH]; [intros (href & u & [] & _)|].
  intros (href & u & [<-|Hin] & Hu & ->).
  - apply resolveAnchor_Ok in Hr as [(u' & Hu' & ->)|(Hrej & ->)].
    + left. cbn. congruence.
    + apply rejects_base_sound in Hrej. congruence.
  - assert (In (Url.href u) (omap fst mapped)) as H by (apply IH; eauto).
    destruct r as [[l|] ?]; cbn; auto.
Qed.

(** The host test of [crawlPage] on the [href] of a resolved URL. *)
Lemma onsite_href baseURL b u :
  Url.URL_new baseURL = Some b -> canonical u ->
  onsite baseURL (Url.href u) = String.eqb (Url.hostname u) (Url.hostname b).
Proof.
  intros Hb Hc. unfold onsite. rewrite (URL_new_href_canonical u Hc), Hb. reflexivity.
Qed.

Lemma startsWith_front (f : ascii -> ascii) q s :
  Str.startsWith "//" (Str.map f (fst (Str.break q s))) = true ->
  Str.startsWith "//" (Str.map f s) = true.
Proof.
  destruct s as [|c1 [|c2 s]]; cbn; [trivial | |].
  - destruct (q c1); cbn; [discriminate|]. rewrite andb_false_r. trivial.
  - destruct (q c1); cbn; [discriminate|].
    destruct (q c2); cbn; [rewrite andb_false_r; discriminate|].
    destruct (Str.break q s). cbn. trivial.
Qed.

(** A reference without a scheme that does not start with two slashes
    resolves, on the host of the base. *)
Lemma resolve_relative b s :
  Str.startsWith "//" (Str.map Url.backslash_to_slash s) = false ->
  exists u, Url.resolve b s = Some u /\ Url.host u = Url.host b.
Proof.
  intros Hs. unfold Url.resolve.
  destruct (Url.split_query_fragment s) as [[front q] f] eqn:E.
  assert (Hfront : Str.startsWith "//" (Str.map Url.backslash_to_slash front) = false).
  { destruct (Str.startsWith "//" (Str.map Url.backslash_to_slash front)) eqn:E';
      [|reflexivity].
    change front with (fst (fst (front, q, f))) in E'.
    rewrite <- E, split_front in E'.
    apply startsWith_front in E'. congruence. }
  rewrite Hfront.
  destruct (Str.startsWith "/" _); [eexists; split; reflexivity|].
  destruct (String.eqb _ ""); eexists; split; reflexivity.
Qed.

Lemma forallb_map_impl (p q : ascii -> bool) f s :
  (forall c, q c = true -> p (f c) = true) ->
  Str.forallb q s = true -> Str.forallb p (Str.map f s) = true.
Proof.
  intros H. induction s as [|c s IH]; [reflexivity|]. cbn.
  intros [Hc Hs]%andb_true_iff. rewrite (H c Hc), IH by exact Hs. reflexivity.
Qed.

Lemma keyOf_chars u :
  canonical u -> Str.forallb keyChar (keyOf (Url.hostname u) (Url.pathname u)) = true.
Proof.
  intros Hc. pose proof Hc as (_ & Hh & _).
  apply parse_host_fixed in Hh as [Hok _].
  pose proof (pathname_chars u Hc) as Hpath.
  unfold keyOf, Str.toLowerCase, Url.hostname.
  apply (forallb_map_impl _
           (fun c => Url.host_char_ok c || (segmentChar c || Url.is_slash c)));
    [intros c; each_char c|].
  rewrite forallb_append. apply andb_true_iff. split.
  - eapply (forallb_impl Url.host_char_ok);
      [intros c Hc'; rewrite Hc'; reflexivity|].
    destruct (Str.startsWith "www." (Url.host u)); [|exact Hok].
    apply forallb_drop, Hok.
  - eapply (forallb_impl (fun c => segmentChar c || Url.is_slash c));
      [intros c Hc'; rewrite Hc'; apply orb_true_r|].
    destruct (Str.endsWith "/" (Url.pathname u)); [|exact Hpath].
    apply forallb_take, forallb_drop, Hpath.
Qed.

(** Links in canonical form resolve to themselves. *)
Lemma resolveAnchor_href otherBase u :
  is_Some (Url.URL_new otherBase) -> canonical u ->
  resolveAnchor otherBase (Url.href u) = Ok (Some (Url.href u), []).
Proof.
  intros Hbase Hc. unfold resolveAnchor, newURL_base.
  rewrite (URL_new_base_href u otherBase Hc Hbase). reflexivity.
Qed.

Lemma omap_fst_links (links : list string) :
  omap fst (List.map (fun link => (Some link, ([] : list event))) links) = links.
Proof.
  induction links as [|l ls IH]; [reflexivity|].
  cbn [List.map]. change (omap fst ((Some l, ([] : list event)) :: ?t))
    with (l :: omap fst t). rewrite IH. reflexivity.
Qed.

Lemma concat_snd_links (links : list string) :
  List.concat
    (List.map snd (List.map (fun link => (Some link, ([] : list event))) links)) = [].
Proof. induction links as [|l ls IH]; [reflexivity | exact IH]. Qed.

Lemma resolve_all anchorHrefs html otherBase :
  is_Some (Url.URL_new otherBase) ->
  Forall (fun link => exists u, canonical u /\ link = Url.href u) (anchorHrefs html) ->
  getURLsFromHTML anchorHrefs html otherBase = Ok (anchorHrefs html, []).
Proof.
  intros Hbase Hall. unfold getURLsFromHTML.
  assert (H : Array_map (resolveAnchor otherBase) (anchorHrefs html) =
              Ok (List.map (fun link => (Some link, [])) (anchorHrefs html))).
  { induction Hall as [|link links (u & Hc & ->) _ IH]; [reflexivity|].
    cbn [Array_map List.map]. rewrite (resolveAnchor_href otherBase u Hbase Hc).
    cbn [bind]. rewrite IH. reflexivity. }
  rewrite H. cbn [bind]. rewrite omap_fst_links, concat_snd_links. reflexivity.
Qed.

End LinkFacts.

(** ** A key with a scheme put back *)

Module RestoreFacts.
Import CanonicalFacts RoundTrip LinkFacts.

Local Abbreviation L := Str.toLowerCase.
Local Abbreviation pathnameOf path :=
  (Str.concat (List.map (fun seg => String "/" seg) path)).

Lemma startsWith_split p : forall s,
  Str.startsWith p s = true -> s = p +:+ Str.drop (String.length p) s.
Proof.
  induction p as [|a p IH]; intros s; [rewrite append_nil_l; reflexivity|].
  destruct s as [|b s]; cbn; [discriminate|].
  intros [Hab Hs]%andb_true_iff. apply Ascii.eqb_eq in Hab as ->.
  rewrite append_cons, <- IH by exact Hs. reflexivity.
Qed.

Lemma startsWith_append_l p : forall s t,
  Str.startsWith p s = true -> Str.startsWith p (s +:+ t) = true.
Proof.
  induction p as [|a p IH]; intros s t; [reflexivity|].
  destruct s as [|b s]; cbn; [discriminate|].
  intros [Hab Hs]%andb_true_iff. rewrite append_cons. cbn.
  rewrite Hab, IH by exact Hs. reflexivity.
Qed.

Lemma is_number_empty : Url.is_number "" = false.
Proof. reflexivity. Qed.

(** A leading [www.] label does not change whether a host ends in a
    number. *)
Lemma ends_in_number_www h :
  Url.ends_in_number ("www." +:+ h) = Url.ends_in_number h.
Proof.
  unfold Url.ends_in_number.
  change ("www." +:+ h) with ("www" +:+ String "." h).
  rewrite split_before by reflexivity. cbn [rev].
  destruct (rev (Str.split Url.is_dot h)) as [|last R] eqn:E.
  { exfalso. apply (split_nonempty Url.is_dot h).
    rewrite <- (rev_involutive (Str.split Url.is_dot h)), E. reflexivity. }
  cbn [app]. destruct R as [|prev R]; cbn [app]; [|reflexivity].
  destruct (String.eqb_spec last "") as [->|_]; reflexivity.
Qed.

Lemma has_punycode_label_www h :
  Url.has_punycode_label ("www." +:+ h) = Url.has_punycode_label h.
Proof.
  unfold Url.has_punycode_label.
  change ("www." +:+ h) with ("www" +:+ String "." h).
  rewrite split_before by reflexivity. reflexivity.
Qed.

Lemma parse_host_www h :
  Url.parse_host ("www." +:+ h) = Some ("www." +:+ h) -> h <> "" ->
  Url.parse_host h = Some h.
Proof.
  intros H Hne. pose proof (parse_host_fixed _ H) as [Hok _].
  rewrite forallb_append in Hok. apply andb_true_iff in Hok as [_ Hok].
  unfold Url.parse_host in *.
  destruct (String.eqb (L ("www." +:+ h)) ""); [discriminate|].
  destruct (negb (Str.forallb Url.host_char_ok (L ("www." +:+ h)))); [discriminate|].
  destruct (Url.ends_in_number (L ("www." +:+ h))) eqn:En; [discriminate|].
  destruct (Url.has_punycode_label (L ("www." +:+ h))) eqn:Ep; [discriminate|].
  apply (inj Some) in H. rewrite H in En, Ep.
  rewrite ends_in_number_www in En. rewrite has_punycode_label_www in Ep.
  unfold Str.toLowerCase in H. rewrite map_append in H.
  change (Str.map Chr.lower "www.") with "www." in H.
  apply append_inv_head in H. fold (L h) in H. rewrite H.
  destruct (String.eqb_spec h ""); [contradiction|].
  rewrite Hok, En, Ep. reflexivity.
Qed.

(** The host of a key: what [normalizeURL] keeps of the hostname parses as
    a host, when it is not empty. *)
Lemma stripped_host u :
  canonical u ->
  let h := if Str.startsWith "www." (Url.host u)
           then Str.slice_from 4 (Url.host u) else Url.host u in
  L h = h /\ (h <> "" -> Url.parse_host h = Some h).
Proof.
  intros (_ & Hh & _). cbn zeta.
  assert (Hlow : L (Url.host u) = Url.host u).
  { unfold Url.parse_host in Hh.
    destruct (String.eqb _ ""); [discriminate|].
    destruct (negb _); [discriminate|].
    destruct (Url.ends_in_number _); [discriminate|].
    destruct (Url.has_punycode_label _); [discriminate|].
    injection Hh as Hh. exact Hh. }
  destruct (Str.startsWith "www." (Url.host u)) eqn:E; [|auto].
  apply startsWith_split in E. cbn [String.length] in E.
  set (h := Str.drop 4 (Url.host u)) in *.
  assert (Hs : Str.slice_from 4 (Url.host u) = h).
  { rewrite E.
    change ("www." +:+ h) with (String "w" (String "w" (String "w" (String "." h)))).
    unfold Str.slice_from, Str.slice_index.
    cbn [String.length Z.ltb Z.compare Z.to_nat Pos.to_nat Pos.iter_op Nat.add Nat.min Str.drop].
    reflexivity. }
  rewrite Hs. split.
  - rewrite E in Hlow. unfold Str.toLowerCase in Hlow. rewrite map_append in Hlow.
    change (Str.map Chr.lower "www.") with "www." in Hlow.
    apply append_inv_head in Hlow. exact Hlow.
  - intros Hne. apply parse_host_www; [|exact Hne]. rewrite <- E. exact Hh.
Qed.

Lemma endsWith_slash_free s :
  Str.forallb (fun c => negb (Url.is_slash c)) s = true -> Str.endsWith "/" s = false.
Proof.
  induction s as [|c s IH]; [reflexivity|]. cbn [Str.forallb Str.endsWith].
  intros [Hc Hs]%andb_true_iff. rewrite (IH Hs), orb_false_r.
  cbn. unfold Url.is_slash in Hc. apply negb_true_iff in Hc. rewrite Hc. reflexivity.
Qed.

Lemma append_nonempty s t : t <> "" -> s +:+ t <> "".
Proof. destruct s; [rewrite append_nil_l; trivial | rewrite append_cons; discriminate]. Qed.

Lemma endsWith_append_nonempty a s :
  s <> "" -> Str.endsWith "/" (a +:+ s) = Str.endsWith "/" s.
Proof.
  intros Hs. induction a as [|c a IH]; [rewrite append_nil_l; reflexivity|].
  rewrite append_cons. cbn [Str.endsWith]. rewrite IH.
  assert (String.eqb (String c (a +:+ s)) "/" = false) as ->; [|reflexivity].
  apply String.eqb_neq. intros [= _ E]. exact (append_nonempty a s Hs E).
Qed.

Lemma pathnameOf_snoc init last :
  pathnameOf (init ++ [last]) = pathnameOf init +:+ String "/" last.
Proof.
  induction init as [|seg init IH]; cbn [List.map Str.concat app].
  - rewrite append_nil_l, append_nil_r. reflexivity.
  - rewrite IH, append_assoc. reflexivity.
Qed.

(** The path of a key: what [normalizeURL] keeps of the pathname is the
    pathname of a path of segments in canonical form. *)
Lemma stripped_path u :
  canonical u ->
  exists path,
    (if Str.endsWith "/" (Url.pathname u) then Str.slice 0 (-1) (Url.pathname u)
     else Url.pathname u) = pathnameOf path /\
    Forall (fun seg => canonicalSegment seg = true) path.
Proof.
  intros Hc. pose proof (canonical_segments_slash_free u Hc) as Hfree.
  destruct Hc as (_ & _ & _ & Hne & Hpath & _). unfold Url.pathname.
  destruct (exists_last Hne) as (init & last & E). rewrite E in *.
  rewrite pathnameOf_snoc.
  apply Forall_app in Hpath as [Hinit Hlast], Hfree as [_ Hfree].
  apply Forall_cons in Hfree as [Hfree _].
  destruct (String.eqb_spec last "") as [->|Hlast'].
  - rewrite endsWith_append, slice_drop_last. exists init. auto.
  - change (String "/" last) with ("/" +:+ last).
    rewrite <- append_assoc, endsWith_append_nonempty by exact Hlast'.
    rewrite endsWith_slash_free by exact Hfree.
    exists (init ++ [last]). rewrite pathnameOf_snoc.
    change (String "/" last) with ("/" +:+ last). rewrite append_assoc.
    split; [reflexivity|]. apply Forall_app. auto.
Qed.

Lemma canonicalSegment_lower seg :
  canonicalSegment seg = true -> canonicalSegment (L seg) = true.
Proof.
  intros H. apply segment_parts in H as (Hchars & E1 & E2).
  unfold canonicalSegment.
  destruct (dots_lower (L seg) seg (toLowerCase_idem seg)) as [-> ->].
  rewrite E1, E2, andb_true_r, andb_true_r.
  apply (forallb_map_impl _ segmentChar); [intros c; each_char c | exact Hchars].
Qed.

Lemma pathnameOf_lower path : L (pathnameOf path) = pathnameOf (List.map L path).
Proof.
  induction path as [|seg path IH]; [reflexivity|].
  cbn [List.map Str.concat]. unfold Str.toLowerCase in *.
  rewrite map_append, IH. reflexivity.
Qed.

Lemma scheme_visible sch : is_Some (Url.default_port sch) -> visible sch = true.
Proof.
  intros Hs. destruct (default_port_cases _ Hs) as [->|[->|[->|[->| ->]]]]; reflexivity.
Qed.

(** A URL without a path parses as the one with the path [/]. *)
Lemma URL_new_bare sch h :
  is_Some (Url.default_port sch) -> Url.parse_host h = Some h ->
  Url.URL_new (sch +:+ "://" +:+ h) = Some (Url.mk sch h None [""] None None).
Proof.
  intros Hs Hh. pose proof Hs as [dflt Hd].
  set (u := Url.mk sch h None [""] None None).
  assert (Hc : canonical u).
  { unfold canonical, u. cbn. split; [exact Hs|]. split; [exact Hh|].
    split; [discriminate|]. split; [discriminate|].
    split; [repeat constructor|]. split; discriminate. }
  pose proof (parse_host_fixed _ Hh) as [Hok _].
  assert (Hplain : Str.forallb plain ("//" +:+ h) = true).
  { rewrite forallb_append. apply andb_true_iff. split; [reflexivity|].
    eapply forallb_impl; [|exact Hok]. intros c; each_char c. }
  unfold Url.URL_new. rewrite preprocess_visible.
  2:{ rewrite !visible_append, (scheme_visible sch Hs). cbn [andb].
      apply andb_true_iff. split; [reflexivity|].
      eapply forallb_impl; [|exact Hok]. intros c; each_char c. }
  change ("://" +:+ h) with (String ":" ("//" +:+ h)).
  rewrite parse_scheme_known by exact Hs. rewrite Hd.
  pose proof (split_exact ("//" +:+ h) None None Hplain) as Hsplit.
  rewrite !append_nil_r in Hsplit. rewrite Hsplit by discriminate.
  rewrite (map_id_on noBackslash); [| intros c; each_char c |].
  2:{ rewrite forallb_append. apply andb_true_iff. split; [reflexivity|].
      eapply forallb_impl; [|exact Hok]. intros c; each_char c. }
  pose proof (with_authority_tail sch dflt u "" None None Hc Hd eq_refl) as Hw.
  unfold u, portText in Hw. cbn [Url.host Url.port] in Hw.
  rewrite !append_nil_r in Hw. rewrite Hw. reflexivity.
Qed.

(** Putting a scheme back before a key gives a URL with that very key, when
    the key is not empty and starts neither with a slash nor with [www.],
    and does not end with a slash. *)
Lemma restore_scheme sch u :
  is_Some (Url.default_port sch) -> canonical u ->
  let key := keyOf (Url.hostname u) (Url.pathname u) in
  key <> "" ->
  Str.startsWith "/" key = false ->
  Str.startsWith "www." key = false ->
  Str.endsWith "/" key = false ->
  normalizeURL (sch +:+ "://" +:+ key) = Ok key.
Proof.
  intros Hs Hc. cbn zeta. unfold keyOf, Url.hostname.
  destruct (stripped_host u Hc) as [Hlow Hhost].
  destruct (stripped_path u Hc) as (path & -> & Hpath).
  set (h := if Str.startsWith "www." (Url.host u)
            then Str.slice_from 4 (Url.host u) else Url.host u) in *.
  assert (Hkey : L (h +:+ pathnameOf path) = h +:+ pathnameOf (List.map L path)).
  { rewrite <- pathnameOf_lower. unfold Str.toLowerCase. rewrite map_append.
    fold (L h). rewrite Hlow. reflexivity. }
  rewrite Hkey. intros Hne Hslash Hwww Hend.
  assert (Hh : h <> "").
  { intros E. rewrite E, append_nil_l in Hne, Hslash.
    destruct path as [|seg path]; [apply Hne; reflexivity|].
    cbn [List.map Str.concat] in Hslash. rewrite append_cons in Hslash.
    discriminate. }
  specialize (Hhost Hh).
  assert (Hwww' : Str.startsWith "www." h = false).
  { destruct (Str.startsWith "www." h) eqn:E; [|reflexivity].
    rewrite (startsWith_append_l _ _ _ E) in Hwww. discriminate. }
  rewrite normalizeURL_keyOf.
  destruct path as [|seg path].
  - cbn [List.map Str.concat]. rewrite append_nil_r.
    rewrite (URL_new_bare sch h Hs Hhost).
    unfold keyOf, Url.hostname, Url.pathname. cbn [Url.host Url.path].
    rewrite Hwww'. cbn [List.map Str.concat].
    change (Str.endsWith "/" ("/" +:+ "")) with true. cbn iota.
    change (Str.slice 0 (-1) ("/" +:+ "")) with "". rewrite append_nil_r.
    fold (L h). rewrite Hlow. reflexivity.
  - assert (Hpath' : Forall (fun seg => canonicalSegment seg = true)
                       (List.map L (seg :: path))).
    { apply List.Forall_map. eapply List.Forall_impl; [|exact Hpath].
      intros x. apply canonicalSegment_lower. }
    set (path' := List.map L (seg :: path)) in *.
    set (u' := Url.mk sch h None path' None None).
    assert (Hc' : canonical u').
    { unfold canonical, u'. cbn. split; [exact Hs|]. split; [exact Hhost|].
      split; [discriminate|]. split; [discriminate|].
      split; [exact Hpath' | split; discriminate]. }
    assert (Hhref : sch +:+ "://" +:+ h +:+ pathnameOf path' = Url.href u').
    { unfold Url.href, Url.pathname, u'. cbn [Url.scheme Url.host Url.port Url.path
        Url.query Url.fragment]. rewrite !append_nil_r, append_nil_l. reflexivity. }
    rewrite Hhref, (URL_new_href_canonical u' Hc').
    unfold keyOf, Url.hostname, Url.pathname, u'. cbn [Url.host Url.path].
    rewrite Hwww'.
    assert (Hend' : Str.endsWith "/" (pathnameOf path') = false).
    { rewrite endsWith_append_nonempty in Hend; [exact Hend|].
      unfold path'. cbn [List.map Str.concat]. rewrite append_cons. discriminate. }
    rewrite Hend'. unfold Str.toLowerCase at 1. rewrite map_append.
    fold (L h) (L (pathnameOf path')). rewrite Hlow, pathnameOf_lower.
    assert (List.map L path' = path') as ->; [|reflexivity].
    unfold path'. rewrite List.map_map. apply List.map_ext.
    intros x. apply toLowerCase_idem.
Qed.

End RestoreFacts.

(** ** The properties *)

Import CanonicalFacts RoundTrip LinkFacts RestoreFacts.

(** X1.  On a URL the model parses, one of the schemes [http], [https],
    [ws], [wss] and [ftp] with a domain name for host, [normalizeURL]
    returns a key that holds no upper-case ASCII letter, no blank or
    control character, no [?], no [#] and no backslash; lower-casing it
    changes nothing. *)
Theorem keys_are_lower_case_and_clean (url : string) (u : Url.t) :
  Url.URL_new url = Some u ->
  exists key,
    normalizeURL url = Ok key /\
    Str.forallb keyChar key = true /\ Str.toLowerCase key = key.
Proof.
  intros E. exists (keyOf (Url.hostname u) (Url.pathname u)).
  split; [rewrite normalizeURL_keyOf, E; reflexivity|].
  pose proof (keyOf_chars u (URL_new_canonical url u E)) as H.
  split; [exact H|].
  apply (map_id_on keyChar); [intros c; each_char c | exact H].
Qed.

(** X1 on a URL with upper-case letters, a query and a fragment. *)
Lemma keys_are_lower_case_and_clean_witness :
  normalizeURL "HTTP://WWW.Example.COM/A b\C/?Q=1#Frag" = Ok "example.com/a%20b/c" /\
  exists key,
    normalizeURL "HTTP://WWW.Example.COM/A b\C/?Q=1#Frag" = Ok key /\
    Str.forallb keyChar key = true /\ Str.toLowerCase key = key.
Proof.
  split; [vm_compute; reflexivity|].
  eapply (keys_are_lower_case_and_clean "HTTP://WWW.Example.COM/A b\C/?Q=1#Frag").
  vm_compute. reflexivity.
Defined.

(** X2.  The port is not part of the key, and not of the host test of
    [crawlPage]: the URL that differs from a URL that parses in its port
    only gets the same key, and is on the same site. *)
Theorem the_port_is_not_part_of_the_key (url : string) (u : Url.t) (p : N) :
  Url.URL_new url = Some u ->
  (p <= 65535)%N ->
  Url.default_port (Url.scheme u) <> Some p ->
  normalizeURL
    (Url.href (Url.mk (Url.scheme u) (Url.host u) (Some p) (Url.path u)
                 (Url.query u) (Url.fragment u)))
  = normalizeURL url /\
  onsite url
    (Url.href (Url.mk (Url.scheme u) (Url.host u) (Some p) (Url.path u)
                 (Url.query u) (Url.fragment u)))
  = true.
Proof.
  intros Hu Hp Hd. pose proof (URL_new_canonical url u Hu) as Hc.
  set (u' := Url.mk _ _ _ _ _ _).
  assert (Hc' : canonical u').
  { destruct Hc as (Hs & Hh & _ & Hne & Hpath & Hq & Hf).
    unfold canonical, u'. cbn.
    split; [exact Hs|]. split; [exact Hh|].
    split; [intros p' [= <-]; auto|]. auto. }
  pose proof (URL_new_href_canonical u' Hc') as Hu'. split.
  - rewrite !normalizeURL_keyOf, Hu, Hu'. reflexivity.
  - unfold onsite. rewrite Hu, Hu'. apply String.eqb_refl.
Qed.

(** X2 on port 8080. *)
Lemma the_port_is_not_part_of_the_key_witness :
  normalizeURL "http://site.test:8080/a?x=1" = normalizeURL "http://site.test/a?x=1" /\
  onsite "http://site.test/a?x=1" "http://site.test:8080/a?x=1" = true.
Proof.
  apply (the_port_is_not_part_of_the_key "http://site.test/a?x=1"
           (Url.mk "http" "site.test" None ["a"] (Some "x=1") None) 8080%N).
  - vm_compute. reflexivity.
  - vm_compute. discriminate.
  - vm_compute. discriminate.
Defined.

(** X3.  With a scheme put back, a key normalizes to itself: for the key
    that [normalizeURL] returns on a URL the model parses, when it is not
    empty, starts neither with a slash nor with [www.] and does not end
    with a slash, [normalizeURL] of [http://] or [https://] followed by the
    key is the key. *)
Theorem normalizeURL_keeps_a_key_with_its_scheme_restored
    (url key : string) (u : Url.t) :
  Url.URL_new url = Some u ->
  normalizeURL url = Ok key ->
  key <> "" ->
  Str.startsWith "/" key = false ->
  Str.startsWith "www." key = false ->
  Str.endsWith "/" key = false ->
  normalizeURL ("http://" +:+ key) = Ok key /\
  normalizeURL ("https://" +:+ key) = Ok key.
Proof.
  intros E. rewrite normalizeURL_keyOf, E. intros [= <-].
  pose proof (URL_new_canonical url u E) as Hc.
  intros Hne Hslash Hwww Hend. split.
  - apply (restore_scheme "http" u); [vm_compute; eauto | assumption ..].
  - apply (restore_scheme "https" u); [vm_compute; eauto | assumption ..].
Qed.

(** X3 on the key of a URL with a [www.] label and a trailing slash. *)
Lemma normalizeURL_keeps_a_key_with_its_scheme_restored_witness :
  normalizeURL "http://example.com/path" = Ok "example.com/path" /\
  normalizeURL "https://example.com/path" = Ok "example.com/path".
Proof.
  eapply (normalizeURL_keeps_a_key_with_its_scheme_restored
            "https://WWW.Example.com/Path/?q=1#top" "example.com/path").
  - vm_compute. reflexivity.
  - vm_compute. reflexivity.
  - discriminate.
  - reflexivity.
  - reflexivity.
  - reflexivity.
Defined.

Lemma Array_map_app {A B : Type} (callback : A -> result B) arr1 arr2 ys1 ys2 :
  Array_map callback arr1 = Ok ys1 -> Array_map callback arr2 = Ok ys2 ->
  Array_map callback (arr1 ++ arr2) = Ok (ys1 ++ ys2).
Proof.
  revert ys1. induction arr1 as [|x arr1 IH]; intros ys1; cbn.
  - intros [= <-] H. exact H.
  - destruct (callback x) as [y| | |]; cbn [bind]; try discriminate.
    destruct (Array_map callback arr1) as [ys| | |]; cbn [bind]; try discriminate.
    intros [= <-] H. rewrite (IH ys eq_refl H). reflexivity.
Qed.

(** The anchors of a page against a base that the constructor rejects. *)
Lemma Array_map_rejected baseURL hrefs :
  Url.rejects baseURL = true ->
  Array_map (resolveAnchor baseURL) hrefs =
  Ok (List.map (fun href => (None, [Log ("Invalid URL: " +:+ href)])) hrefs).
Proof.
  intros Hbase. induction hrefs as [|href hrefs IH]; [reflexivity|].
  cbn [Array_map List.map]. unfold resolveAnchor at 1. unfold newURL_base.
  rewrite (rejects_base_sound href baseURL);
    unfold Url.rejects_base; rewrite (rejects_sound _ Hbase), Hbase; [|reflexivity].
  cbn [bind]. rewrite IH. reflexivity.
Qed.

(** X4.  When [getURLsFromHTML] returns, it has given, for each anchor,
    either one link or one line on the console, keeping the order and the
    repetitions of the document: on the anchors of two documents one after
    the other it returns the links of the first followed by the links of
    the second.  It returns nothing for a document without anchors, and
    when the constructor rejects [baseURL] every anchor is dropped, absolute
    or not, with a line for each. *)
Theorem getURLsFromHTML_keeps_or_reports_each_anchor
    (anchorHrefs : string -> list string) (html baseURL : string) :
  (forall links lines,
      getURLsFromHTML anchorHrefs html baseURL = Ok (links, lines) ->
      length links + length lines = length (anchorHrefs html)) /\
  (forall html1 html2 links1 lines1 links2 lines2,
      anchorHrefs html = anchorHrefs html1 ++ anchorHrefs html2 ->
      getURLsFromHTML anchorHrefs html1 baseURL = Ok (links1, lines1) ->
      getURLsFromHTML anchorHrefs html2 baseURL = Ok (links2, lines2) ->
      getURLsFromHTML anchorHrefs html baseURL =
      Ok (links1 ++ links2, lines1 ++ lines2)) /\
  (anchorHrefs html = [] -> getURLsFromHTML anchorHrefs html baseURL = Ok ([], [])) /\
  (Url.rejects baseURL = true ->
   getURLsFromHTML anchorHrefs html baseURL =
   Ok ([], List.map (fun href => Log ("Invalid URL: " +:+ href)) (anchorHrefs html))).
Proof.
  split; [|split; [|split]].
  - intros links lines (mapped & Hall & -> & ->)%getURLsFromHTML_Ok.
    induction Hall as [|href r hrefs mapped Hr _ IH]; [reflexivity|].
    apply resolveAnchor_Ok in Hr as [(u & _ & ->)|(_ & ->)];
      cbn [List.map List.concat snd length app];
      [change (omap fst ((Some (Url.href u), ([] : list event)) :: mapped))
         with (Url.href u :: omap fst mapped)
      |change (omap fst ((None, [Log ("Invalid URL: " +:+ href)]) :: mapped))
         with (omap fst mapped)];
      cbn [length]; lia.
  - intros html1 html2 links1 lines1 links2 lines2 Hsplit H1 H2.
    unfold getURLsFromHTML in *. rewrite Hsplit.
    destruct (Array_map _ (anchorHrefs html1)) as [m1| | |] eqn:E1; try discriminate.
    destruct (Array_map _ (anchorHrefs html2)) as [m2| | |] eqn:E2; try discriminate.
    cbn [bind] in H1, H2. injection H1 as <- <-. injection H2 as <- <-.
    rewrite (Array_map_app _ _ _ _ _ E1 E2). cbn [bind].
    rewrite omap_app, List.map_app, List.concat_app. reflexivity.
  - intros E. unfold getURLsFromHTML. rewrite E. reflexivity.
  - intros Hbase. unfold getURLsFromHTML.
    rewrite (Array_map_rejected baseURL _ Hbase). cbn [bind]. f_equal. f_equal.
    + induction (anchorHrefs html) as [|href hrefs IH]; [reflexivity | exact IH].
    + induction (anchorHrefs html) as [|href hrefs IH]; [reflexivity|].
      cbn. rewrite IH. reflexivity.
Qed.

(** X4 on a page with a relative link, a link without a host and an absolute
    one, and on a base without a scheme. *)
Lemma getURLsFromHTML_keeps_or_reports_each_anchor_witness :
  getURLsFromHTML wordsOf "/a http:// http://other.test/" "http://site.test/"
  = Ok (["http://site.test/a"; "http://other.test/"],
        [Log "Invalid URL: http://"]) /\
  getURLsFromHTML wordsOf "/a http://other.test/" "site.test"
  = Ok ([], [Log "Invalid URL: /a"; Log "Invalid URL: http://other.test/"]).
Proof.
  split.
  - apply (proj1 (proj2 (getURLsFromHTML_keeps_or_reports_each_anchor wordsOf
             "/a http:// http://other.test/" "http://site.test/"))
             "/a http://" "http://other.test/"
             ["http://site.test/a"] [Log "Invalid URL: http://"]
             ["http://other.test/"] []); vm_compute; reflexivity.
  - apply (proj2 (proj2 (proj2 (getURLsFromHTML_keeps_or_reports_each_anchor wordsOf
             "/a http://other.test/" "site.test")))).
    vm_compute. reflexivity.
Defined.

(** X5.  Every link [getURLsFromHTML] returns is the [href] of the URL that
    one of the anchors resolves to against [baseURL], and it is absolute:
    parsing the link alone gives that URL back.  So a document whose anchors
    are these links gives the same links, and prints nothing, against any
    base that parses. *)
Theorem getURLsFromHTML_links_are_absolute
    (anchorHrefs : string -> list string) (html baseURL : string)
    (links : list string) (lines : list event) :
  getURLsFromHTML anchorHrefs html baseURL = Ok (links, lines) ->
  (forall link,
      In link links ->
      exists href u,
        In href (anchorHrefs html) /\
        Url.URL_new_base href baseURL = Some u /\
        link = Url.href u /\
        Url.URL_new link = Some u) /\
  (forall html' otherBase,
      anchorHrefs html' = links ->
      is_Some (Url.URL_new otherBase) ->
      getURLsFromHTML anchorHrefs html' otherBase = Ok (links, [])).
Proof.
  intros Hg. split.
  - intros link Hin. apply (links_resolved _ _ _ _ _ _ Hg) in Hin as (href & u & Hin & Hu & ->).
    exists href, u. split; [exact Hin|]. split; [exact Hu|]. split; [reflexivity|].
    apply URL_new_href_canonical. eapply URL_new_base_canonical. exact Hu.
  - intros html' otherBase Hanchors Hbase.
    rewrite (resolve_all anchorHrefs html' otherBase Hbase); rewrite Hanchors;
      [reflexivity|].
    apply List.Forall_forall. intros link Hin.
    apply (links_resolved _ _ _ _ _ _ Hg) in Hin as (href & u & _ & Hu & ->).
    exists u. split; [|reflexivity]. eapply URL_new_base_canonical. exact Hu.
Qed.

(** X5 on a page with two relative links and one to another host. *)
Lemma getURLsFromHTML_links_are_absolute_witness :
  getURLsFromHTML wordsOf
    "http://site.test/a http://site.test/dir/b?x=1#top https://other.test/"
    "https://else.test/deep/page"
  = Ok (["http://site.test/a"; "http://site.test/dir/b?x=1#top"; "https://other.test/"],
        []).
Proof.
  apply (proj2 (getURLsFromHTML_links_are_absolute wordsOf
                  "/a b?x=1#top https://other.test" "http://site.test/dir/"
                  ["http://site.test/a"; "http://site.test/dir/b?x=1#top";
                   "https://other.test/"] []
                  ltac:(vm_compute; reflexivity))).
  - vm_compute. reflexivity.
  - vm_compute. eauto.
Defined.

(** X6.  An anchor whose [href], once the parser has removed the blanks
    around it and the tabs and newlines in it, has no scheme and does not
    start with two slashes or backslashes always resolves against a
    [baseURL] that parses: the callback of [getURLsFromHTML] returns its
    link and prints nothing, the link is among those [getURLsFromHTML]
    returns, and it is on the host of [baseURL], so [crawlPage] never skips
    it as off the site. *)
Theorem relative_links_stay_on_the_seed_host
    (anchorHrefs : string -> list string) (html baseURL href : string) :
  is_Some (Url.URL_new baseURL) ->
  In href (anchorHrefs html) ->
  Url.parse_scheme (Url.preprocess href) = None ->
  Str.startsWith "//" (Str.map Url.backslash_to_slash (Url.preprocess href)) = false ->
  exists u,
    Url.URL_new_base href baseURL = Some u /\
    resolveAnchor baseURL href = Ok (Some (Url.href u), []) /\
    (forall links lines,
        getURLsFromHTML anchorHrefs html baseURL = Ok (links, lines) ->
        In (Url.href u) links) /\
    onsite baseURL (Url.href u) = true.
Proof.
  intros [b Hb] Hin Hscheme Hslashes.
  destruct (resolve_relative b (Url.preprocess href) Hslashes) as (u & Hu & Hhost).
  assert (Hnew : Url.URL_new_base href baseURL = Some u).
  { unfold Url.URL_new_base. rewrite Hb, Hscheme. exact Hu. }
  exists u. split; [exact Hnew|]. split; [|split].
  - unfold resolveAnchor, newURL_base. rewrite Hnew. reflexivity.
  - intros links lines Hg. apply (links_resolved _ _ _ _ _ _ Hg). exists href, u. auto.
  - rewrite (onsite_href baseURL b u Hb) by (eapply URL_new_base_canonical; exact Hnew).
    unfold Url.hostname. rewrite Hhost. apply String.eqb_refl.
Qed.

(** X6 on a link that climbs out of a directory. *)
Lemma relative_links_stay_on_the_seed_host_witness :
  exists u,
    Url.URL_new_base "../b?x=1" "http://site.test/dir/page" = Some u /\
    resolveAnchor "http://site.test/dir/page" "../b?x=1" = Ok (Some (Url.href u), []) /\
    (forall links lines,
        getURLsFromHTML wordsOf "../b?x=1 http://other.test/"
          "http://site.test/dir/page" = Ok (links, lines) ->
        In (Url.href u) links) /\
    onsite "http://site.test/dir/page" (Url.href u) = true.
Proof.
  apply (relative_links_stay_on_the_seed_host wordsOf
           "../b?x=1 http://other.test/" "http://site.test/dir/page" "../b?x=1").
  - vm_compute. eauto.
  - vm_compute. auto.
  - vm_compute. reflexivity.
  - vm_compute. reflexivity.
Defined.

(** X7.  [fetchHTML] returns the body of a response exactly when its status
    is at most 399 and it has a [content-type] header that includes
    [text/html]; a response with such a status and no header, or an empty
    one, or one without [text/html], fails with the message
    [Got non-HTML response: ] followed by the header ([null] when it is
    missing). *)
Theorem fetchHTML_returns_html_only (fetch : string -> fetched) (url : string) :
  (forall body,
      fetchHTML fetch url = inr body <->
      exists status statusText contentType,
        fetch url = Response status statusText (Some contentType) body /\
        status <= 399 /\
        Str.includes "text/html" contentType = true) /\
  (forall status statusText body,
      fetch url = Response status statusText None body ->
      status <= 399 ->
      fetchHTML fetch url = inl "Got non-HTML response: null") /\
  (forall status statusText contentType body,
      fetch url = Response status statusText (Some contentType) body ->
      status <= 399 ->
      Str.includes "text/html" contentType = false ->
      fetchHTML fetch url = inl ("Got non-HTML response: " +:+ contentType)).
Proof.
  unfold fetchHTML. split; [|split].
  - intros body. split.
    + destruct (fetch url) as [message|status statusText contentType body'];
        [discriminate|].
      destruct (Nat.ltb_spec 399 status); [discriminate|].
      destruct contentType as [contentType|]; [|discriminate]. cbn.
      destruct (String.eqb_spec contentType "") as [->|_]; [discriminate|]. cbn.
      destruct (Str.includes "text/html" contentType) eqn:E; [|discriminate].
      intros [= <-]. exists status, statusText, contentType. auto.
    + intros (status & statusText & contentType & -> & Hs & Hc).
      destruct (Nat.ltb_spec 399 status); [lia|]. cbn. rewrite Hc.
      destruct (String.eqb_spec contentType "") as [->|_]; [discriminate|].
      reflexivity.
  - intros status statusText body -> Hs.
    destruct (Nat.ltb_spec 399 status); [lia | reflexivity].
  - intros status statusText contentType body -> Hs Hc.
    destruct (Nat.ltb_spec 399 status); [lia|]. cbn. rewrite Hc, orb_true_r.
    reflexivity.
Qed.

(** X7 on a response that is a PDF and one that is a page. *)
Lemma fetchHTML_returns_html_only_witness :
  fetchHTML (fun _ => Response 200 "OK" (Some "application/pdf") "%PDF")
    "http://site.test/file"
  = inl "Got non-HTML response: application/pdf" /\
  fetchHTML (fun _ => Response 200 "OK" (Some "text/html; charset=utf-8") "<html>")
    "http://site.test/" = inr "<html>".
Proof.
  split.
  - apply (proj2 (proj2 (fetchHTML_returns_html_only
                           (fun _ => Response 200 "OK" (Some "application/pdf") "%PDF")
                           "http://site.test/file"))
             200 "OK" "application/pdf" "%PDF"); [reflexivity | lia | reflexivity].
  - apply (proj1 (fetchHTML_returns_html_only
                    (fun _ => Response 200 "OK" (Some "text/html; charset=utf-8") "<html>")
                    "http://site.test/")).
    exists 200, "OK", "text/html; charset=utf-8".
    split; [reflexivity|]. split; [lia | reflexivity].
Defined.

(** X8.  A crawl that returns has requested the seed first, as it was
    written, and holds the key of the seed with a count of at least one,
    unless that key is [__proto__]; when the seed cannot be fetched, the
    table is what the assignment of 1 to that key makes of the empty table,
    and the message of the failure is all that is printed after the
    request. *)
Theorem the_seed_is_requested_first
    (fetch : string -> fetched) (anchorHrefs : string -> list string)
    (fuel : nat) (seed : string) (pages : gmap string nat) (out : list event) :
  crawl fetch anchorHrefs fuel seed = Ok (pages, out) ->
  exists key rest,
    normalizeURL seed = Ok key /\
    out = Log ("crawling " +:+ seed) :: Fetch seed :: rest /\
    (key <> "__proto__" -> 1 <= pages !!! key) /\
    (forall message,
        fetchHTML fetch seed = inl message ->
        pages = assign key 1 ∅ /\ rest = [Log message] /\
        (key <> "__proto__" -> pages = {[ key := 1 ]})).
Proof.
  intros H. pose proof (crawl_seed_onsite _ _ _ _ _ H) as Hon.
  unfold crawl in H. destruct fuel as [|fuel]; [discriminate|].
  rewrite crawlPage_unfold in H.
  destruct (Url.URL_new seed) as [s|]; [|destruct (Url.rejects seed); discriminate].
  rewrite Hon in H. cbn [negb] in H.
  destruct (normalizeURL seed) as [key| | |] eqn:Ek; try discriminate. cbn [bind] in H.
  rewrite lookup_total_empty in H.
  change (0 <? inhabitant) with false in H. cbn iota in H.
  assert (Hw : key <> "__proto__" -> assign key 1 (∅ : gmap string nat) = {[ key := 1 ]}).
  { intros Hne. rewrite assign_writable by (left; exact Hne). apply insert_empty. }
  destruct (fetchHTML fetch seed) as [message|html] eqn:Ef.
  - injection H as <- <-. exists key, [Log message].
    split; [reflexivity|]. split; [reflexivity|].
    split; [intros Hne; rewrite (Hw Hne), lookup_total_singleton_eq; lia|].
    intros m [= <-]. auto.
  - destruct (getURLsFromHTML anchorHrefs html seed) as [[links lines]| | |] eqn:Eg;
      try discriminate.
    cbn [bind fst snd] in H.
    apply forEach_crawlsEach in H; [|intros u [p o] st'; apply crawlPage_crawls].
    apply (proj2 (crawls_summary fetch anchorHrefs seed)) in H.
    destruct H as (new & Hnew & Hc & _). cbn [fst snd] in Hnew, Hc.
    exists key, (lines ++ new).
    split; [reflexivity|]. split; [rewrite Hnew; reflexivity|].
    split; [|discriminate].
    intros Hne. rewrite Hc by (left; exact Hne).
    rewrite (Hw Hne), lookup_total_singleton_eq. lia.
Qed.

(** X8 on a seed that does not answer. *)
Lemma the_seed_is_requested_first_witness :
  exists pages out,
    crawl diamondWeb wordsOf 1 "http://site.test/missing" = Ok (pages, out) /\
    exists key rest,
      normalizeURL "http://site.test/missing" = Ok key /\
      out = Log ("crawling " +:+ "http://site.test/missing")
              :: Fetch "http://site.test/missing" :: rest /\
      (key <> "__proto__" -> 1 <= pages !!! key) /\
      (forall message,
          fetchHTML diamondWeb "http://site.test/missing" = inl message ->
          pages = assign key 1 ∅ /\ rest = [Log message] /\
          (key <> "__proto__" -> pages = {[ key := 1 ]})).
Proof.
  eexists _, _. split; [vm_compute; reflexivity|].
  eapply (the_seed_is_requested_first diamondWeb wordsOf 1 "http://site.test/missing").
  vm_compute. reflexivity.
Defined.

(** X9.  Every request a call of [crawlPage] makes is announced by the line
    [crawling <url>] printed right before it, goes to a URL whose hostname
    is the seed's, and is for the URL the call was given or for a link found
    on a page fetched during the call; what was printed and fetched before
    the call is kept as it was. *)
Theorem requests_are_announced_and_stay_on_the_host
    (fetch : string -> fetched) (anchorHrefs : string -> list string)
    (fuel : nat) (baseURL currentURL : string)
    (pages pages' : gmap string nat) (out out' : list event) :
  crawlPage fetch anchorHrefs fuel baseURL currentURL pages out = Ok (pages', out') ->
  exists new,
    out' = out ++ new /\
    announced new = true /\
    (forall url, In (Fetch url) new ->
       onsite baseURL url = true /\
       (url = currentURL \/ In url (discovered fetch anchorHrefs baseURL new))).
Proof.
  intros H. apply crawlPage_crawls in H.
  apply (proj1 (crawls_inScope fetch anchorHrefs baseURL)) in H.
  destruct H as (new & Hnew & Hann & Hreq). exists new.
  split; [exact Hnew|]. split; [exact Hann|].
  intros url Hin. destruct (Hreq url Hin) as [Hon [E|Hd]]; auto.
Qed.

(** X9 on the crawl of the site with a page that answers 404. *)
Lemma requests_are_announced_and_stay_on_the_host_witness :
  exists pages' out',
    crawlPage brokenWeb wordsOf 3 "http://site.test/" "http://site.test/" ∅ []
    = Ok (pages', out') /\
    exists new,
      out' = [] ++ new /\
      announced new = true /\
      (forall url, In (Fetch url) new ->
         onsite "http://site.test/" url = true /\
         (url = "http://site.test/" \/
          In url (discovered brokenWeb wordsOf "http://site.test/" new))).
Proof.
  eexists _, _. split; [vm_compute; reflexivity|].
  eapply (requests_are_announced_and_stay_on_the_host brokenWeb wordsOf 3
            "http://site.test/" "http://site.test/" ∅ _ [] _).
  vm_compute. reflexivity.
Defined.

(** X10.  A call of [crawlPage] that returns has requested at most once
    each key that the table writes: once the keys it is the first to count,
    and never a key the table it was given already counted.  On a table of
    positive counts it makes as many requests as it adds keys, the requests
    for the key [__proto__] apart when the table does not own that key.  So
    a whole crawl makes exactly one request for each key of the table it
    returns, and none for any other key but [__proto__], which is never in
    the table. *)
Theorem one_request_for_each_new_key
    (fetch : string -> fetched) (anchorHrefs : string -> list string) :
  (forall fuel baseURL currentURL pages out pages' out',
      crawlPage fetch anchorHrefs fuel baseURL currentURL pages out
      = Ok (pages', out') ->
      exists new,
        out' = out ++ new /\
        (forall key,
            writable pages key ->
            fetches key new =
            if (pages !!! key =? 0) && (0 <? pages' !!! key) then 1 else 0) /\
        (positiveCounts pages ->
         size pages' + unrecorded pages new = size pages + requests new)) /\
  (forall fuel seed pages out,
      crawl fetch anchorHrefs fuel seed = Ok (pages, out) ->
      requests out = size pages + fetches "__proto__" out /\
      pages !! "__proto__" = None /\
      (forall key, key <> "__proto__" ->
                   (is_Some (pages !! key) <-> fetches key out = 1))).
Proof.
  assert (Hcall : forall fuel baseURL currentURL pages out pages' out',
             crawlPage fetch anchorHrefs fuel baseURL currentURL pages out
             = Ok (pages', out') ->
             exists new,
               out' = out ++ new /\
               (forall key,
                   writable pages key ->
                   fetches key new =
                   if (pages !!! key =? 0) && (0 <? pages' !!! key) then 1 else 0) /\
               (positiveCounts pages ->
                size pages' + unrecorded pages new = size pages + requests new)).
  { intros fuel baseURL currentURL pages out pages' out' H.
    destruct (crawlPage_summary _ _ _ _ _ _ _ _ H) as (new & Hnew & _ & Hf & _).
    cbn [fst snd] in Hnew, Hf. exists new.
    split; [exact Hnew|]. split; [exact Hf|]. intros Hpos.
    apply crawlPage_crawls in H.
    apply (proj1 (crawls_oneEach fetch anchorHrefs baseURL)) in H.
    destruct (H Hpos) as (_ & new' & Hnew' & Hsize). cbn [fst snd] in Hnew', Hsize.
    rewrite Hnew in Hnew'. apply List.app_inv_head in Hnew' as ->. exact Hsize. }
  split; [exact Hcall|].
  intros fuel seed pages out H.
  destruct (crawl_run fetch anchorHrefs fuel seed pages out H)
    as (_ & Hf & [Habs _] & Hpos & _).
  split; [|split; [exact Habs|]].
  - destruct (Hcall _ _ _ _ _ _ _ H) as (new & Hnew & _ & Hsize).
    cbn [app] in Hnew. subst new.
    assert (Hempty : positiveCounts ∅) by (intros k n; rewrite lookup_empty; discriminate).
    specialize (Hsize Hempty).
    unfold unrecorded in Hsize. rewrite lookup_empty, map_size_empty in Hsize. lia.
  - intros key Hne. rewrite Hf by exact Hne. split.
    + intros [n Hn]. specialize (Hpos key n Hn).
      rewrite lookup_total_alt, Hn. cbn [default from_option id].
      destruct (Nat.ltb_spec 0 n); [reflexivity | lia].
    + destruct (Nat.ltb_spec 0 (pages !!! key)) as [Hlt|]; [|discriminate].
      intros _. apply lookup_total_positive, Hlt.
Qed.

(** X10 on the site where two pages link to [c]: four keys, four requests. *)
Lemma one_request_for_each_new_key_witness :
  exists pages out,
    crawl diamondWeb wordsOf 3 "http://site.test/" = Ok (pages, out) /\
    (requests out = size pages + fetches "__proto__" out /\
     pages !! "__proto__" = None /\
     (forall key, key <> "__proto__" ->
                  (is_Some (pages !! key) <-> fetches key out = 1))) /\
    requests out = 4.
Proof.
  eexists _, _. split; [vm_compute; reflexivity|].
  split; [|vm_compute; reflexivity].
  apply (proj2 (one_request_for_each_new_key diamondWeb wordsOf) 3 "http://site.test/").
  vm_compute. reflexivity.
Defined.

(** X11.  No visit is lost and none is counted twice: the sum of the counts
    of the table grows, in a call of [crawlPage], by the number of URLs on
    the seed's host among the URL it was given and the links found on the
    pages fetched during the call, the visits of the key [__proto__] apart
    when the table does not own that key.  After a whole crawl the counts,
    with the visits of [__proto__], sum to one more than the number of
    links to the seed's host found on the fetched pages. *)
Theorem counts_sum_to_the_visits
    (fetch : string -> fetched) (anchorHrefs : string -> list string) :
  (forall fuel baseURL currentURL pages out pages' out',
      crawlPage fetch anchorHrefs fuel baseURL currentURL pages out
      = Ok (pages', out') ->
      exists new,
        out' = out ++ new /\
        totalCount pages'
        + uncounted baseURL pages
            (currentURL :: discovered fetch anchorHrefs baseURL new) =
        totalCount pages
        + count (onsite baseURL)
            (currentURL :: discovered fetch anchorHrefs baseURL new)) /\
  (forall fuel seed pages out,
      crawl fetch anchorHrefs fuel seed = Ok (pages, out) ->
      totalCount pages
      + hits seed "__proto__" (seed :: discovered fetch anchorHrefs seed out) =
      1 + count (onsite seed) (discovered fetch anchorHrefs seed out)).
Proof.
  assert (Hcall : forall fuel baseURL currentURL pages out pages' out',
             crawlPage fetch anchorHrefs fuel baseURL currentURL pages out
             = Ok (pages', out') ->
             exists new,
               out' = out ++ new /\
               totalCount pages'
               + uncounted baseURL pages
                   (currentURL :: discovered fetch anchorHrefs baseURL new) =
               totalCount pages
               + count (onsite baseURL)
                   (currentURL :: discovered fetch anchorHrefs baseURL new)).
  { intros fuel baseURL currentURL pages out pages' out' H.
    apply crawlPage_crawls in H.
    apply (proj1 (crawls_allCounted fetch anchorHrefs baseURL)) in H.
    exact H. }
  split; [exact Hcall|].
  intros fuel seed pages out H.
  destruct (Hcall _ _ _ _ _ _ _ H) as (new & Hnew & Htot).
  cbn [app] in Hnew. subst new.
  unfold uncounted in Htot. rewrite lookup_empty in Htot. rewrite Htot. cbn [count].
  rewrite (crawl_seed_onsite _ _ _ _ _ H).
  unfold totalCount. rewrite map_to_list_empty. reflexivity.
Qed.

(** X11 on the cycle between [a] and [b]: two links, and the counts sum to
    three. *)
Lemma counts_sum_to_the_visits_witness :
  exists pages out,
    crawl cycleWeb wordsOf 3 "http://site.test/a" = Ok (pages, out) /\
    totalCount pages
    + hits "http://site.test/a" "__proto__"
        ("http://site.test/a" :: discovered cycleWeb wordsOf "http://site.test/a" out) =
    1 + count (onsite "http://site.test/a")
          (discovered cycleWeb wordsOf "http://site.test/a" out) /\
    totalCount pages = 3.
Proof.
  eexists _, _. split; [vm_compute; reflexivity|].
  split; [|vm_compute; reflexivity].
  apply (proj2 (counts_sum_to_the_visits cycleWeb wordsOf) 3 "http://site.test/a").
  vm_compute. reflexivity.
Defined.

(** X12.  [printReport] prints the three lines of the header and then one
    line for each page of the table: as many lines as the table has keys, no
    two of them the same, and the line [Found <count> internal links to
    <url>] is printed exactly for the pages [url] that the table holds with
    count [count]. *)
Theorem printReport_prints_each_page_once
    (localeCompare : string -> string -> Z) (pages : gmap string nat) :
  exists lines,
    printReport localeCompare pages =
    Log "==========" :: Log "REPORT" :: Log "==========" :: List.map Log lines /\
    length lines = size pages /\
    List.NoDup lines /\
    (forall url count,
        pages !! url = Some count <->
        In ("Found " +:+ show_nat count +:+ " internal links to " +:+ url) lines).
Proof.
  exists (List.map reportLine (sortPages localeCompare pages)).
  pose proof (Array_sort_perm (comparePages localeCompare) (map_to_list pages))
    as Hperm.
  fold (sortEntries localeCompare (map_to_list pages)) in Hperm.
  fold (sortPages localeCompare pages) in Hperm.
  split; [|split; [|split]].
  - unfold printReport. cbn [app]. rewrite List.map_map. reflexivity.
  - rewrite List.length_map, (Permutation_length Hperm). apply length_map_to_list.
  - apply NoDup_ListNoDup, (NoDup_fmap_2_strong reportLine).
    + intros x y _ _. apply reportLine_inj.
    + rewrite Hperm. apply NoDup_map_to_list.
  - intros url count. rewrite <- elem_of_map_to_list, list_elem_of_In.
    change ("Found " +:+ show_nat count +:+ " internal links to " +:+ url)
      with (reportLine (url, count)).
    rewrite List.in_map_iff. split.
    + intros Hin. exists (url, count). split; [reflexivity|].
      apply (Permutation_in _ (Permutation_sym Hperm)), Hin.
    + intros (p & Hp & Hin). apply reportLine_inj in Hp as ->.
      apply (Permutation_in _ Hperm), Hin.
Qed.

Local Open Scope Z_scope.

(** X13.  For a collation that is consistent but may find different keys
    alike, as the collation of the platform does, [sortPages] returns the
    entries of the table, each once, with the larger counts first and,
    among equal counts, no key after one that collates before it; so the
    first entry has a count that no page of the table exceeds. *)
Theorem sortPages_orders_up_to_the_collation
    (localeCompare : string -> string -> Z) (pages : gmap string nat) :
  consistentCompare localeCompare ->
  StronglySorted (reportOrderUpTo localeCompare) (sortPages localeCompare pages) /\
  Permutation (sortPages localeCompare pages) (map_to_list pages) /\
  (forall first rest,
      sortPages localeCompare pages = first :: rest ->
      forall url count, pages !! url = Some count -> (count <= snd first)%nat).
Proof.
  intros Hcollation.
  pose proof (Array_sort_perm (comparePages localeCompare) (map_to_list pages))
    as Hperm.
  fold (sortEntries localeCompare (map_to_list pages)) in Hperm.
  fold (sortPages localeCompare pages) in Hperm.
  pose proof (sortPages_ordered localeCompare Hcollation pages) as Hsorted.
  split; [exact Hsorted|]. split; [exact Hperm|].
  intros first rest E url count Hin. rewrite E in Hsorted, Hperm.
  apply elem_of_map_to_list, list_elem_of_In in Hin.
  apply (Permutation_in _ (Permutation_sym Hperm)) in Hin.
  destruct Hin as [->|Hin]; [cbn; lia|].
  apply StronglySorted_inv in Hsorted as [_ Hall].
  rewrite List.Forall_forall in Hall. specialize (Hall _ Hin).
  unfold reportOrderUpTo in Hall. cbn in Hall. lia.
Qed.

(** X13 on a table of three pages, with a collation that finds every two
    strings alike. *)
Lemma sortPages_orders_up_to_the_collation_witness :
  StronglySorted (reportOrderUpTo (fun _ _ => 0))
    (sortPages (fun _ _ => 0)
       (<["a" := 2%nat]> (<["b" := 3%nat]> (<["c" := 2%nat]> ∅)))) /\
  forall url count,
    (<["a" := 2%nat]> (<["b" := 3%nat]> (<["c" := 2%nat]> ∅)) : gmap string nat)
      !! url = Some count ->
    (count <= snd ("b", 3%nat))%nat.
Proof.
  destruct (sortPages_orders_up_to_the_collation (fun _ _ => 0)
              (<["a" := 2%nat]> (<["b" := 3%nat]> (<["c" := 2%nat]> ∅))))
    as (Hsorted & _ & Hfirst).
  { split; intros; lia. }
  split; [exact Hsorted|].
  apply (Hfirst ("b", 3%nat) [("c", 2%nat); ("a", 2%nat)]).
  vm_compute. reflexivity.
Defined.

Local Open Scope nat_scope.

(** X14.  The report of a crawl has, after its header, one line for each
    request the crawl made, the requests for the key [__proto__] apart;
    none of its lines reports zero links, and the page of the seed is among
    them, unless its key is [__proto__]. *)
Theorem the_report_of_a_crawl_has_a_line_for_each_request
    (fetch : string -> fetched) (anchorHrefs : string -> list string)
    (localeCompare : string -> string -> Z)
    (fuel : nat) (seed : string) (pages : gmap string nat) (out : list event) :
  crawl fetch anchorHrefs fuel seed = Ok (pages, out) ->
  exists lines,
    printReport localeCompare pages =
    Log "==========" :: Log "REPORT" :: Log "==========" :: List.map Log lines /\
    length lines + fetches "__proto__" out = requests out /\
    (forall url, ~ In ("Found 0 internal links to " +:+ url) lines) /\
    (exists key,
        normalizeURL seed = Ok key /\
        (key <> "__proto__" ->
         exists count,
           0 < count /\
           In ("Found " +:+ show_nat count +:+ " internal links to " +:+ key) lines)).
Proof.
  intros Hrun.
  pose proof (Array_sort_perm (comparePages localeCompare) (map_to_list pages))
    as Hperm.
  fold (sortEntries localeCompare (map_to_list pages)) in Hperm.
  fold (sortPages localeCompare pages) in Hperm.
  destruct (crawl_run fetch anchorHrefs fuel seed pages out Hrun)
    as (Hcount & _ & _ & Hpos & _).
  exists (List.map reportLine (sortPages localeCompare pages)).
  split; [unfold printReport; cbn [app]; rewrite List.map_map; reflexivity|].
  split; [|split].
  - rewrite List.length_map, (Permutation_length Hperm), length_map_to_list.
    pose proof (crawls_oneEach fetch anchorHrefs seed) as [Hone _].
    apply crawlPage_crawls in Hrun. apply Hone in Hrun.
    unfold oneEach in Hrun. cbn [fst snd] in Hrun.
    destruct Hrun as (_ & new & Hnew & Hsize).
    { intros k n. rewrite lookup_empty. discriminate. }
    cbn [app] in Hnew. subst new.
    unfold unrecorded in Hsize. rewrite lookup_empty, map_size_empty in Hsize.
    lia.
  - intros url Hin. apply List.in_map_iff in Hin as ([k n] & Hline & Hin).
    change ("Found 0 internal links to " +:+ url) with (reportLine (url, 0)) in Hline.
    apply reportLine_inj in Hline. injection Hline as -> ->.
    apply (Permutation_in _ Hperm), list_elem_of_In, elem_of_map_to_list in Hin.
    specialize (Hpos _ _ Hin). lia.
  - pose proof (crawl_seed_onsite _ _ _ _ _ Hrun) as Hon.
    destruct (normalizeURL_parses seed) as [key Ek].
    { unfold onsite in Hon. destruct (Url.URL_new seed); [discriminate | discriminate Hon]. }
    exists key. split; [exact Ek|]. intros Hne.
    specialize (Hcount key Hne). rewrite (hits_onsite seed key key seed Hon Ek) in Hcount.
    destruct (decide (key = key)) as [_|]; [|contradiction].
    destruct (pages !!! key) as [|n] eqn:En; [lia|].
    exists (S n). split; [lia|].
    change (In (reportLine (key, S n))
              (List.map reportLine (sortPages localeCompare pages))).
    apply List.in_map, (Permutation_in _ (Permutation_sym Hperm)).
    apply list_elem_of_In, elem_of_map_to_list, lookup_of_total. exact En.
Qed.

(** X14 on the crawl of the site with a page that answers 404. *)
Lemma the_report_of_a_crawl_has_a_line_for_each_request_witness :
  exists pages out,
    crawl brokenWeb wordsOf 3 "http://site.test/" = Ok (pages, out) /\
    exists lines,
      printReport rootCompare pages =
      Log "==========" :: Log "REPORT" :: Log "==========" :: List.map Log lines /\
      length lines + fetches "__proto__" out = requests out /\
      (forall url, ~ In ("Found 0 internal links to " +:+ url) lines) /\
      (exists key,
          normalizeURL "http://site.test/" = Ok key /\
          (key <> "__proto__" ->
           exists count,
             0 < count /\
             In ("Found " +:+ show_nat count +:+ " internal links to " +:+ key) lines)).
Proof.
  eexists _, _. split; [vm_compute; reflexivity|].
  eapply (the_report_of_a_crawl_has_a_line_for_each_request brokenWeb wordsOf
            rootCompare 3 "http://site.test/").
  vm_compute. reflexivity.
Defined.

(** X15.  A call of [crawlPage] on a URL of the seed's host whose key the
    visit table already holds adds exactly one to that key's count and
    returns: the events are unchanged, so nothing is fetched and no link is
    followed.  In a whole run, a key other than the seed's and other than
    [__proto__] to which exactly two of the discovered links lead is
    fetched exactly once and ends with count 2. *)
Theorem revisit_counts_without_fetch
    (fetch : string -> fetched) (anchorHrefs : string -> list string) :
  (forall fuel baseURL currentURL key pages out,
      positiveCounts pages ->
      onsite baseURL currentURL = true ->
      normalizeURL currentURL = Ok key ->
      is_Some (pages !! key) ->
      crawlPage fetch anchorHrefs (S fuel) baseURL currentURL pages out =
      Ok (<[key := S (pages !!! key)]> pages, out)) /\
  (forall fuel seed pages out keyC,
      crawl fetch anchorHrefs fuel seed = Ok (pages, out) ->
      keyC <> "__proto__" ->
      normalizeURL seed <> Ok keyC ->
      hits seed keyC (discovered fetch anchorHrefs seed out) = 2 ->
      fetches keyC out = 1 /\ pages !! keyC = Some 2).
Proof.
  split.
  - intros fuel baseURL cur key pages out Hpos Hon Hk [n Hn].
    rewrite crawlPage_unfold. pose proof Hon as Hon'. unfold onsite in Hon'.
    destruct (Url.URL_new cur) as [c|] eqn:Ec; [|discriminate].
    destruct (Url.URL_new baseURL) as [b|] eqn:Eb; [|discriminate].
    rewrite Hon, Hk. cbn [negb bind].
    assert (Hlt : 0 < pages !!! key).
    { rewrite lookup_total_alt, Hn. cbn. eauto. }
    rewrite (assign_positive _ _ _ Hlt).
    apply Nat.ltb_lt in Hlt. rewrite Hlt. reflexivity.
  - intros fuel seed pages out keyC Hrun Hne Hseed Hhits.
    destruct (crawl_run fetch anchorHrefs fuel seed pages out Hrun) as (Hc & Hf & _).
    specialize (Hc keyC Hne). rewrite hits_other, Hhits in Hc by exact Hseed.
    split; [rewrite Hf, Hc by exact Hne; reflexivity | apply lookup_of_total; exact Hc].
Qed.

(** X15 on the fixture where two pages link to [c]. *)
Lemma revisit_counts_without_fetch_witness :
  crawlPage diamondWeb wordsOf 1 "http://site.test/" "http://site.test/c"
    {[ "site.test/c" := 1 ]} []
  = Ok (<["site.test/c" := 2]> {[ "site.test/c" := 1 ]}, []) /\
  exists pages out,
    crawl diamondWeb wordsOf 3 "http://site.test/" = Ok (pages, out) /\
    fetches "site.test/c" out = 1 /\ pages !! "site.test/c" = Some 2.
Proof.
  split.
  - apply (proj1 (revisit_counts_without_fetch diamondWeb wordsOf)
             0 "http://site.test/" "http://site.test/c" "site.test/c").
    + intros k n. rewrite lookup_singleton_Some. intros [_ <-]. lia.
    + vm_compute. reflexivity.
    + vm_compute. reflexivity.
    + rewrite lookup_singleton_eq. eauto.
  - eexists _, _. split; [vm_compute; reflexivity|].
    eapply (proj2 (revisit_counts_without_fetch diamondWeb wordsOf) 3 "http://site.test/").
    + vm_compute. reflexivity.
    + discriminate.
    + vm_compute. discriminate.
    + vm_compute. reflexivity.
Defined.

(** X16.  A response with a status above 399 makes [fetchHTML] fail.  A
    call of [crawlPage] on a page not counted yet, of a key other than
    [__proto__], whose fetch fails records the key with count 1, prints the
    error after the fetch and returns the table: no link of the page is
    followed.  The call returns normally, so the loop over the links of the
    parent goes on with the siblings, from that table; and in every run the
    count of every key other than [__proto__] is the number of its visits,
    whatever fetches failed. *)
Theorem failed_fetch_ends_only_its_branch
    (fetch : string -> fetched) (anchorHrefs : string -> list string) :
  (forall url status statusText contentType body,
      fetch url = Response status statusText contentType body ->
      399 < status ->
      fetchHTML fetch url =
      inl ("Got HTTP error: " +:+ show_nat status +:+ " " +:+ statusText)) /\
  (forall fuel baseURL currentURL key message pages out,
      onsite baseURL currentURL = true ->
      normalizeURL currentURL = Ok key ->
      key <> "__proto__" ->
      pages !!! key = 0 ->
      fetchHTML fetch currentURL = inl message ->
      crawlPage fetch anchorHrefs (S fuel) baseURL currentURL pages out =
      Ok (<[key := 1]> pages,
          out ++ [Log ("crawling " +:+ currentURL); Fetch currentURL; Log message])) /\
  (forall fuel baseURL currentURL siblings key message pages out,
      onsite baseURL currentURL = true ->
      normalizeURL currentURL = Ok key ->
      key <> "__proto__" ->
      pages !!! key = 0 ->
      fetchHTML fetch currentURL = inl message ->
      forEach (fun nextURL st =>
                 crawlPage fetch anchorHrefs (S fuel) baseURL nextURL (fst st) (snd st))
        (currentURL :: siblings) (pages, out) =
      forEach (fun nextURL st =>
                 crawlPage fetch anchorHrefs (S fuel) baseURL nextURL (fst st) (snd st))
        siblings
        (<[key := 1]> pages,
         out ++ [Log ("crawling " +:+ currentURL); Fetch currentURL; Log message])) /\
  (forall fuel seed pages out key,
      crawl fetch anchorHrefs fuel seed = Ok (pages, out) ->
      key <> "__proto__" ->
      pages !!! key =
      hits seed key (seed :: discovered fetch anchorHrefs seed out)).
Proof.
  assert (Hcall : forall fuel baseURL currentURL key message pages out,
      onsite baseURL currentURL = true ->
      normalizeURL currentURL = Ok key ->
      key <> "__proto__" ->
      pages !!! key = 0 ->
      fetchHTML fetch currentURL = inl message ->
      crawlPage fetch anchorHrefs (S fuel) baseURL currentURL pages out =
      Ok (<[key := 1]> pages,
          out ++ [Log ("crawling " +:+ currentURL); Fetch currentURL; Log message])).
  { intros fuel baseURL cur key message pages out Hon Hk Hne Hz Hf.
    rewrite crawlPage_unfold. pose proof Hon as Hon'. unfold onsite in Hon'.
    destruct (Url.URL_new cur); [|discriminate].
    destruct (Url.URL_new baseURL); [|discriminate].
    rewrite Hon, Hk. cbn [negb bind]. rewrite Hz, Hf. cbn [Nat.ltb Nat.leb].
    rewrite assign_writable by (left; exact Hne).
    rewrite <- List.app_assoc. reflexivity. }
  split; [|split; [exact Hcall|split]].
  - intros url status statusText contentType body Hf Hs.
    unfold fetchHTML. rewrite Hf. apply Nat.ltb_lt in Hs. rewrite Hs. reflexivity.
  - intros fuel baseURL cur siblings key message pages out Hon Hk Hne Hz Hf.
    cbn [forEach fst snd]. rewrite (Hcall fuel baseURL cur key message) by assumption.
    reflexivity.
  - intros fuel seed pages out key Hrun Hne.
    destruct (crawl_run fetch anchorHrefs fuel seed pages out Hrun) as (Hc & _).
    rewrite Hc by exact Hne. symmetry. apply (hits_app _ _ [seed]).
Qed.

(** X16 on the page of [brokenWeb] that answers 404. *)
Lemma failed_fetch_ends_only_its_branch_witness :
  fetchHTML brokenWeb "http://site.test/gone" = inl "Got HTTP error: 404 Not Found" /\
  crawlPage brokenWeb wordsOf 1 "http://site.test/" "http://site.test/gone" ∅ [] =
    Ok ({[ "site.test/gone" := 1 ]},
        [Log "crawling http://site.test/gone"; Fetch "http://site.test/gone";
         Log "Got HTTP error: 404 Not Found"]) /\
  forEach (fun nextURL st =>
             crawlPage brokenWeb wordsOf 3 "http://site.test/" nextURL (fst st) (snd st))
    ["http://site.test/gone"; "http://site.test/fine"] (∅, []) =
  forEach (fun nextURL st =>
             crawlPage brokenWeb wordsOf 3 "http://site.test/" nextURL (fst st) (snd st))
    ["http://site.test/fine"]
    (<["site.test/gone" := 1]> ∅,
     [] ++ [Log "crawling http://site.test/gone"; Fetch "http://site.test/gone";
            Log "Got HTTP error: 404 Not Found"]) /\
  exists pages out,
    crawl brokenWeb wordsOf 3 "http://site.test/" = Ok (pages, out) /\
    pages !!! "site.test/fine" =
    hits "http://site.test/" "site.test/fine"
      ("http://site.test/" :: discovered brokenWeb wordsOf "http://site.test/" out).
Proof.
  pose proof (failed_fetch_ends_only_its_branch brokenWeb wordsOf)
    as (Hstatus & Hcall & Hloop & Hrun).
  split; [|split; [|split]].
  - apply (Hstatus "http://site.test/gone" 404 "Not Found" (Some "text/html") "/hidden");
      [reflexivity | lia].
  - apply (Hcall 0 "http://site.test/" "http://site.test/gone" "site.test/gone"
             "Got HTTP error: 404 Not Found" ∅ []);
      try (vm_compute; reflexivity). discriminate.
  - apply (Hloop 2 "http://site.test/" "http://site.test/gone" ["http://site.test/fine"]
             "site.test/gone" "Got HTTP error: 404 Not Found" ∅ []);
      try (vm_compute; reflexivity). discriminate.
  - eexists _, _. split; [vm_compute; reflexivity|].
    apply (Hrun 3); [vm_compute; reflexivity | discriminate].
Defined.

(** X17.  The crawl of a page of key [__proto__] that links to itself does
    not return, whatever depth is allowed: the key is not stored, so each
    visit of the page fetches it and follows its link again. *)
Theorem proto_self_link_is_followed_for_ever (fuel : nat) :
  crawl protoLoopWeb wordsOf fuel "http://__proto__/" = OutOfFuel.
Proof.
  unfold crawl. generalize (∅ : gmap string nat) (lookup_empty (M := gmap string)
    (A := nat) "__proto__") ([] : list event).
  induction fuel as [|fuel IH]; intros pages Habs out; [reflexivity|].
  rewrite crawlPage_unfold.
  assert (Url.URL_new "http://__proto__/" =
          Some (Url.mk "http" "__proto__" None [""] None None)) as ->
    by (vm_compute; reflexivity).
  assert (onsite "http://__proto__/" "http://__proto__/" = true) as ->
    by (vm_compute; reflexivity).
  assert (normalizeURL "http://__proto__/" = Ok "__proto__") as ->
    by (vm_compute; reflexivity).
  cbn [negb bind]. rewrite (lookup_total_absent _ _ Habs). cbn [Nat.ltb Nat.leb].
  assert (fetchHTML protoLoopWeb "http://__proto__/" = inr "/") as ->
    by (vm_compute; reflexivity).
  assert (getURLsFromHTML wordsOf "/" "http://__proto__/" =
          Ok (["http://__proto__/"], [])) as -> by (vm_compute; reflexivity).
  cbn [bind fst snd forEach]. rewrite assign_proto by exact Habs.
  rewrite IH by exact Habs. reflexivity.
Qed.
